(** * The email scheduler service: dispatch scheduling engine

    A shallow embedding of [mini-services/email-scheduler/index.ts] and of
    [mini-services/email-scheduler/lib/security.ts]: the request schema, the
    submission handler, the two listing handlers, the Redis rate limiter and
    the BullMQ worker, over an explicit model of the three collaborators the
    service talks to (the relational store, the counter store, the task
    queue).

    Conventions.
    - Instants are [Z] milliseconds since the epoch, as [Date.getTime()] and
      [Date.now()] give them.  [delaySeconds] and [hourlyLimit] are whole
      numbers.
    - Strings are [string]; the text functions ([trim], [toLowerCase], the
      address pattern) are given on ASCII.
    - Asynchronous code is run in program order: the callbacks that
      [Promise.all] collects are run by increasing index, each to its end,
      and a rejected callback does not stop the others.
    - Every clock reading, the mail transport's answer and the queue's
      acceptance of a task are inputs of the operation that uses them.
    - Console output ([console.log], [logAccessAttempt]) is left out. *)

From stdpp Require Import base option strings list gmap pretty.
From Stdlib Require Import ZArith Lia Ascii.

Open Scope string_scope.
Open Scope Z_scope.

(** ** Text helpers *)

Module Text.

(** The ASCII part of the class [\s] (and of what [String.prototype.trim]
    strips): tab, line feed, vertical tab, form feed, carriage return,
    space. *)
Definition is_space (c : ascii) : bool :=
  let n := nat_of_ascii c in
  ((9 <=? n)%nat && (n <=? 13)%nat) || (n =? 32)%nat.

Definition lower (c : ascii) : ascii :=
  let n := nat_of_ascii c in
  if ((65 <=? n)%nat && (n <=? 90)%nat)%bool then ascii_of_nat (n + 32) else c.

Fixpoint drop_spaces (l : list ascii) : list ascii :=
  match l with
  | c :: l' => if is_space c then drop_spaces l' else l
  | [] => []
  end.

(** [s.trim()] *)
Definition trim (s : string) : string :=
  String.string_of_list_ascii
    (rev (drop_spaces (rev (drop_spaces (String.list_ascii_of_string s))))).

(** [s.toLowerCase()] *)
Definition toLowerCase (s : string) : string :=
  String.string_of_list_ascii (map lower (String.list_ascii_of_string s)).

Definition is_at (c : ascii) : bool := (nat_of_ascii c =? 64)%nat.
Definition is_dot (c : ascii) : bool := (nat_of_ascii c =? 46)%nat.

(** [s.split('@')[0]]: the text before the first [@] (all of [s] when it
    has none). *)
Fixpoint before_at (s : string) : string :=
  match s with
  | EmptyString => EmptyString
  | String c s' => if is_at c then EmptyString else String c (before_at s')
  end.

(** The text after the first [@], when there is one. *)
Fixpoint after_at (s : string) : option string :=
  match s with
  | EmptyString => None
  | String c s' => if is_at c then Some s' else after_at s'
  end.

(** A character of the class [^\s@]. *)
Definition plain (c : ascii) : bool := negb (is_space c) && negb (is_at c).

Definition all_plain (s : string) : bool :=
  forallb plain (String.list_ascii_of_string s).

(** [l] matches [[^\s@]+\.[^\s@]+], given that all of [l] is plain: some
    dot has a character before it and a character after it. *)
Fixpoint inner_dot (seen_one : bool) (l : list ascii) : bool :=
  match l with
  | c :: ((_ :: _) as l') => (seen_one && is_dot c) || inner_dot true l'
  | _ => false
  end.

(** [/^[^\s@]+@[^\s@]+\.[^\s@]+$/.test(s)] *)
Definition emailRegex_test (s : string) : bool :=
  match after_at s with
  | None => false
  | Some domain =>
      let loc := before_at s in
      negb (String.length loc =? 0)%nat && all_plain loc
      && all_plain domain
      && inner_dot false (String.list_ascii_of_string domain)
  end.

End Text.

(** ** Data model ([types/email.ts]) *)

Inductive RecipientStatus := pending | scheduled | sent | failed.
Inductive JobStatus := job_pending | job_processing | job_completed | job_failed.

Global Instance RecipientStatus_eq_dec : EqDecision RecipientStatus.
Proof. solve_decision. Defined.
Global Instance JobStatus_eq_dec : EqDecision JobStatus.
Proof. solve_decision. Defined.

Record User := mkUser {
  user_id : string;
  user_email : string;
  user_name : option string
}.

Record EmailJob := mkEmailJob {
  job_id : string;
  job_subject : string;
  job_body : string;
  scheduledFor : Z;
  delaySeconds : Z;
  hourlyLimit : Z;
  job_status : JobStatus;
  job_userId : string
}.

Record EmailRecipient := mkEmailRecipient {
  rcp_id : string;
  rcp_email : string;
  emailJobId : string;
  rcp_status : RecipientStatus;
  scheduledAt : option Z;
  sentAt : option Z;
  errorMessage : option string;
  retryCount : Z
}.

(** [SendEmailJobData], the payload of a queued task. *)
Record SendEmailJobData := mkTask {
  t_recipientId : string;
  t_email : string;
  t_subject : string;
  t_body : string;
  t_jobId : string;
  t_userId : string;
  t_hourlyLimit : Z
}.

(** The options [emailQueue.add] is called with. *)
Record QueuedTask := mkQueued {
  q_data : SendEmailJobData;
  q_delay : Z;
  q_attempts : Z;
  q_backoff : Z
}.

(** ** Thrown values *)

Inductive Thrown :=
| ErrorObj (message : string)              (* a plain [Error] *)
| ZodError (paths : list string)           (* one path per issue *)
| PrismaKnown (code : string)              (* [PrismaClientKnownRequestError] *)
| PrismaValidation                         (* [PrismaClientValidationError] *)
| NotAnError.                              (* a thrown value that is no [Error] *)

Definition rateLimitMessage : string := "Rate limit exceeded, will retry next hour".

(** [error instanceof Error ? error.message : 'Unknown error'].  The messages
    of the library errors are the libraries' own text, written here as a
    bracketed tag. *)
Definition message_or_unknown (e : Thrown) : string :=
  match e with
  | ErrorObj m => m
  | ZodError _ => "[zod issues]"
  | PrismaKnown code => "[prisma " +:+ code +:+ "]"
  | PrismaValidation => "[prisma validation]"
  | NotAnError => "Unknown error"
  end.

(** [error instanceof Error && error.message === 'Rate limit exceeded, will
    retry next hour'] *)
Definition is_rate_limit_signal (e : Thrown) : bool :=
  match e with
  | NotAnError => false
  | _ => bool_decide (message_or_unknown e = rateLimitMessage)
  end.

(** ** The collaborators' state *)

(** A write the service made to the relational store.  The store keeps the
    list of them, in the order made, so that a property can speak of what a
    run wrote and not only of the rows it left. *)
Inductive DbWrite :=
| UserCreated (u : User)
| JobCreated (j : EmailJob) (rs : list EmailRecipient)
| RecipientUpdated (id : string) (r : EmailRecipient)
| JobUpdated (id : string) (j : EmailJob).

Record World := mkWorld {
  users : gmap string User;
  jobs : gmap string EmailJob;
  recipients : gmap string EmailRecipient;
  (** Redis counters: the value and, once [expire] was called, the instant
      at which the key goes away. *)
  redis : gmap string (Z * option Z);
  queue : list QueuedTask;
  (** The number of identifiers the store has generated so far. *)
  nextId : nat;
  writes : list DbWrite
}.

Definition empty_world : World := mkWorld ∅ ∅ ∅ ∅ [] 0 [].

(** ** A state and exception monad

    A computation reads and changes the [World] and either returns or throws.
    What was written before a throw stays written. *)

Inductive Outcome (A : Type) :=
| Ok (a : A)
| Throw (e : Thrown).
Arguments Ok {A} a.
Arguments Throw {A} e.

Definition M (A : Type) : Type := World → Outcome A * World.

Global Instance M_ret : MRet M := λ A a w, (Ok a, w).
Global Instance M_bind : MBind M := λ A B f m w,
  match m w with
  | (Ok a, w') => f a w'
  | (Throw e, w') => (Throw e, w')
  end.

Definition throw {A} (e : Thrown) : M A := λ w, (Throw e, w).

(** [try { m } catch (e) { h e }] *)
Definition try_catch {A} (m : M A) (h : Thrown → M A) : M A := λ w,
  match m w with
  | (Ok a, w') => (Ok a, w')
  | (Throw e, w') => h e w'
  end.

(** [await Promise.all(l.map(async (x, index) => f x index))]: every
    callback runs; the result is the first rejection, if there is one. *)
Fixpoint promise_all {A B} (f : A → nat → M B) (l : list A) (index : nat) : M (list B) := λ w,
  match l with
  | [] => (Ok [], w)
  | x :: l' =>
      let (o, w1) := f x index w in
      let (os, w2) := promise_all f l' (S index) w1 in
      (match o, os with
       | Ok b, Ok bs => Ok (b :: bs)
       | Throw e, _ => Throw e
       | Ok _, Throw e => Throw e
       end, w2)
  end.

(** ** The relational store (Prisma client) *)

Definition set_users (f : gmap string User → gmap string User) (w : World) : World :=
  mkWorld (f (users w)) (jobs w) (recipients w) (redis w) (queue w) (nextId w) (writes w).
Definition set_jobs (f : gmap string EmailJob → gmap string EmailJob) (w : World) : World :=
  mkWorld (users w) (f (jobs w)) (recipients w) (redis w) (queue w) (nextId w) (writes w).
Definition set_recipients (f : gmap string EmailRecipient → gmap string EmailRecipient)
    (w : World) : World :=
  mkWorld (users w) (jobs w) (f (recipients w)) (redis w) (queue w) (nextId w) (writes w).
Definition set_redis (f : gmap string (Z * option Z) → gmap string (Z * option Z))
    (w : World) : World :=
  mkWorld (users w) (jobs w) (recipients w) (f (redis w)) (queue w) (nextId w) (writes w).
Definition set_queue (f : list QueuedTask → list QueuedTask) (w : World) : World :=
  mkWorld (users w) (jobs w) (recipients w) (redis w) (f (queue w)) (nextId w) (writes w).
Definition set_nextId (n : nat) (w : World) : World :=
  mkWorld (users w) (jobs w) (recipients w) (redis w) (queue w) n (writes w).
Definition log_write (x : DbWrite) (w : World) : World :=
  mkWorld (users w) (jobs w) (recipients w) (redis w) (queue w) (nextId w) (writes w ++ [x])%list.

(** The identifiers the store generates for rows created without one.  The
    schema is not part of the sources; identifiers are taken to be made as
    [cuid()] makes them, a [c] followed by a counter.  The properties below
    use two facts about them only: distinct counters give distinct
    identifiers, and none is ['default-user']. *)
Definition gen_id (n : nat) : string := "c" +:+ pretty n.
Arguments gen_id : simpl never.

(** The unique-constraint and record-not-found error codes. *)
Definition P2002 : Thrown := PrismaKnown "P2002".
Definition P2025 : Thrown := PrismaKnown "P2025".

(** [db.user.findUnique({ where: { id } })] *)
Definition db_user_findUnique_id (id : string) : M (option User) :=
  λ w, (Ok (users w !! id), w).

Definition find_by_email (us : gmap string User) (email : string) : option User :=
  (λ x : nat * (string * User), x.2.2)
    <$> list_find (λ p : string * User, user_email p.2 = email) (map_to_list us).

(** [db.user.findUnique({ where: { email } })] *)
Definition db_user_findUnique_email (email : string) : M (option User) :=
  λ w, (Ok (find_by_email (users w) email), w).

(** [db.user.create({ data: { id?, email, name } })]: the identifier is the
    given one or a generated one; both the identifier and the address are
    unique in the table. *)
Definition db_user_create (id : option string) (email name : string) : M User := λ w,
  let id' := default (gen_id (nextId w)) id in
  let w1 := match id with None => set_nextId (S (nextId w)) w | Some _ => w end in
  if bool_decide (users w !! id' = None ∧ find_by_email (users w) email = None) then
    let u := mkUser id' email (Some name) in
    (Ok u, log_write (UserCreated u) (set_users (insert id' u) w1))
  else (Throw P2002, w1).

Definition insert_recipients (rs : list EmailRecipient)
    (m : gmap string EmailRecipient) : gmap string EmailRecipient :=
  foldr (λ r acc, <[rcp_id r := r]> acc) m rs.

(** Modelled from the spec: the column defaults of the store's schema, which
    is not part of the sources.  A new job starts [pending]; a new recipient
    has no timestamps, no error message and [retryCount = 0]. *)
Definition default_job_status : JobStatus := job_pending.
Definition new_recipient (id email jobId : string) (st : RecipientStatus) : EmailRecipient :=
  mkEmailRecipient id email jobId st None None None 0.

(** [db.emailJob.create({ data: { ..., recipients: { create: [...] } },
    include: { recipients: true } })]: one transaction; the rows come back in
    the order they were given.  An invalid [Date] is refused. *)
Definition db_emailJob_create (subject body : string) (scheduledFor : option Z)
    (delaySeconds hourlyLimit : Z) (userId : string)
    (rcps : list (string * RecipientStatus)) : M (EmailJob * list EmailRecipient) := λ w,
  match scheduledFor with
  | None => (Throw PrismaValidation, w)
  | Some t =>
      let n := nextId w in
      let jid := gen_id n in
      let rs := imap (λ i p, new_recipient (gen_id (S n + i)) p.1 jid p.2) rcps in
      let w1 := set_nextId (S n + length rcps) w in
      if bool_decide (jobs w !! jid = None
                      ∧ Forall (λ r, recipients w !! rcp_id r = None) rs) then
        let j := mkEmailJob jid subject body t delaySeconds hourlyLimit
                   default_job_status userId in
        (Ok (j, rs),
         log_write (JobCreated j rs)
           (set_recipients (insert_recipients rs) (set_jobs (insert jid j) w1)))
      else (Throw P2002, w1)
  end.

(** [db.emailRecipient.update({ where: { id }, data })] *)
Definition db_emailRecipient_update (id : string)
    (data : EmailRecipient → EmailRecipient) : M EmailRecipient := λ w,
  match recipients w !! id with
  | None => (Throw P2025, w)
  | Some r =>
      let r' := data r in
      (Ok r', log_write (RecipientUpdated id r') (set_recipients (insert id r') w))
  end.

(** [db.emailJob.update({ where: { id }, data: { status } })] *)
Definition db_emailJob_update (id : string) (st : JobStatus) : M EmailJob := λ w,
  match jobs w !! id with
  | None => (Throw P2025, w)
  | Some j =>
      let j' := mkEmailJob (job_id j) (job_subject j) (job_body j) (scheduledFor j)
                  (delaySeconds j) (hourlyLimit j) st (job_userId j) in
      (Ok j', log_write (JobUpdated id j') (set_jobs (insert id j') w))
  end.

Definition all_recipients (w : World) : list EmailRecipient :=
  (map_to_list (recipients w)).*2.

(** [db.emailRecipient.findMany({ where: { emailJobId } })] *)
Definition db_emailRecipient_findMany_job (jobId : string) : M (list EmailRecipient) :=
  λ w, (Ok (filter (λ r, emailJobId r = jobId) (all_recipients w)), w).

(** The [data] arguments of the three recipient updates of the worker and of
    the one of the submission handler. *)
Definition data_schedule (st : RecipientStatus) (t : Z) (r : EmailRecipient) : EmailRecipient :=
  mkEmailRecipient (rcp_id r) (rcp_email r) (emailJobId r) st (Some t)
    (sentAt r) (errorMessage r) (retryCount r).
Definition data_sent (t : Z) (r : EmailRecipient) : EmailRecipient :=
  mkEmailRecipient (rcp_id r) (rcp_email r) (emailJobId r) sent (scheduledAt r)
    (Some t) (errorMessage r) (retryCount r).
Definition data_failed (msg : string) (r : EmailRecipient) : EmailRecipient :=
  mkEmailRecipient (rcp_id r) (rcp_email r) (emailJobId r) failed (scheduledAt r)
    (sentAt r) (Some msg) (retryCount r + 1).

(** ** The task queue and the counter store *)

(** [emailQueue.add('send-email', data, { delay, attempts: 3, backoff:
    { type: 'exponential', delay: 5000 } })]; [refusal] is the message of the
    error the queue answers with when it does not take the task. *)
Definition emailQueue_add (refusal : option string) (data : SendEmailJobData)
    (delay : Z) : M unit := λ w,
  match refusal with
  | Some message => (Throw (ErrorObj message), w)
  | None => (Ok tt, set_queue (λ q, (q ++ [mkQueued data delay 3 5000])%list) w)
  end.

(** A key is there until its expiry instant. *)
Definition redis_live (now : Z) (e : Z * option Z) : bool :=
  match e.2 with
  | Some t => now <? t
  | None => true
  end.

Definition redis_get (now : Z) (key : string) (w : World) : option (Z * option Z) :=
  match redis w !! key with
  | Some e => if redis_live now e then Some e else None
  | None => None
  end.

(** [connection.incr(key)] *)
Definition redis_incr (now : Z) (key : string) : M Z := λ w,
  let e := default (0, None) (redis_get now key w) in
  (Ok (e.1 + 1), set_redis (insert key (e.1 + 1, e.2)) w).

(** [connection.expire(key, seconds)] *)
Definition redis_expire (now : Z) (key : string) (seconds : Z) : M unit := λ w,
  match redis_get now key w with
  | Some e => (Ok tt, set_redis (insert key (e.1, Some (now + seconds * 1000))) w)
  | None => (Ok tt, w)
  end.

(** ** Requests *)

(** A JSON value of a request body or of a query string. *)
#[warnings="-register-all"]
Inductive JSValue :=
| JUndefined
| JNull
| JBool (b : bool)
| JNumber (n : Z)
| JString (s : string)
| JArray (l : list JSValue).

(** [req.body] of [POST /api/emails/schedule], field by field; an absent
    field is [JUndefined]. *)
Record ScheduleBody := mkBody {
  b_subject : JSValue;
  b_body : JSValue;
  b_recipients : JSValue;
  b_startTime : JSValue;
  b_delaySeconds : JSValue;
  b_hourlyLimit : JSValue;
  b_userId : JSValue;
  b_userEmail : JSValue
}.

(** What [scheduleEmailSchema.parse] returns. *)
Record ScheduleData := mkData {
  d_subject : string;
  d_body : string;
  d_recipients : list string;
  d_startTime : string;
  d_delaySeconds : Z;
  d_hourlyLimit : Z;
  d_userId : string;
  d_userEmail : option string
}.

(** The JSON bodies the handlers answer with.  The [details] of a validation
    error hold one entry per issue, its path (the message after the path is
    zod's own text). *)
Inductive ResponseBody :=
| ScheduleOk (jobId : string) (recipientCount : nat) (scheduledFor : Z)
| ErrorBody (error : string) (details : list string)
| ScheduledRows (rows : list (string * string * string * string * string * RecipientStatus))
| SentRows (rows : list (string * string * string * string * option string
                         * RecipientStatus * option string)).

Record Response := mkResponse {
  res_status : Z;
  res_body : ResponseBody
}.

(** The identifiers a response body carries. *)
Definition body_ids (b : ResponseBody) : list string :=
  match b with
  | ScheduleOk jobId _ _ => [jobId]
  | ErrorBody _ _ => []
  | ScheduledRows rows => (λ r, r.1.1.1.1.1) <$> rows
  | SentRows rows => (λ r, r.1.1.1.1.1.1) <$> rows
  end.

(** What the submission handler reads from its surroundings: [clock i] is
    the value of [Date.now()] in the callback of the recipient at index [i],
    [refusal i] the message of the error of [emailQueue.add] for that
    recipient, if it fails. *)
Record SubmitEnv := mkSubmitEnv {
  clock : nat → Z;
  refusal : nat → option string
}.

(** What one run of the worker reads from its surroundings. *)
Inductive MailResult :=
| Delivered (messageId : string)
| MailFailed (e : Thrown).

Record WorkerEnv := mkWorkerEnv {
  now_check : Z;       (* [Date.now()] in [checkRateLimit] *)
  now_defer : Z;       (* [Date.now()] in the rate-limit branch *)
  now_sent : Z;        (* [new Date()] of [sentAt] *)
  mail : MailResult    (* what [transporter.sendMail] does *)
}.

Definition HOUR_MS : Z := 1000 * 60 * 60.

(** [Math.floor(t / (1000 * 60 * 60))] *)
Definition hour_floor (t : Z) : Z := t / HOUR_MS.

(** [Math.ceil(t / (1000 * 60 * 60))] *)
Definition hour_ceil (t : Z) : Z := - ((- t) / HOUR_MS).

(** [`rate_limit:${userId}:${currentHour}`] *)
Definition rate_limit_key (userId : string) (currentHour : Z) : string :=
  "rate_limit:" +:+ userId +:+ ":" +:+ pretty currentHour.

(** [checkRateLimit] *)
Definition checkRateLimit (now : Z) (userId : string) (hourlyLimit : Z) : M bool :=
  let currentHour := hour_floor now in
  let key := rate_limit_key userId currentHour in
  currentCount ← redis_incr now key;
  _ ← (if bool_decide (currentCount = 1) then redis_expire now key 3600 else mret tt);
  mret (bool_decide (currentCount ≤ hourlyLimit)).

(** The [try] block of the worker's processor up to and including the update
    that marks the recipient [sent]; the result is [info.messageId]. *)
Definition send_and_mark (env : WorkerEnv) (data : SendEmailJobData) : M string :=
  canSend ← checkRateLimit (now_check env) (t_userId data) (t_hourlyLimit data);
  _ ← (if negb canSend then
         let nextHour := hour_ceil (now_defer env) * HOUR_MS in
         _ ← db_emailRecipient_update (t_recipientId data) (data_schedule scheduled nextHour);
         throw (ErrorObj rateLimitMessage)
       else mret tt);
  info ← (match mail env with
          | Delivered messageId => mret messageId
          | MailFailed e => throw e
          end);
  _ ← db_emailRecipient_update (t_recipientId data) (data_sent (now_sent env));
  mret info.

(** The rest of the [try] block: "Update email job status if all recipients
    are sent". *)
Definition completion_check (data : SendEmailJobData) : M unit :=
  jobRecipients ← db_emailRecipient_findMany_job (t_jobId data);
  let allSent := forallb (λ r, bool_decide (rcp_status r = sent)) jobRecipients in
  if allSent then _ ← db_emailJob_update (t_jobId data) job_completed; mret tt
  else mret tt.

(** The [try] block; its result stands for [{ success: true, messageId }]. *)
Definition worker_body (env : WorkerEnv) (data : SendEmailJobData) : M string :=
  info ← send_and_mark env data;
  _ ← completion_check data;
  mret info.

Definition worker_catch (data : SendEmailJobData) (error : Thrown) : M string :=
  if is_rate_limit_signal error then throw error
  else
    _ ← db_emailRecipient_update (t_recipientId data)
          (data_failed (message_or_unknown error));
    throw error.

(** The processor given to [new Worker('emails', ...)]: the value it returns
    or the error it hands to the queue. *)
Definition worker (env : WorkerEnv) (data : SendEmailJobData) : M string :=
  try_catch (worker_body env data) (worker_catch data).

(** ** The request schema and the HTTP handlers

    The libraries' own checks are parameters: zod's address and ISO date-time
    patterns, the [Date] constructor on a string ([None] is an invalid
    [Date]) and [Date.prototype.toISOString]. *)

Section Handlers.

Variable zod_email : string → bool.
Variable zod_datetime : string → bool.
Variable Date_parse : string → option Z.
Variable toISOString : Z → string.

(** A schema check gives the parsed value or the paths of its issues. *)
Definition Parsed (A : Type) : Type := list string + A.

(** [z.string().min(1)] *)
Definition z_string_min1 (path : string) (v : JSValue) : Parsed string :=
  match v with
  | JString s => if (1 <=? String.length s)%nat then inr s else inl [path]
  | _ => inl [path]
  end.

(** [z.string()] *)
Definition z_string (path : string) (v : JSValue) : Parsed string :=
  match v with
  | JString s => inr s
  | _ => inl [path]
  end.

(** [z.string().email()] on the element at [index] of [path]. *)
Definition z_email_item (path : string) (index : nat) (v : JSValue) : Parsed string :=
  match v with
  | JString s => if zod_email s then inr s else inl [path +:+ "." +:+ pretty index]
  | _ => inl [path +:+ "." +:+ pretty index]
  end.

Fixpoint z_email_items (path : string) (index : nat) (l : list JSValue)
    : Parsed (list string) :=
  match l with
  | [] => inr []
  | v :: l' =>
      match z_email_item path index v, z_email_items path (S index) l' with
      | inr s, inr ss => inr (s :: ss)
      | inl e, inr _ => inl e
      | inr _, inl es => inl es
      | inl e, inl es => inl (e ++ es)%list
      end
  end.

(** [z.array(z.string().email()).min(1)] *)
Definition z_email_array (path : string) (v : JSValue) : Parsed (list string) :=
  match v with
  | JArray l =>
      match z_email_items path 0 l with
      | inr ss => if (1 <=? length ss)%nat then inr ss else inl [path]
      | inl es => if (1 <=? length l)%nat then inl es else inl (es ++ [path])%list
      end
  | _ => inl [path]
  end.

(** The [z.preprocess] callback of [startTime]. *)
Definition startTime_preprocess (val : JSValue) : JSValue :=
  match val with
  | JString s =>
      match Date_parse s with
      | Some d => JString (toISOString d)
      | None => val
      end
  | _ => val
  end.

(** [z.preprocess(..., z.string().datetime())] *)
Definition z_startTime (path : string) (v : JSValue) : Parsed string :=
  match startTime_preprocess v with
  | JString s => if zod_datetime s then inr s else inl [path]
  | _ => inl [path]
  end.

(** [z.number().min(lo).max(hi)] *)
Definition z_number_range (lo hi : Z) (path : string) (v : JSValue) : Parsed Z :=
  match v with
  | JNumber n => if (lo <=? n) && (n <=? hi) then inr n else inl [path]
  | _ => inl [path]
  end.

(** [z.string().email().optional()] *)
Definition z_email_optional (path : string) (v : JSValue) : Parsed (option string) :=
  match v with
  | JUndefined => inr None
  | JString s => if zod_email s then inr (Some s) else inl [path]
  | _ => inl [path]
  end.

Definition issues {A} (p : Parsed A) : list string :=
  match p with
  | inl es => es
  | inr _ => []
  end.

(** [scheduleEmailSchema.parse(body)]: every field is checked and all the
    issues are reported together. *)
Definition scheduleEmailSchema_parse (b : ScheduleBody) : Parsed ScheduleData :=
  let subject := z_string_min1 "subject" (b_subject b) in
  let body := z_string_min1 "body" (b_body b) in
  let rcps := z_email_array "recipients" (b_recipients b) in
  let startTime := z_startTime "startTime" (b_startTime b) in
  let delaySeconds := z_number_range 1 300 "delaySeconds" (b_delaySeconds b) in
  let hourlyLimit := z_number_range 1 1000 "hourlyLimit" (b_hourlyLimit b) in
  let userId := z_string "userId" (b_userId b) in
  let userEmail := z_email_optional "userEmail" (b_userEmail b) in
  match subject, body, rcps, startTime, delaySeconds, hourlyLimit, userId, userEmail with
  | inr s, inr bd, inr rs, inr st, inr ds, inr hl, inr uid, inr ue =>
      inr (mkData s bd rs st ds hl uid ue)
  | _, _, _, _, _, _, _, _ =>
      inl (issues subject ++ issues body ++ issues rcps ++ issues startTime
           ++ issues delaySeconds ++ issues hourlyLimit ++ issues userId
           ++ issues userEmail)%list
  end.

Definition parse_or_throw (b : ScheduleBody) : M ScheduleData :=
  match scheduleEmailSchema_parse b with
  | inr data => mret data
  | inl paths => throw (ZodError paths)
  end.

(** The user of a submission: found by identifier, or created with the
    address the gateway passed along, or, when that address is taken,
    the user who has it.  [inl] is an early [return res.status(400)]. *)
Definition resolve_user (data : ScheduleData) : M (Response + User) :=
  user ← db_user_findUnique_id (d_userId data);
  match user with
  | Some u => mret (inr u)
  | None =>
      match d_userEmail data with
      | None | Some "" =>
          mret (inl (mkResponse 400
                       (ErrorBody "User email is required. Please log in again." [])))
      | Some userEmail =>
          u ← try_catch
                (db_user_create (Some (d_userId data)) userEmail (Text.before_at userEmail))
                (λ createError,
                   match createError with
                   | PrismaKnown "P2002" =>
                       found ← db_user_findUnique_email userEmail;
                       match found with
                       | Some u => mret u
                       | None => throw createError
                       end
                   | _ => throw createError
                   end);
          mret (inr u)
      end
  end.

(** The callback of [emailJob.recipients.map] for one recipient. *)
Definition schedule_one (env : SubmitEnv) (data : ScheduleData) (startTime : Z)
    (emailJob : EmailJob) (user : User) (recipient : EmailRecipient) (index : nat)
    : M unit :=
  let delay := Z.of_nat index * d_delaySeconds data * 1000 in
  let scheduledTime := startTime + delay in
  let queueDelay := Z.max 0 (scheduledTime - clock env index) in
  let isImmediate := queueDelay <? 10000 in
  _ ← db_emailRecipient_update (rcp_id recipient)
        (data_schedule (if isImmediate then pending else scheduled) scheduledTime);
  emailQueue_add (refusal env index)
    (mkTask (rcp_id recipient) (rcp_email recipient) (d_subject data) (d_body data)
       (job_id emailJob) (user_id user) (d_hourlyLimit data))
    queueDelay.

Definition schedule_try (env : SubmitEnv) (body : ScheduleBody) : M Response :=
  data ← parse_or_throw body;
  let startTime := Date_parse (d_startTime data) in
  if bool_decide (d_userId data = "default-user") || bool_decide (d_userId data = "") then
    mret (mkResponse 400 (ErrorBody "Invalid user ID. Please log in again." []))
  else
    resolved ← resolve_user data;
    match resolved with
    | inl early => mret early
    | inr user =>
        created ← db_emailJob_create (d_subject data) (d_body data) startTime
                    (d_delaySeconds data) (d_hourlyLimit data) (user_id user)
                    ((λ email, (email, pending)) <$> d_recipients data);
        let (emailJob, rcps) := created : EmailJob * list EmailRecipient in
        (* the create above has refused an invalid [startTime] *)
        _ ← promise_all
              (schedule_one env data (default 0 startTime) emailJob user) rcps 0;
        mret (mkResponse 200
                (ScheduleOk (job_id emailJob) (length rcps) (scheduledFor emailJob)))
    end.

Definition schedule_catch (error : Thrown) : M Response :=
  match error with
  | ZodError paths => mret (mkResponse 400 (ErrorBody "Validation failed" paths))
  | _ => mret (mkResponse 500 (ErrorBody "Failed to schedule email" []))
  end.

(** [app.post('/api/emails/schedule', ...)] *)
Definition post_schedule (env : SubmitEnv) (body : ScheduleBody) : M Response :=
  try_catch (schedule_try env body) schedule_catch.

End Handlers.

(** ** The listing handlers ([GET /api/emails/scheduled], [GET /api/emails/sent]) *)

(** [sanitizeEmail] of [lib/security.ts] *)
Definition sanitizeEmail (email : string) : string := Text.toLowerCase (Text.trim email).

(** [getUserByEmail] of [lib/security.ts] *)
Definition getUserByEmail (email : string) : M (option User) :=
  if negb (Text.emailRegex_test email) then mret None
  else try_catch (db_user_findUnique_email email) (λ _, mret None).

Section Listing.

Variable toISOString : Z → string.

(** A recipient row with its job ([include: { emailJob: ... }]). *)
Definition Row : Type := EmailRecipient * EmailJob.

(** [orderBy: { <column>: 'asc' | 'desc' }]: the store's ordering of rows
    by a timestamp column that may be null. *)
Variable orderBy : (EmailRecipient → option Z) → bool → list Row → list Row.

(** [db.emailRecipient.findMany({ where: { status: { in: statuses },
    emailJob: { userId } }, include: { emailJob }, orderBy, take: 100 })] *)
Definition db_emailRecipient_findMany_user (statuses : list RecipientStatus)
    (userId : string) (col : EmailRecipient → option Z) (desc : bool) : M (list Row) := λ w,
  let joined := omap (λ r, j ← jobs w !! emailJobId r; Some (r, j)) (all_recipients w) in
  let rows :=
    filter (λ p : Row, rcp_status p.1 ∈ statuses ∧ job_userId p.2 = userId) joined in
  (Ok (take 100 (orderBy col desc rows)), w).

(** The user of a listing request: the one who has the address, or a new
    one.  [inl] is an early [return res.json([])]. *)
Definition user_for_get (empty : ResponseBody) (sanitizedEmail : string)
    : M (Response + User) :=
  user ← getUserByEmail sanitizedEmail;
  match user with
  | Some u => mret (inr u)
  | None =>
      try_catch
        (u ← db_user_create None sanitizedEmail (Text.before_at sanitizedEmail);
         mret (inr u))
        (λ createError,
           match createError with
           | PrismaKnown "P2002" =>
               again ← getUserByEmail sanitizedEmail;
               match again with
               | Some u => mret (inr u)
               | None => mret (inl (mkResponse 200 empty))
               end
           | _ => mret (inl (mkResponse 200 empty))
           end)
  end.

Definition owned (user : User) (rows : list Row) : list Row :=
  filter (λ r : Row, job_userId r.2 = user_id user) rows.

Definition listing (empty : ResponseBody) (userEmail : JSValue)
    (result : User → M ResponseBody) : M Response :=
  match userEmail with
  | JString s =>
      if bool_decide (s = "") then
        mret (mkResponse 400 (ErrorBody "userEmail parameter is required" []))
      else
        let sanitizedEmail := sanitizeEmail s in
        if negb (Text.emailRegex_test sanitizedEmail) then
          mret (mkResponse 400 (ErrorBody "Invalid email format" []))
        else
          resolved ← user_for_get empty sanitizedEmail;
          match resolved with
          | inl early => mret early
          | inr user => body ← result user; mret (mkResponse 200 body)
          end
  | _ => mret (mkResponse 400 (ErrorBody "userEmail parameter is required" []))
  end.

(** [app.get('/api/emails/scheduled', ...)] *)
Definition get_scheduled (userEmail : JSValue) : M Response :=
  try_catch
    (listing (ScheduledRows []) userEmail (λ user,
       rcps ← db_emailRecipient_findMany_user [pending; scheduled] (user_id user)
                scheduledAt false;
       mret (ScheduledRows
               ((λ r : Row,
                   (rcp_id r.1, rcp_email r.1, job_subject r.2, job_body r.2,
                    toISOString (default (scheduledFor r.2) (scheduledAt r.1)),
                    rcp_status r.1)) <$> owned user rcps))))
    (λ _, mret (mkResponse 500 (ErrorBody "Failed to fetch scheduled emails" []))).

(** [app.get('/api/emails/sent', ...)] *)
Definition get_sent (userEmail : JSValue) : M Response :=
  try_catch
    (listing (SentRows []) userEmail (λ user,
       rcps ← db_emailRecipient_findMany_user [sent; failed] (user_id user) sentAt true;
       mret (SentRows
               ((λ r : Row,
                   (rcp_id r.1, rcp_email r.1, job_subject r.2, job_body r.2,
                    toISOString <$> sentAt r.1, rcp_status r.1, errorMessage r.1))
                  <$> owned user rcps))))
    (λ _, mret (mkResponse 500 (ErrorBody "Failed to fetch sent emails" []))).

End Listing.

(** ** Signing in ([lib/auth.ts])

    [authorize] of the credentials provider: the other place where user rows
    are created. *)
Definition authorize (email password : string) : M (option User) :=
  if bool_decide (email = "") || bool_decide (password = "") then mret None
  else if negb (bool_decide (password = "password")) then mret None
  else
    user ← db_user_findUnique_email email;
    match user with
    | Some u => mret (Some u)
    | None => u ← db_user_create None email (Text.before_at email); mret (Some u)
    end.

(** ** Runs of the rate limiter *)

(** The calls [checkRateLimit(userId, hourlyLimit)] made one after the other
    at the instants [times]. *)
Fixpoint check_sequence (userId : string) (hourlyLimit : Z) (times : list Z)
    : M (list bool) :=
  match times with
  | [] => mret []
  | now :: times' =>
      b ← checkRateLimit now userId hourlyLimit;
      bs ← check_sequence userId hourlyLimit times';
      mret (b :: bs)
  end.

(** The count of a key as a reader at instant [now] sees it. *)
Definition count_at (now : Z) (key : string) (w : World) : Z :=
  default 0 (fst <$> redis_get now key w).

(** The counter of [userId] for hour [h] after [c] calls in that hour: absent
    before the first call, and afterwards present with an expiry that lies
    beyond the hour. *)
Definition bucket_after (userId : string) (h : Z) (c : Z) (w : World) : Prop :=
  match redis w !! rate_limit_key userId h with
  | None => c = 0
  | Some (v, Some e) => 0 < c ∧ v = c ∧ (h + 1) * HOUR_MS ≤ e
  | Some (_, None) => False
  end.

(** The writes of a run that took the store from [w] to [w']. *)
Definition new_writes (w w' : World) : list DbWrite :=
  drop (length (writes w)) (writes w').

(** Among [ws] there is an update of job [jobId] that sets its status to
    [completed]. *)
Definition completed_written (jobId : string) (ws : list DbWrite) : Prop :=
  ∃ j, JobUpdated jobId j ∈ ws ∧ job_status j = job_completed.

(** Among [ws] there is an update of recipient [id] that sets its status to
    [failed]. *)
Definition failed_written (id : string) (ws : list DbWrite) : Prop :=
  ∃ r, RecipientUpdated id r ∈ ws ∧ rcp_status r = failed.

(** The recipients of job [jobId]. *)
Definition recipients_of (jobId : string) (w : World) : list EmailRecipient :=
  filter (λ r, emailJobId r = jobId) (all_recipients w).

(** The start of the hour after the one [t] lies in. *)
Definition next_hour_start (t : Z) : Z := (hour_floor t + 1) * HOUR_MS.

(** ** Notions used to state the properties of a submission *)

(** The identifiers the store will generate from now on are not in use. *)
Definition fresh_ids (w : World) : Prop :=
  ∀ m : nat, (nextId w ≤ m)%nat →
    jobs w !! gen_id m = None ∧ recipients w !! gen_id m = None.

(** The owner of a submission can be resolved: the user is known to the
    store, or the gateway passed the user's address along. *)
Definition owner_known (data : ScheduleData) (w : World) : Prop :=
  is_Some (users w !! d_userId data) ∨ ∃ e, d_userEmail data = Some e ∧ e ≠ "".

(** The row of the recipient at [index] once its callback has updated it. *)
Definition row_after (env : SubmitEnv) (data : ScheduleData) (startTime : Z)
    (index : nat) (r : EmailRecipient) : EmailRecipient :=
  let scheduledTime := startTime + Z.of_nat index * d_delaySeconds data * 1000 in
  let queueDelay := Z.max 0 (scheduledTime - clock env index) in
  data_schedule (if queueDelay <? 10000 then pending else scheduled) scheduledTime r.

(** The task queued for the recipient at [index], when the queue takes
    it. *)
Definition task_after (env : SubmitEnv) (data : ScheduleData) (startTime : Z)
    (emailJob : EmailJob) (user : User) (index : nat) (r : EmailRecipient) : QueuedTask :=
  let scheduledTime := startTime + Z.of_nat index * d_delaySeconds data * 1000 in
  let queueDelay := Z.max 0 (scheduledTime - clock env index) in
  mkQueued
    (mkTask (rcp_id r) (rcp_email r) (d_subject data) (d_body data) (job_id emailJob)
       (user_id user) (d_hourlyLimit data))
    queueDelay 3 5000.

(** The sentinel that stands for "no authenticated user". *)
Definition sentinel : string := "default-user".

(** No user row and no job carries the sentinel. *)
Definition sentinel_free (w : World) : Prop :=
  (∀ k u, users w !! k = Some u → user_id u ≠ sentinel)
  ∧ (∀ k j, jobs w !! k = Some j → job_userId j ≠ sentinel).

(** ** A sample of the library parameters

    One small instance of the parameters of the handlers, enough to run them
    on the examples below: its [Date] knows a single instant, midnight UTC
    of 1 January 2026, and its address check is the pattern of
    [lib/security.ts]. *)

Module Sample.

Definition iso : string := "2026-01-01T00:00:00.000Z".
Definition instant : Z := 1767225600000.

Definition zod_email : string → bool := Text.emailRegex_test.
Definition zod_datetime (s : string) : bool := bool_decide (s = iso).
Definition Date_parse (s : string) : option Z :=
  if bool_decide (s = iso) then Some instant else None.
Definition toISOString (t : Z) : string := iso.
Definition orderBy (col : EmailRecipient → option Z) (desc : bool)
    (rows : list (EmailRecipient * EmailJob)) : list (EmailRecipient * EmailJob) := rows.

(** The scenario of three recipients, five seconds apart, starting now. *)
Definition body : ScheduleBody :=
  mkBody (JString "Hello") (JString "<p>Hello</p>")
    (JArray [JString "a@x.com"; JString "b@x.com"; JString "c@x.com"])
    (JString iso) (JNumber 5) (JNumber 1000) (JString "u1") (JString "me@x.com").

Definition data : ScheduleData :=
  mkData "Hello" "<p>Hello</p>" ["a@x.com"; "b@x.com"; "c@x.com"] iso 5 1000 "u1"
    (Some "me@x.com").

(** The handler's clock reads the start time and the queue takes every
    task. *)
Definition env_now : SubmitEnv := mkSubmitEnv (λ _, instant) (λ _, None).

(** The queue is unreachable. *)
Definition env_down : SubmitEnv :=
  mkSubmitEnv (λ _, instant) (λ _, Some "connect ECONNREFUSED 127.0.0.1:6379").

(** The same request sent without a session. *)
Definition body_sentinel : ScheduleBody :=
  mkBody (JString "Hello") (JString "<p>Hello</p>")
    (JArray [JString "a@x.com"; JString "b@x.com"; JString "c@x.com"])
    (JString iso) (JNumber 5) (JNumber 1000) (JString "default-user") (JString "me@x.com").

Definition post (env : SubmitEnv) (b : ScheduleBody) : M Response :=
  post_schedule zod_email zod_datetime Date_parse toISOString env b.

End Sample.

(** ** Requests the submission endpoint has to refuse *)

Inductive rejected_request (zod_email : string → bool) (Date_parse : string → option Z)
    (body : ScheduleBody) : Prop :=
| no_recipients :
    b_recipients body = JArray [] → rejected_request zod_email Date_parse body
| malformed_address (l : list JSValue) (i : nat) (s : string) :
    b_recipients body = JArray l → l !! i = Some (JString s) → zod_email s = false →
    rejected_request zod_email Date_parse body
| unparseable_startTime (s : string) :
    b_startTime body = JString s → Date_parse s = None →
    rejected_request zod_email Date_parse body
| delaySeconds_out_of_range (n : Z) :
    b_delaySeconds body = JNumber n → ¬ (1 ≤ n ≤ 300) →
    rejected_request zod_email Date_parse body
| hourlyLimit_out_of_range (n : Z) :
    b_hourlyLimit body = JNumber n → ¬ (1 ≤ n ≤ 1000) →
    rejected_request zod_email Date_parse body
| userId_absent :
    b_userId body = JUndefined → rejected_request zod_email Date_parse body
| userId_sentinel :
    b_userId body = JString sentinel → rejected_request zod_email Date_parse body.

(** ** The states the service can be in

    From an empty store, by any sequence of submissions, listings, sign-ins
    and runs of the worker, whatever the requests, the clock, the queue and
    the mail transport do. *)

Section Reachable.

Variable zod_email : string → bool.
Variable zod_datetime : string → bool.
Variable Date_parse : string → option Z.
Variable toISOString : Z → string.
Variable orderBy : (EmailRecipient → option Z) → bool
                   → list (EmailRecipient * EmailJob) → list (EmailRecipient * EmailJob).

Inductive reachable : World → Prop :=
| reach_empty : reachable empty_world
| reach_post w env body o w' :
    reachable w →
    post_schedule zod_email zod_datetime Date_parse toISOString env body w = (o, w') →
    reachable w'
| reach_get_scheduled w userEmail o w' :
    reachable w → get_scheduled toISOString orderBy userEmail w = (o, w') → reachable w'
| reach_get_sent w userEmail o w' :
    reachable w → get_sent toISOString orderBy userEmail w = (o, w') → reachable w'
| reach_authorize w email password o w' :
    reachable w → authorize email password w = (o, w') → reachable w'
| reach_worker w env data o w' :
    reachable w → worker env data w = (o, w') → reachable w'.

End Reachable.

(** ** Two tasks of one user on the stroke of the hour

    User [u1] has two jobs with [hourlyLimit = 1], each with one recipient
    due at [now], and [now] is a whole number of hours. *)

Module OnTheHour.

Definition now : Z := 1767225600000.

Definition world : World :=
  mkWorld
    {[ "u1" := mkUser "u1" "me@x.com" (Some "me") ]}
    {[ "j1" := mkEmailJob "j1" "Hello" "<p>Hello</p>" now 5 1 job_pending "u1";
       "j2" := mkEmailJob "j2" "Again" "<p>Again</p>" now 5 1 job_pending "u1" ]}
    {[ "r1" := mkEmailRecipient "r1" "a@x.com" "j1" pending (Some now) None None 0;
       "r2" := mkEmailRecipient "r2" "b@x.com" "j2" pending (Some now) None None 0 ]}
    ∅ [] 0 [].

Definition task_a : SendEmailJobData :=
  mkTask "r1" "a@x.com" "Hello" "<p>Hello</p>" "j1" "u1" 1.
Definition task_b : SendEmailJobData :=
  mkTask "r2" "b@x.com" "Again" "<p>Again</p>" "j2" "u1" 1.

(** Both tasks run in the millisecond [now]; the transport delivers. *)
Definition env : WorkerEnv := mkWorkerEnv now now now (Delivered "<m1@x.com>").

(** The transport refuses the message. *)
Definition env_failing : WorkerEnv :=
  mkWorkerEnv now now now (MailFailed (ErrorObj "Message failed: 550 Mailbox unavailable")).

End OnTheHour.

(** The store is well formed: every user row sits under its own identifier,
    every job belongs to a stored user, and the identifiers the store will
    generate are not in use for jobs or recipients. *)
Definition store_ok (w : World) : Prop :=
  (∀ k u, users w !! k = Some u → user_id u = k)
  ∧ (∀ k j, jobs w !! k = Some j → is_Some (users w !! job_userId j))
  ∧ fresh_ids w.

(** Since the store had the writes [ws0], no job was updated. *)
Definition no_job_update_since (ws0 : list DbWrite) (w : World) : Prop :=
  ∃ ws, writes w = (ws0 ++ ws)%list ∧ ∀ id j, JobUpdated id j ∉ ws.

(** A computation keeps the property [I] of the store, whatever it returns
    or throws. *)
Definition keeps (I : World → Prop) {A} (m : M A) : Prop :=
  ∀ w, I w → I (snd (m w)).

(** * More of the code

    ** The gateway's normalisation ([app/api/emails/scheduled/route.ts])

    [userEmail.toLowerCase().trim()], which the gateway applies to the
    requested and to the authenticated address before it compares them. *)
Definition gateway_normalize (email : string) : string := Text.trim (Text.toLowerCase email).

(** A list of characters that does not start with white space. *)
Definition starts_plain (l : list ascii) : Prop :=
  match l with
  | c :: _ => Text.is_space c = false
  | [] => True
  end.

(** A non-empty text without white space and without [@]: what [[^\s@]+]
    matches. *)
Definition plain_text (s : string) : Prop := s ≠ "" ∧ Text.all_plain s = true.

(** ** The domain filter ([lib/security.ts]) *)

(** [s.split('@')] *)
Fixpoint split_at (s : string) : list string :=
  match s with
  | EmptyString => [EmptyString]
  | String c s' =>
      if Text.is_at c then EmptyString :: split_at s'
      else match split_at s' with
           | seg :: rest => String c seg :: rest
           | [] => [String c EmptyString]
           end
  end.

(** The [TypeError] of [undefined.toLowerCase()]. *)
Definition undefined_toLowerCase : Thrown :=
  ErrorObj "Cannot read properties of undefined (reading 'toLowerCase')".

(** [isAllowedDomain]; [None] is an omitted [allowedDomains]. *)
Definition isAllowedDomain (email : string) (allowedDomains : option (list string))
    : Outcome bool :=
  match allowedDomains with
  | None | Some [] => Ok true
  | Some domains =>
      match split_at email !! 1%nat with
      | None => Throw undefined_toLowerCase
      | Some segment => Ok (bool_decide (Text.toLowerCase segment ∈ domains))
      end
  end.

(** ** Notions used to state the properties of the rate limiter and of the
    worker *)

(** A text without [:]. *)
Definition colon_free (s : string) : Prop :=
  Forall (λ c, c ≠ ":"%char) (String.list_ascii_of_string s).

(** What a run of the worker may do to a recipient row: the identifier, the
    address and the job stay, [retryCount] does not go down. *)
Definition row_step (r0 r : EmailRecipient) : Prop :=
  rcp_id r = rcp_id r0 ∧ rcp_email r = rcp_email r0 ∧ emailJobId r = emailJobId r0
  ∧ retryCount r0 ≤ retryCount r.

(** What a run of the worker may do to a job: nothing, or set its status to
    [completed]. *)
Definition job_step (j0 j : EmailJob) : Prop :=
  j = j0
  ∨ j = mkEmailJob (job_id j0) (job_subject j0) (job_body j0) (scheduledFor j0)
          (delaySeconds j0) (hourlyLimit j0) job_completed (job_userId j0).

(** What a run of the worker on the task [data] may have done to the store
    [w0]: the users, the queue and the identifier counter are as they were,
    so is every recipient row but the task's and every job but the task's,
    no row is created or deleted, and the task's row and job have only
    moved by [row_step] and [job_step]. *)
Definition worker_frame (data : SendEmailJobData) (w0 w : World) : Prop :=
  users w = users w0 ∧ queue w = queue w0 ∧ nextId w = nextId w0
  ∧ (∀ id, id ≠ t_recipientId data → recipients w !! id = recipients w0 !! id)
  ∧ (∀ k, k ≠ t_jobId data → jobs w !! k = jobs w0 !! k)
  ∧ option_Forall2 row_step (recipients w0 !! t_recipientId data)
      (recipients w !! t_recipientId data)
  ∧ option_Forall2 job_step (jobs w0 !! t_jobId data) (jobs w !! t_jobId data).

(** ** The ownership checks ([lib/security.ts]) *)

(** [db.emailJob.findUnique({ where: { id }, select: { userId: true } })] *)
Definition db_emailJob_findUnique (id : string) : M (option EmailJob) :=
  λ w, (Ok (jobs w !! id), w).

(** [db.emailRecipient.findUnique({ where: { id }, include: { emailJob:
    { select: { userId: true } } } })]: the row with its job, if the job is
    there. *)
Definition db_emailRecipient_findUnique (id : string)
    : M (option (EmailRecipient * option EmailJob)) :=
  λ w, (Ok ((λ r, (r, jobs w !! emailJobId r)) <$> recipients w !! id), w).

(** [verifyUserOwnsJob] *)
Definition verifyUserOwnsJob (userId jobId : string) : M bool :=
  try_catch
    (job ← db_emailJob_findUnique jobId;
     match job with
     | None => mret false
     | Some j => mret (bool_decide (job_userId j = userId))
     end)
    (λ _, mret false).

(** [verifyUserOwnsRecipient] *)
Definition verifyUserOwnsRecipient (userId recipientId : string) : M bool :=
  try_catch
    (recipient ← db_emailRecipient_findUnique recipientId;
     match recipient with
     | None | Some (_, None) => mret false
     | Some (_, Some j) => mret (bool_decide (job_userId j = userId))
     end)
    (λ _, mret false).

(** [verifyUserAccess] *)
Definition verifyUserAccess (requestedUserEmail sessionUserId : string) : M bool :=
  try_catch
    (user ← getUserByEmail requestedUserEmail;
     match user with
     | None => mret false
     | Some u => mret (bool_decide (user_id u = sessionUserId))
     end)
    (λ _, mret false).

(** ** Notions used to state the properties of the listings *)

(** No two user rows have the same address (the unique constraint on
    [email]). *)
Definition emails_unique (w : World) : Prop :=
  ∀ k1 k2 u1 u2, users w !! k1 = Some u1 → users w !! k2 = Some u2 →
    user_email u1 = user_email u2 → k1 = k2.

(** The recipient rows, each with its job, that the [where] clause of a
    listing selects for a user, before they are ordered and cut to 100. *)
Definition matching_rows (statuses : list RecipientStatus) (userId : string) (w : World)
    : list (EmailRecipient * EmailJob) :=
  filter (λ p : EmailRecipient * EmailJob,
            rcp_status p.1 ∈ statuses ∧ job_userId p.2 = userId)
    (omap (λ r, j ← jobs w !! emailJobId r; Some (r, j)) (all_recipients w)).

(** How a listing shows a scheduled row and a sent row. *)
Definition scheduled_row (toISOString : Z → string) (r : EmailRecipient * EmailJob)
    : string * string * string * string * string * RecipientStatus :=
  (rcp_id r.1, rcp_email r.1, job_subject r.2, job_body r.2,
   toISOString (default (scheduledFor r.2) (scheduledAt r.1)), rcp_status r.1).

Definition sent_row (toISOString : Z → string) (r : EmailRecipient * EmailJob)
    : string * string * string * string * option string * RecipientStatus * option string :=
  (rcp_id r.1, rcp_email r.1, job_subject r.2, job_body r.2,
   toISOString <$> sentAt r.1, rcp_status r.1, errorMessage r.1).

(** ** Scenarios for the properties of more of the code *)

Module Scenes.

(** The first task of [OnTheHour], with room for five messages an hour. *)
Definition retry_task : SendEmailJobData :=
  mkTask "r1" "a@x.com" "Hello" "<p>Hello</p>" "j1" "u1" 5.

(** The second attempt, a minute later; the transport delivers. *)
Definition env_retry : WorkerEnv :=
  mkWorkerEnv (OnTheHour.now + 60000) (OnTheHour.now + 60000) (OnTheHour.now + 61000)
    (Delivered "<m2@x.com>").

(** The request of [Sample] as the backend sees it when the session has
    no address. *)
Definition body_no_address : ScheduleBody :=
  mkBody (JString "Hello") (JString "<p>Hello</p>")
    (JArray [JString "a@x.com"; JString "b@x.com"; JString "c@x.com"])
    (JString Sample.iso) (JNumber 5) (JNumber 1000) (JString "u1") JUndefined.

Definition data_no_address : ScheduleData :=
  mkData "Hello" "<p>Hello</p>" ["a@x.com"; "b@x.com"; "c@x.com"] Sample.iso 5 1000 "u1"
    None.

(** A store in which the address [me@x.com] belongs to user [u0]. *)
Definition holder : User := mkUser "u0" "me@x.com" (Some "me").

Definition world_with_holder : World := mkWorld {[ "u0" := holder ]} ∅ ∅ ∅ [] 0 [].

(** A store in which user [u1] has the address [me@x.com]. *)
Definition world_with_owner : World :=
  mkWorld {[ "u1" := mkUser "u1" "me@x.com" (Some "me") ]} ∅ ∅ ∅ [] 0 [].


End Scenes.

(** ** The gateway ([app/api/emails/scheduled/route.ts],
       [app/api/emails/schedule/route.ts])

    The gateway's two routes stand between the browser and the service.
    The session's user ([session.user]) has an [id] and an [email], each
    any JSON value or absent; [None] is a missing session or a session
    without a user. *)
Record SessionUser := mkSessionUser {
  su_id : JSValue;
  su_email : JSValue
}.

(** JavaScript's truthiness, as [!x] and [x || y] see it. *)
Definition truthy (v : JSValue) : bool :=
  match v with
  | JUndefined | JNull => false
  | JBool b => b
  | JNumber n => negb (n =? 0)
  | JString s => negb (bool_decide (s = ""))
  | JArray _ => true
  end.

(** What [fetch] to the service does: it fails before the request gets
    there, it fails (or is aborted after five seconds) once the service has
    handled the request, or it brings back the service's response. *)
Inductive Link := Unreachable | Lost | Connected.

(** The gateway's answers: an [{ error }] of its own, an [{ error }] that
    wraps the text of a response of the service that is not OK, or the
    service's JSON passed on. *)
Inductive GatewayBody :=
| GwError (error : string)
| GwBackendError (text : ResponseBody)
| GwData (data : ResponseBody).

Record GatewayResponse := mkGateway {
  gw_status : Z;
  gw_body : GatewayBody
}.

(** [response.ok] *)
Definition response_ok (r : Response) : bool :=
  (200 <=? res_status r) && (res_status r <=? 299).

(** [fetch(url, ...)] of a handler of the service: the error it rejects
    with, or the response. *)
Definition fetch_failed : Thrown := ErrorObj "fetch failed".

Definition fetch (link : Link) (handler : M Response) : M Response :=
  match link with
  | Unreachable => throw fetch_failed
  | Lost => _ ← handler; throw fetch_failed
  | Connected => handler
  end.

(** What the gateway does with the service's response. *)
Definition relay (response : Response) : M GatewayResponse :=
  if negb (response_ok response) then
    mret (mkGateway (res_status response) (GwBackendError (res_body response)))
  else mret (mkGateway 200 (GwData (res_body response))).

(** [x.toLowerCase()] on a value that need not be a string. *)
Definition not_a_function : Thrown :=
  ErrorObj "session.user.email.toLowerCase is not a function".

Section Gateway.

Variable zod_email : string → bool.
Variable zod_datetime : string → bool.
Variable Date_parse : string → option Z.
Variable toISOString : Z → string.
Variable orderBy : (EmailRecipient → option Z) → bool
                   → list (EmailRecipient * EmailJob) → list (EmailRecipient * EmailJob).

(** [GET] of [app/api/emails/scheduled/route.ts]; [userEmail] is
    [searchParams.get("userEmail")]. *)
Definition gateway_GET (session : option SessionUser) (userEmail : option string)
    (link : Link) : M GatewayResponse :=
  try_catch
    (let email := default JUndefined (su_email <$> session) in
     if negb (truthy email) then mret (mkGateway 401 (GwError "Unauthorized"))
     else
       match userEmail with
       | None | Some "" =>
           mret (mkGateway 400 (GwError "userEmail parameter is required"))
       | Some userEmail =>
           let sanitizedRequestEmail := gateway_normalize userEmail in
           authenticatedUserEmail ←
             match email with
             | JString e => mret (gateway_normalize e)
             | _ => throw not_a_function
             end;
           if negb (bool_decide (sanitizedRequestEmail = authenticatedUserEmail)) then
             mret (mkGateway 403
                     (GwError "Forbidden: You can only access your own email data"))
           else
             fetched ←
               try_catch
                 (response ← fetch link
                               (get_scheduled toISOString orderBy
                                  (JString sanitizedRequestEmail));
                  mret (inr response))
                 (λ _, mret (inl (mkGateway 503
                                    (GwError ("Backend scheduler is unreachable. Please "
                                              +:+ "start the email-scheduler service on "
                                              +:+ "port 3001.")))));
             match fetched with
             | inl early => mret early
             | inr response => relay response
             end
       end)
    (λ _, mret (mkGateway 500 (GwError "Unexpected error fetching scheduled emails"))).

(** [{ ...body, userId, userEmail: session.user?.email }] *)
Definition requestBody (body : ScheduleBody) (user : SessionUser) : ScheduleBody :=
  mkBody (b_subject body) (b_body body) (b_recipients body) (b_startTime body)
    (b_delaySeconds body) (b_hourlyLimit body) (su_id user) (su_email user).

(** [POST] of [app/api/emails/schedule/route.ts]; [body] is
    [await req.json()], [None] when that throws or gives [null] (on which
    [body.recipients] throws). *)
Definition gateway_POST (env : SubmitEnv) (session : option SessionUser)
    (body : option ScheduleBody) (link : Link) : M GatewayResponse :=
  try_catch
    (match session with
     | None => mret (mkGateway 401 (GwError "Unauthorized"))
     | Some user =>
         if negb (truthy (su_id user)) then mret (mkGateway 401 (GwError "Unauthorized"))
         else
           match body with
           | None => throw (ErrorObj "Unexpected end of JSON input")
           | Some body =>
               let userId := su_id user in
               if negb (truthy userId) then
                 mret (mkGateway 500 (GwError "Session error: Missing user ID"))
               else
                 response ← fetch link
                              (post_schedule zod_email zod_datetime Date_parse toISOString
                                 env (requestBody body user));
                 relay response
           end
     end)
    (λ _, mret (mkGateway 500 (GwError "Failed to schedule email"))).

End Gateway.

(** ** Scenarios for the gateway *)

Module GatewayScenes.

(** User [u1] is signed in, with the address as it was typed. *)
Definition session_u1 : SessionUser := mkSessionUser (JString "u1") (JString "Me@X.com ").

(** The same user with the address as it is stored. *)
Definition session_plain : SessionUser := mkSessionUser (JString "u1") (JString "me@x.com").

(** The request of [Sample] with an identity of the client's choosing. *)
Definition body_forged : ScheduleBody :=
  mkBody (JString "Hello") (JString "<p>Hello</p>")
    (JArray [JString "a@x.com"; JString "b@x.com"; JString "c@x.com"])
    (JString Sample.iso) (JNumber 5) (JNumber 1000) (JString "u0") (JString "other@x.com").

End GatewayScenes.

(** ** The request of a user who has just signed in for the first time *)

Module FirstSignIn.

(** The first identifier the store generates. *)
Definition uid : string := Eval vm_compute in gen_id 0.

Definition body : ScheduleBody :=
  mkBody (JString "Hello") (JString "<p>Hello</p>")
    (JArray [JString "a@x.com"; JString "b@x.com"; JString "c@x.com"])
    (JString Sample.iso) (JNumber 5) (JNumber 1000) (JString uid) (JString "Me@X.com").

Definition data : ScheduleData :=
  mkData "Hello" "<p>Hello</p>" ["a@x.com"; "b@x.com"; "c@x.com"] Sample.iso 5 1000 uid
    (Some "Me@X.com").

End FirstSignIn.

(** ** The request of [Sample] with the address typed with capitals *)

Module Capitals.

Definition body : ScheduleBody :=
  mkBody (JString "Hello") (JString "<p>Hello</p>")
    (JArray [JString "a@x.com"; JString "b@x.com"; JString "c@x.com"])
    (JString Sample.iso) (JNumber 5) (JNumber 1000) (JString "u1") (JString "Me@X.com").

Definition data : ScheduleData :=
  mkData "Hello" "<p>Hello</p>" ["a@x.com"; "b@x.com"; "c@x.com"] Sample.iso 5 1000 "u1"
    (Some "Me@X.com").

End Capitals.

(** Every counter of the rate limiter counts at least one call and carries
    an expiry. *)
Definition counters_expire (w : World) : Prop :=
  ∀ key e, redis w !! key = Some e → 1 ≤ e.1 ∧ is_Some e.2.

(** * Properties *)

Ltac unfold_monad :=
  unfold mbind, M_bind, mret, M_ret, throw, try_catch in *.

Lemma hour_floor_bounds (t : Z) :
  hour_floor t * HOUR_MS ≤ t < (hour_floor t + 1) * HOUR_MS.
Proof.
  unfold hour_floor, HOUR_MS.
  pose proof (Z.div_mod t (1000 * 60 * 60) ltac:(lia)).
  pose proof (Z.mod_pos_bound t (1000 * 60 * 60) ltac:(lia)). lia.
Qed.

Section RateLimiter.

Variables (userId : string) (hourlyLimit : Z).

Lemma checkRateLimit_step (h c now : Z) (w : World) :
  hour_floor now = h →
  bucket_after userId h c w →
  ∃ w', checkRateLimit now userId hourlyLimit w
          = (Ok (bool_decide (c + 1 ≤ hourlyLimit)), w')
        ∧ bucket_after userId h (c + 1) w'.
Proof.
  intros Hh Hb. pose proof (hour_floor_bounds now) as Hnow. rewrite Hh in Hnow.
  unfold checkRateLimit, bucket_after in *. rewrite Hh. unfold_monad.
  unfold redis_incr, redis_expire, redis_get, redis_live. simpl.
  destruct (redis w !! rate_limit_key userId h) as [[v [e|]]|] eqn:E; simpl.
  - destruct Hb as (Hc & -> & He).
    destruct (Z.ltb_spec now e); [|lia]. simpl.
    rewrite bool_decide_false by lia. simpl.
    eexists; split; [reflexivity|]. simpl. rewrite lookup_insert_eq. lia.
  - done.
  - subst c. simpl. rewrite lookup_insert_eq. simpl.
    destruct (Z.ltb_spec now (now + 3600 * 1000)); simpl; [|lia].
    eexists; split; [reflexivity|]. simpl.
    rewrite insert_insert_eq, lookup_insert_eq. unfold HOUR_MS in *. lia.
Qed.

Lemma check_sequence_from (h : Z) (times : list Z) :
  Forall (λ t, hour_floor t = h) times →
  ∀ c w, bucket_after userId h c w →
  ∃ w', check_sequence userId hourlyLimit times w
          = (Ok ((λ k : nat, bool_decide (c + Z.of_nat (S k) ≤ hourlyLimit)) <$> seq 0 (length times)), w')
        ∧ bucket_after userId h (c + Z.of_nat (length times)) w'.
Proof.
  induction 1 as [|now times Hnow _ IH]; intros c w Hb.
  - simpl. eexists; split; [reflexivity|]. by rewrite Z.add_0_r.
  - destruct (checkRateLimit_step h c now w Hnow Hb) as (w1 & E1 & Hb1).
    destruct (IH _ _ Hb1) as (w2 & E2 & Hb2).
    exists w2. split.
    + simpl. unfold_monad. rewrite E1, E2. do 2 f_equal.
      f_equal.
      change (list_fmap nat bool) with (@fmap list _ nat bool).
      rewrite <- fmap_S_seq, <- list_fmap_compose. apply list_fmap_ext.
      intros _ k _. simpl. apply bool_decide_ext. lia.
    + replace (c + Z.of_nat (length (now :: times))) with (c + 1 + Z.of_nat (length times)); [done|].
      simpl length. lia.
Qed.

End RateLimiter.

(** C3.  Every call of the rate limiter increments the counter of the
    user's current hour bucket and returns [true] exactly when the count
    after the increment is at most [hourlyLimit]; and when calls for one
    user follow each other in one hour bucket that had no counter yet, the
    call number [k] (from 1) is admitted exactly when [k <= hourlyLimit]:
    the first [hourlyLimit] calls pass and call [hourlyLimit + 1] is the
    first one refused. *)
Theorem C3_rate_limiter_admits_up_to_limit :
  (∀ (now : Z) (userId : string) (hourlyLimit : Z) (w : World),
     let key := rate_limit_key userId (hour_floor now) in
     ∃ w', checkRateLimit now userId hourlyLimit w
             = (Ok (bool_decide (count_at now key w + 1 ≤ hourlyLimit)), w')
           ∧ count_at now key w' = count_at now key w + 1)
  ∧
  (∀ (userId : string) (hourlyLimit h : Z) (times : list Z) (w : World),
     Forall (λ t, hour_floor t = h) times →
     redis w !! rate_limit_key userId h = None →
     ∃ w', check_sequence userId hourlyLimit times w
             = (Ok ((λ k : nat, bool_decide (Z.of_nat (S k) ≤ hourlyLimit))
                      <$> seq 0 (length times)), w')
           ∧ count_at (h * HOUR_MS) (rate_limit_key userId h) w'
             = Z.of_nat (length times)).
Proof.
  split.
  - intros now userId hourlyLimit w key.
    unfold checkRateLimit. fold key. unfold_monad.
    unfold count_at, redis_incr, redis_expire, redis_get. simpl.
    destruct (redis w !! key) as [[v e]|] eqn:E; simpl.
    + destruct (redis_live now (v, e)) eqn:L; simpl.
      * case_bool_decide; simpl; rewrite ?lookup_insert_eq; simpl.
        -- change (redis_live now (v + 1, e)) with (redis_live now (v, e)).
           rewrite L. simpl.
           eexists; split; [reflexivity|]. simpl. rewrite lookup_insert_eq. simpl.
           unfold redis_live. simpl.
           destruct (Z.ltb_spec now (now + 3600 * 1000)); [done|lia].
        -- eexists; split; [reflexivity|]. simpl. rewrite lookup_insert_eq.
           change (redis_live now (v + 1, e)) with (redis_live now (v, e)).
           by rewrite L.
      * rewrite lookup_insert_eq. simpl.
        eexists; split; [reflexivity|]. simpl.
        rewrite insert_insert_eq, lookup_insert_eq. unfold redis_live. simpl.
        destruct (Z.ltb_spec now (now + 3600 * 1000)); [done|lia].
    + rewrite lookup_insert_eq. simpl.
      eexists; split; [reflexivity|]. simpl.
      rewrite insert_insert_eq, lookup_insert_eq. unfold redis_live. simpl.
      destruct (Z.ltb_spec now (now + 3600 * 1000)); [done|lia].
  - intros userId hourlyLimit h times w Hh Hnone.
    destruct (check_sequence_from userId hourlyLimit h times Hh 0 w) as (w' & E & Hb).
    { unfold bucket_after. by rewrite Hnone. }
    exists w'. split.
    + rewrite E. do 2 f_equal.
    + unfold bucket_after in Hb. unfold count_at, redis_get.
      destruct (redis w' !! rate_limit_key userId h) as [[v [e|]]|]; simpl in *.
      * destruct Hb as (_ & -> & He). unfold redis_live. simpl.
        destruct (Z.ltb_spec (h * HOUR_MS) e); [done|]. unfold HOUR_MS in *. lia.
      * done.
      * lia.
Qed.

(** ** The worker *)

Lemma checkRateLimit_frame (now : Z) (userId : string) (hourlyLimit : Z) (w : World) :
  ∃ b r, checkRateLimit now userId hourlyLimit w = (Ok b, set_redis (λ _, r) w).
Proof.
  unfold checkRateLimit. unfold_monad. unfold redis_incr, redis_expire. simpl.
  case_bool_decide; simpl.
  - destruct (redis_get now _ (set_redis _ w)); simpl; eexists _, _; reflexivity.
  - eexists _, _; reflexivity.
Qed.

Lemma new_writes_app (w w' : World) (ws : list DbWrite) :
  writes w' = (writes w ++ ws)%list → new_writes w w' = ws.
Proof. intros E. unfold new_writes. rewrite E. by rewrite drop_app_length. Qed.

(** What [send_and_mark] does, by the answer of the rate limiter, the answer
    of the mail transport and the presence of the recipient's row. *)
Lemma send_and_mark_cases (env : WorkerEnv) (data : SendEmailJobData) (w w1 : World) (b : bool) :
  checkRateLimit (now_check env) (t_userId data) (t_hourlyLimit data) w = (Ok b, w1) →
  let id := t_recipientId data in
  send_and_mark env data w =
    if negb b then
      match recipients w1 !! id with
      | None => (Throw P2025, w1)
      | Some r =>
          let r' := data_schedule scheduled (hour_ceil (now_defer env) * HOUR_MS) r in
          (Throw (ErrorObj rateLimitMessage),
           log_write (RecipientUpdated id r') (set_recipients (insert id r') w1))
      end
    else
      match mail env with
      | MailFailed e => (Throw e, w1)
      | Delivered messageId =>
          match recipients w1 !! id with
          | None => (Throw P2025, w1)
          | Some r =>
              let r' := data_sent (now_sent env) r in
              (Ok messageId,
               log_write (RecipientUpdated id r') (set_recipients (insert id r') w1))
          end
      end.
Proof.
  intros E id. unfold send_and_mark. unfold_monad. rewrite E.
  destruct b; simpl.
  - destruct (mail env); [|done].
    unfold db_emailRecipient_update. fold id.
    by destruct (recipients w1 !! id).
  - unfold db_emailRecipient_update. fold id.
    by destruct (recipients w1 !! id).
Qed.

(** The rate-limit branch, in full. *)
Lemma worker_rate_limited (env : WorkerEnv) (data : SendEmailJobData) (w w1 : World)
    (r : EmailRecipient) :
  checkRateLimit (now_check env) (t_userId data) (t_hourlyLimit data) w = (Ok false, w1) →
  recipients w !! t_recipientId data = Some r →
  let id := t_recipientId data in
  let r' := data_schedule scheduled (hour_ceil (now_defer env) * HOUR_MS) r in
  worker env data w =
    (Throw (ErrorObj rateLimitMessage),
     log_write (RecipientUpdated id r') (set_recipients (insert id r') w1)).
Proof.
  intros E Hr id r'.
  destruct (checkRateLimit_frame (now_check env) (t_userId data) (t_hourlyLimit data) w)
    as (b & r0 & E'). rewrite E in E'. injection E' as <- ->.
  unfold worker, worker_body. unfold_monad.
  rewrite (send_and_mark_cases env data w _ false E). subst id r'. simpl.
  rewrite Hr. reflexivity.
Qed.

(** The failure branch for a failure of the mail transport, in full. *)
Lemma worker_mail_failed (env : WorkerEnv) (data : SendEmailJobData) (w w1 : World)
    (r : EmailRecipient) (e : Thrown) :
  checkRateLimit (now_check env) (t_userId data) (t_hourlyLimit data) w = (Ok true, w1) →
  mail env = MailFailed e →
  is_rate_limit_signal e = false →
  recipients w !! t_recipientId data = Some r →
  let id := t_recipientId data in
  let r' := data_failed (message_or_unknown e) r in
  worker env data w =
    (Throw e, log_write (RecipientUpdated id r') (set_recipients (insert id r') w1)).
Proof.
  intros E Hm Hs Hr id r'.
  destruct (checkRateLimit_frame (now_check env) (t_userId data) (t_hourlyLimit data) w)
    as (b & r0 & E'). rewrite E in E'. injection E' as <- ->.
  unfold worker, worker_body. unfold_monad.
  rewrite (send_and_mark_cases env data w _ true E). simpl. rewrite Hm.
  unfold worker_catch. rewrite Hs. unfold_monad. subst id r'.
  unfold db_emailRecipient_update. simpl. rewrite Hr. reflexivity.
Qed.

(** [Math.ceil(t / H) * H] is [t] itself when [t] is a whole number of hours
    and the start of the next hour otherwise. *)
Lemma hour_ceil_cases (t : Z) :
  hour_ceil t * HOUR_MS = if bool_decide (t mod HOUR_MS = 0) then t else next_hour_start t.
Proof.
  unfold hour_ceil, next_hour_start, hour_floor, HOUR_MS.
  pose proof (Z.div_mod t (1000 * 60 * 60) ltac:(lia)) as Ht.
  pose proof (Z.mod_pos_bound t (1000 * 60 * 60) ltac:(lia)) as Hb.
  pose proof (Z.div_mod (- t) (1000 * 60 * 60) ltac:(lia)) as Ht'.
  pose proof (Z.mod_pos_bound (- t) (1000 * 60 * 60) ltac:(lia)) as Hb'.
  case_bool_decide; nia.
Qed.

(** C5.  When the rate limiter admits the send and the mail transport fails
    with an error that is not the rate-limit signal, the worker leaves the
    recipient [failed], with the error's message as [errorMessage] and
    [retryCount] one higher than before, and throws that same error to the
    queue. *)
Theorem C5_send_failure_marks_failed (env : WorkerEnv) (data : SendEmailJobData)
    (w w1 : World) (r : EmailRecipient) (e : Thrown) :
  checkRateLimit (now_check env) (t_userId data) (t_hourlyLimit data) w = (Ok true, w1) →
  mail env = MailFailed e →
  is_rate_limit_signal e = false →
  recipients w !! t_recipientId data = Some r →
  ∃ w' r',
    worker env data w = (Throw e, w')
    ∧ recipients w' !! t_recipientId data = Some r'
    ∧ rcp_status r' = failed
    ∧ errorMessage r' = Some (message_or_unknown e)
    ∧ (∀ m, e = ErrorObj m → errorMessage r' = Some m)
    ∧ retryCount r' = retryCount r + 1
    ∧ new_writes w w' = [RecipientUpdated (t_recipientId data) r'].
Proof.
  intros E Hm Hs Hr.
  rewrite (worker_mail_failed env data w w1 r e E Hm Hs Hr).
  destruct (checkRateLimit_frame (now_check env) (t_userId data) (t_hourlyLimit data) w)
    as (b & r0 & E'). rewrite E in E'. injection E' as <- ->.
  eexists _, _. split; [reflexivity|]. simpl.
  rewrite lookup_insert_eq. repeat split; try done.
  - by intros m ->.
  - by apply new_writes_app.
Qed.

Lemma completion_check_cases (data : SendEmailJobData) (w : World) :
  let jobId := t_jobId data in
  completion_check data w =
    if forallb (λ r, bool_decide (rcp_status r = sent)) (recipients_of jobId w) then
      match jobs w !! jobId with
      | None => (Throw P2025, w)
      | Some j =>
          let j' := mkEmailJob (job_id j) (job_subject j) (job_body j) (scheduledFor j)
                      (delaySeconds j) (hourlyLimit j) job_completed (job_userId j) in
          (Ok tt, log_write (JobUpdated jobId j') (set_jobs (insert jobId j') w))
      end
    else (Ok tt, w).
Proof.
  intros jobId. unfold completion_check. unfold_monad.
  unfold db_emailRecipient_findMany_job, recipients_of. simpl. fold jobId.
  destruct (forallb _ _); [|done].
  unfold db_emailJob_update. by destruct (jobs w !! jobId).
Qed.

Lemma forallb_sent (l : list EmailRecipient) :
  forallb (λ r, bool_decide (rcp_status r = sent)) l = true
  ↔ Forall (λ r, rcp_status r = sent) l.
Proof.
  rewrite forallb_forall, Forall_forall. split; intros H x Hx.
  - apply list_elem_of_In in Hx. specialize (H x Hx). by apply bool_decide_eq_true in H.
  - apply list_elem_of_In in Hx. apply bool_decide_eq_true. by apply H.
Qed.

Lemma not_completed_nil (jobId : string) : ¬ completed_written jobId [].
Proof. intros (j & Hin & _). by apply elem_of_nil in Hin. Qed.

Lemma not_completed_recipient (jobId id : string) (r : EmailRecipient) :
  ¬ completed_written jobId [RecipientUpdated id r].
Proof. intros (j & Hin & _). apply list_elem_of_singleton in Hin. discriminate. Qed.

Lemma new_writes_same (w w' : World) : writes w' = writes w → new_writes w w' = [].
Proof. intros E. apply new_writes_app. by rewrite app_nil_r. Qed.

(** C2.  In a run of the worker on a task whose job exists, the job's status
    is written [completed] if and only if the run reaches the completion
    check (the recipient was marked [sent]) and every recipient of the job
    has status [sent] in the store at that point; so whenever [completed] is
    written, no recipient of the job is [pending], [scheduled] or
    [failed]. *)
Theorem C2_completed_iff_all_sent (env : WorkerEnv) (data : SendEmailJobData)
    (w w' : World) (res : Outcome string) :
  worker env data w = (res, w') →
  is_Some (jobs w !! t_jobId data) →
  (completed_written (t_jobId data) (new_writes w w')
   ↔ ∃ info wc, send_and_mark env data w = (Ok info, wc)
                ∧ Forall (λ r, rcp_status r = sent) (recipients_of (t_jobId data) wc))
  ∧ (completed_written (t_jobId data) (new_writes w w')
     → Forall (λ r, rcp_status r = sent) (recipients_of (t_jobId data) w')
       ∧ ∀ r, r ∈ recipients_of (t_jobId data) w'
              → rcp_status r ≠ pending ∧ rcp_status r ≠ scheduled ∧ rcp_status r ≠ failed).
Proof.
  intros Hrun [j Hj].
  destruct (checkRateLimit_frame (now_check env) (t_userId data) (t_hourlyLimit data) w)
    as (b & r0 & E).
  pose proof (send_and_mark_cases env data w _ b E) as Hsm. simpl in Hsm.
  unfold worker, worker_body in Hrun. unfold_monad.
  assert (Hfail : ∀ e w1, writes w1 = writes w →
            ∀ res1 w2, worker_catch data e w1 = (res1, w2) →
            ¬ completed_written (t_jobId data) (new_writes w w2)).
  { intros e w1 Hw res1 w2 Hc. unfold worker_catch in Hc.
    destruct (is_rate_limit_signal e).
    - unfold throw in Hc. injection Hc as _ <-.
      rewrite (new_writes_same w w1 Hw). apply not_completed_nil.
    - unfold_monad. unfold db_emailRecipient_update in Hc.
      destruct (recipients w1 !! t_recipientId data); injection Hc as _ <-.
      + erewrite new_writes_app; [apply not_completed_recipient|].
        simpl. by rewrite Hw.
      + rewrite (new_writes_same w w1 Hw). apply not_completed_nil. }
  destruct b; simpl in Hsm.
  - destruct (mail env) as [messageId|e].
    + destruct (recipients w !! t_recipientId data) as [r|] eqn:Hr.
      * rewrite Hsm in Hrun |- *.
        set (wc := log_write _ _) in *.
        rewrite (completion_check_cases data wc) in Hrun. simpl in Hrun.
        destruct (forallb _ (recipients_of (t_jobId data) wc)) eqn:Hall.
        -- change (jobs wc) with (jobs w) in Hrun. rewrite Hj in Hrun.
           injection Hrun as _ <-.
           apply forallb_sent in Hall.
           erewrite new_writes_app; [|simpl; by rewrite <- app_assoc].
           assert (Hcw : completed_written (t_jobId data)
                     [RecipientUpdated (t_recipientId data) (data_sent (now_sent env) r);
                      JobUpdated (t_jobId data)
                        (mkEmailJob (job_id j) (job_subject j) (job_body j)
                           (scheduledFor j) (delaySeconds j) (hourlyLimit j)
                           job_completed (job_userId j))]).
           { eexists. split; [do 2 constructor|reflexivity]. }
           split; [split; [eauto|done]|].
           intros _. split; [exact Hall|].
           intros r1 Hr1. rewrite Forall_forall in Hall.
           rewrite (Hall r1 Hr1). done.
        -- injection Hrun as _ <-.
           erewrite new_writes_app; [|reflexivity].
           split; [split|]; [by intros ?%not_completed_recipient| |
                             by intros ?%not_completed_recipient].
           intros (info & wc' & Heq & Hall'). injection Heq as _ <-.
           apply forallb_sent in Hall'. congruence.
      * rewrite Hsm in Hrun |- *.
        split; [split|]; [|by intros (? & ? & ? & _)|];
          intros Hc; exfalso; (eapply Hfail; [|exact Hrun|exact Hc]; done).
    + rewrite Hsm in Hrun |- *.
      split; [split|]; [|by intros (? & ? & ? & _)|];
        intros Hc; exfalso; (eapply Hfail; [|exact Hrun|exact Hc]; done).
  - destruct (recipients w !! t_recipientId data) as [r|] eqn:Hr;
      rewrite Hsm in Hrun |- *.
    + change (worker_catch data (ErrorObj rateLimitMessage)) with
        (@throw string (ErrorObj rateLimitMessage)) in Hrun.
      unfold throw in Hrun. injection Hrun as _ <-.
      erewrite new_writes_app; [|reflexivity].
      split; [split|]; [by intros ?%not_completed_recipient|by intros (? & ? & ? & _)|
                        by intros ?%not_completed_recipient].
    + split; [split|]; [|by intros (? & ? & ? & _)|];
        intros Hc; exfalso; (eapply Hfail; [|exact Hrun|exact Hc]; done).
Qed.

(** ** The store's rows *)

Global Instance gen_id_inj : Inj (=) (=) gen_id.
Proof.
  intros n m H. unfold gen_id in H.
  apply (String.app_inj "c") in H. by apply (inj pretty) in H.
Qed.

Lemma gen_id_not_sentinel (n : nat) : gen_id n ≠ sentinel.
Proof. unfold gen_id, sentinel. simpl. discriminate. Qed.

Lemma insert_recipients_notin (rs : list EmailRecipient)
    (m : gmap string EmailRecipient) (id : string) :
  id ∉ rcp_id <$> rs → insert_recipients rs m !! id = m !! id.
Proof.
  induction rs as [|r rs IH]; simpl; [done|].
  rewrite not_elem_of_cons. intros [Hne Hnin].
  rewrite lookup_insert_ne by done. by apply IH.
Qed.

Lemma insert_recipients_in (rs : list EmailRecipient)
    (m : gmap string EmailRecipient) (r : EmailRecipient) :
  NoDup (rcp_id <$> rs) → r ∈ rs → insert_recipients rs m !! rcp_id r = Some r.
Proof.
  induction rs as [|r0 rs IH]; simpl; [by intros _ ?%elem_of_nil|].
  rewrite NoDup_cons, elem_of_cons. intros [Hnin Hnd] [->|Hin].
  - by rewrite lookup_insert_eq.
  - rewrite lookup_insert_ne; [by apply IH|].
    intros Heq. apply Hnin. rewrite Heq. by apply list_elem_of_fmap_2.
Qed.

Lemma find_by_email_Some (us : gmap string User) (email : string) (u : User) :
  find_by_email us email = Some u → (∃ k, us !! k = Some u) ∧ user_email u = email.
Proof.
  unfold find_by_email. intros H.
  apply fmap_Some in H as ([i [k u']] & Hf & ->). simpl.
  apply list_find_Some in Hf as (Hl & Hp & _). simpl in Hp.
  split; [|done]. exists k.
  apply elem_of_map_to_list. by eapply list_elem_of_lookup_2.
Qed.

Lemma find_by_email_None (us : gmap string User) (email : string) :
  find_by_email us email = None → ∀ k u, us !! k = Some u → user_email u ≠ email.
Proof.
  unfold find_by_email. intros H k u Hk.
  apply fmap_None in H. rewrite list_find_None in H.
  rewrite Forall_forall in H. apply (H (k, u)). by apply elem_of_map_to_list.
Qed.

(** ** The submission handler *)

(** Resolving the owner never throws; it touches the user table only, where
    it adds at most the row of the submitting user under the submitted
    identifier; the user it yields is a stored one; and it yields a user
    whenever the owner is known. *)
Lemma resolve_user_spec (data : ScheduleData) (w : World) :
  ∃ o wu, resolve_user data w = (Ok o, wu)
    ∧ jobs wu = jobs w ∧ recipients wu = recipients w ∧ nextId wu = nextId w
    ∧ (∀ P : string → User → Prop,
         (∀ k u, users w !! k = Some u → P k u) →
         (∀ u, user_id u = d_userId data → P (d_userId data) u) →
         ∀ k u, users wu !! k = Some u → P k u)
    ∧ (∀ u, o = inr u → ∃ k, users wu !! k = Some u)
    ∧ (owner_known data w → ∃ u, o = inr u)
    ∧ (∀ r, o = inl r → wu = w ∧ res_status r = 400)
    ∧ (∀ k, is_Some (users w !! k) → is_Some (users wu !! k)).
Proof.
  unfold resolve_user, owner_known. unfold_monad. unfold db_user_findUnique_id.
  destruct (users w !! d_userId data) as [u|] eqn:Hu.
  - eexists _, _. split; [reflexivity|]. split_and!; try done.
    + intros u' [= <-]. eauto.
    + eauto.
  - destruct (d_userEmail data) as [[|a s]|] eqn:He.
    + eexists _, _. split; [reflexivity|]. split_and!; try done.
      * intros [[? ?]|(e & [= <-] & Hne)]; done.
      * by intros r [= <-].
    + unfold db_user_create. simpl. rewrite Hu.
      case_bool_decide as Hc.
      * eexists _, _. split; [reflexivity|]. simpl. split_and!; try done.
        -- intros P HP Hid k u'. rewrite lookup_insert. case_decide as Hk.
           ++ intros [= <-]. subst k. eauto.
           ++ eauto.
        -- intros u' [= <-]. eexists. apply lookup_insert_eq.
        -- eauto.
        -- intros k Hk. rewrite lookup_insert. by case_decide.
      * simpl. unfold db_user_findUnique_email.
        destruct (find_by_email (users w) (String a s)) as [u|] eqn:Hf.
        -- eexists _, _. split; [reflexivity|]. split_and!; try done.
           ++ intros u' [= <-]. apply find_by_email_Some in Hf as [[k Hk] _]. eauto.
           ++ eauto.
        -- exfalso. apply Hc. done.
    + eexists _, _. split; [reflexivity|]. split_and!; try done.
      * intros [[? ?]|(e & [=] & Hne)]; done.
      * by intros r [= <-].
Qed.

(** The callbacks of [Promise.all] on rows that are in the store, each under
    its own identifier. *)
Lemma promise_all_schedule (env : SubmitEnv) (data : ScheduleData) (startTime : Z)
    (emailJob : EmailJob) (user : User) (rs : list EmailRecipient) :
  ∀ (k : nat) (w : World),
    NoDup (rcp_id <$> rs) →
    (∀ r, r ∈ rs → recipients w !! rcp_id r = Some r) →
    ∃ o w', promise_all (schedule_one env data startTime emailJob user) rs k w = (o, w')
      ∧ users w' = users w ∧ jobs w' = jobs w ∧ nextId w' = nextId w
      ∧ (∀ i r, rs !! i = Some r →
           recipients w' !! rcp_id r = Some (row_after env data startTime (k + i) r))
      ∧ (∀ id, id ∉ rcp_id <$> rs → recipients w' !! id = recipients w !! id)
      ∧ (∀ x, x ∈ queue w → x ∈ queue w')
      ∧ (∀ i r, rs !! i = Some r → refusal env (k + i) = None →
           task_after env data startTime emailJob user (k + i) r ∈ queue w')
      ∧ ((∃ us, o = Ok us ∧ ∀ i, (i < length rs)%nat → refusal env (k + i) = None)
         ∨ (∃ m, o = Throw (ErrorObj m)
                 ∧ ∃ i, (i < length rs)%nat ∧ refusal env (k + i) ≠ None)).
Proof.
  induction rs as [|r rs IH]; intros k w Hnd Hin.
  - simpl. eexists _, _. split; [reflexivity|]. split_and!; try done.
    left. eexists. split; [done|]. simpl. lia.
  - rewrite fmap_cons, NoDup_cons in Hnd. destruct Hnd as [Hr Hnd].
    simpl. unfold schedule_one at 1. unfold_monad.
    unfold db_emailRecipient_update at 1.
    rewrite (Hin r) by constructor.
    fold (row_after env data startTime k r).
    set (w1 := log_write _ (set_recipients _ w)).
    (* the rest of the list, from the store the first callback leaves *)
    assert (Hrest : ∀ wk, recipients wk = recipients w1 → users wk = users w →
              jobs wk = jobs w → nextId wk = nextId w →
              (∀ x, x ∈ queue w → x ∈ queue wk) →
              (refusal env k = None →
                 task_after env data startTime emailJob user k r ∈ queue wk) →
              ∃ o w', promise_all (schedule_one env data startTime emailJob user) rs (S k) wk
                        = (o, w')
                ∧ users w' = users w ∧ jobs w' = jobs w ∧ nextId w' = nextId w
                ∧ (∀ i r', (r :: rs) !! i = Some r' →
                     recipients w' !! rcp_id r'
                     = Some (row_after env data startTime (k + i) r'))
                ∧ (∀ id, id ∉ rcp_id <$> r :: rs → recipients w' !! id = recipients w !! id)
                ∧ (∀ x, x ∈ queue w → x ∈ queue w')
                ∧ (∀ i r', (r :: rs) !! i = Some r' → refusal env (k + i) = None →
                     task_after env data startTime emailJob user (k + i) r' ∈ queue w')
                ∧ ((∃ us, o = Ok us ∧ ∀ i, (i < length rs)%nat → refusal env (S k + i) = None)
                   ∨ (∃ m, o = Throw (ErrorObj m)
                           ∧ ∃ i, (i < length rs)%nat ∧ refusal env (S k + i) ≠ None))).
    { intros wk Er Eu Ej En Hq Hqk.
      destruct (IH (S k) wk Hnd)
        as (o & w' & E & Hu & Hj & Hn & Hrows & Hoth & Hmono & Htasks & Hres).
      { intros r' Hr'. rewrite Er. subst w1. simpl. rewrite lookup_insert_ne.
        - apply Hin. by constructor.
        - intros Heq. apply Hr. rewrite Heq. by apply list_elem_of_fmap_2. }
      exists o, w'. split; [done|].
      split_and!; [by rewrite Hu|by rewrite Hj|by rewrite Hn|..|done].
      - intros [|i] r' Hi; simpl in Hi.
        + injection Hi as <-. rewrite Hoth by done. rewrite Er. subst w1. simpl.
          rewrite lookup_insert_eq. by rewrite Nat.add_0_r.
        + rewrite (Hrows i r' Hi). do 2 f_equal. lia.
      - intros id. rewrite ?fmap_cons, not_elem_of_cons. intros [Hne Hid].
        rewrite Hoth by done. rewrite Er. subst w1. simpl. by rewrite lookup_insert_ne.
      - auto.
      - intros [|i] r' Hi Hnone; simpl in Hi.
        + injection Hi as <-. rewrite Nat.add_0_r in Hnone |- *. auto.
        + replace (k + S i)%nat with (S k + i)%nat in * by lia. by apply Htasks. }
    unfold emailQueue_add.
    destruct (refusal env k) as [msg|] eqn:Hk; simpl.
    + destruct (Hrest w1) as (o & w' & E & Hu & Hj & Hn & Hrows & Hoth & Hmono & Htasks & _);
        try done.
      rewrite E. exists (Throw (ErrorObj msg)), w'. split; [reflexivity|].
      split_and!; try done.
      right. eexists. split; [done|]. exists 0%nat. simpl.
      rewrite Nat.add_0_r, Hk. split; [lia|done].
    + set (w2 := set_queue _ w1).
      destruct (Hrest w2) as (o & w' & E & Hu & Hj & Hn & Hrows & Hoth & Hmono & Htasks & Hres);
        try done.
      { intros x Hx. subst w2 w1. simpl. apply elem_of_app. by left. }
      { intros _. subst w2 w1. simpl. apply elem_of_app. right. by constructor. }
      rewrite E. eexists _, w'. split; [reflexivity|].
      split_and!; try done.
      destruct Hres as [(us & -> & Hall)|(m & -> & i & Hi & Hne)].
      * left. eexists. split; [done|]. intros [|i] Hi; simpl in Hi.
        -- by rewrite Nat.add_0_r.
        -- replace (k + S i)%nat with (S k + i)%nat by lia. apply Hall. lia.
      * right. eexists. split; [done|]. exists (S i). simpl. split; [lia|].
        by replace (k + S i)%nat with (S k + i)%nat by lia.
Qed.

Lemma created_rows_lookup (n : nat) (jid : string) (emails : list string) (i : nat) :
  imap (λ i p, new_recipient (gen_id (S n + i)) p.1 jid p.2)
       ((λ email : string, (email, pending)) <$> emails) !! i
  = (λ email, new_recipient (gen_id (S n + i)) email jid pending) <$> emails !! i.
Proof.
  rewrite list_lookup_imap, list_lookup_fmap. by destruct (emails !! i).
Qed.

Lemma created_rows_NoDup (n : nat) (jid : string) (emails : list string) :
  NoDup (rcp_id <$> imap (λ i p, new_recipient (gen_id (S n + i)) p.1 jid p.2)
                      ((λ email : string, (email, pending)) <$> emails)).
Proof.
  apply NoDup_alt. intros i j x Hi Hj.
  rewrite list_lookup_fmap, created_rows_lookup in Hi, Hj.
  destruct (emails !! i); [|done]. destruct (emails !! j); [|done].
  simpl in *. apply (inj Some) in Hi. subst x. apply (inj Some) in Hj.
  apply (inj gen_id) in Hj. lia.
Qed.

Lemma created_rows_ids (n : nat) (jid : string) (emails : list string) (r : EmailRecipient) :
  r ∈ imap (λ i p, new_recipient (gen_id (S n + i)) p.1 jid p.2)
        ((λ email : string, (email, pending)) <$> emails) →
  ∃ i, rcp_id r = gen_id (S n + i).
Proof.
  intros [i Hi]%list_elem_of_lookup_1. rewrite created_rows_lookup in Hi.
  destruct (emails !! i); [|done]. apply (inj Some) in Hi. subst r. by exists i.
Qed.

Section Submission.

Variable zod_email : string → bool.
Variable zod_datetime : string → bool.
Variable Date_parse : string → option Z.
Variable toISOString : Z → string.

Local Abbreviation parse := (scheduleEmailSchema_parse zod_email zod_datetime Date_parse toISOString).
Local Abbreviation post := (post_schedule zod_email zod_datetime Date_parse toISOString).

(** A submission that passes the schema and the sentinel check, whose
    owner can be resolved, on a store whose generated identifiers are
    unused: the job and the rows it leaves, and the response by what the
    queue does. *)
Lemma post_schedule_resolved (env : SubmitEnv) (body : ScheduleBody)
    (data : ScheduleData) (t0 : Z) (w : World) :
  parse body = inr data →
  d_userId data ≠ "default-user" → d_userId data ≠ "" →
  Date_parse (d_startTime data) = Some t0 →
  owner_known data w → fresh_ids w →
  let n := nextId w in
  ∃ o w', post env body w = (Ok o, w')
    ∧ (∃ j, jobs w' !! gen_id n = Some j ∧ scheduledFor j = t0
            ∧ delaySeconds j = d_delaySeconds data)
    ∧ (∀ i email, d_recipients data !! i = Some email →
         recipients w' !! gen_id (S n + i)
         = Some (row_after env data t0 i
                   (new_recipient (gen_id (S n + i)) email (gen_id n) pending)))
    ∧ (∀ i email, d_recipients data !! i = Some email → refusal env i = None →
         ∃ q, q ∈ queue w'
              ∧ q_data q = mkTask (gen_id (S n + i)) email (d_subject data) (d_body data)
                             (gen_id n) (t_userId (q_data q)) (d_hourlyLimit data)
              ∧ q_delay q
                = Z.max 0 (t0 + Z.of_nat i * d_delaySeconds data * 1000 - clock env i)
              ∧ q_attempts q = 3 ∧ q_backoff q = 5000)
    ∧ ((∀ i, (i < length (d_recipients data))%nat → refusal env i = None) →
         o = mkResponse 200 (ScheduleOk (gen_id n) (length (d_recipients data)) t0))
    ∧ ((∃ i, (i < length (d_recipients data))%nat ∧ refusal env i ≠ None) →
         o = mkResponse 500 (ErrorBody "Failed to schedule email" [])).
Proof.
  intros Hp Hs He Ht Hown Hfresh n.
  unfold post_schedule, schedule_try, parse_or_throw. rewrite Hp. unfold_monad.
  rewrite !bool_decide_false by done. simpl.
  destruct (resolve_user_spec data w) as (ou & wu & Eu & Hj & Hr & Hn & _ & _ & Hk & _).
  rewrite Eu. destruct (Hk Hown) as [u ->].
  unfold db_emailJob_create. rewrite Ht. rewrite Hn. fold n.
  set (rs := imap _ _).
  rewrite bool_decide_true; last first.
  { split.
    - rewrite Hj. by apply Hfresh.
    - apply Forall_forall. intros r [i Hi]%created_rows_ids.
      rewrite Hi, Hr. apply Hfresh. unfold n. lia. }
  set (j := mkEmailJob _ _ _ _ _ _ _ _).
  set (w2 := log_write _ _).
  destruct (promise_all_schedule env data t0 j u rs 0 w2)
    as (o & w' & E & Hu' & Hj' & Hn' & Hrows & Hoth & _ & Htasks & Hres).
  { apply created_rows_NoDup. }
  { intros r Hin. subst w2. simpl. apply insert_recipients_in; [|done].
    apply created_rows_NoDup. }
  simpl. rewrite E.
  assert (Hlen : length rs = length (d_recipients data)).
  { subst rs. by rewrite length_imap, length_fmap. }
  assert (Hjob : ∃ j, jobs w' !! gen_id n = Some j ∧ scheduledFor j = t0
                      ∧ delaySeconds j = d_delaySeconds data).
  { exists j. rewrite Hj'. subst w2. simpl. by rewrite lookup_insert_eq. }
  assert (Hrcp : ∀ i email, d_recipients data !! i = Some email →
            recipients w' !! gen_id (S n + i)
            = Some (row_after env data t0 i
                      (new_recipient (gen_id (S n + i)) email (gen_id n) pending))).
  { intros i email Hi.
    specialize (Hrows i (new_recipient (gen_id (S n + i)) email (gen_id n) pending)).
    simpl in Hrows. apply Hrows. subst rs. rewrite created_rows_lookup. by rewrite Hi. }
  assert (Hq : ∀ i email, d_recipients data !! i = Some email → refusal env i = None →
            ∃ q, q ∈ queue w'
                 ∧ q_data q = mkTask (gen_id (S n + i)) email (d_subject data) (d_body data)
                                (gen_id n) (t_userId (q_data q)) (d_hourlyLimit data)
                 ∧ q_delay q
                   = Z.max 0 (t0 + Z.of_nat i * d_delaySeconds data * 1000 - clock env i)
                 ∧ q_attempts q = 3 ∧ q_backoff q = 5000).
  { intros i email Hi Hnone.
    specialize (Htasks i (new_recipient (gen_id (S n + i)) email (gen_id n) pending)).
    simpl in Htasks. eexists. split.
    - apply Htasks; [|done]. subst rs. rewrite created_rows_lookup. by rewrite Hi.
    - done. }
  rewrite Hlen in Hres. simpl in Hres.
  destruct Hres as [(us & -> & Hall)|(m & -> & i & Hi & Hne)].
  - eexists _, _. split; [reflexivity|]. split_and!; [done|done|done|..].
    + intros _. by rewrite Hlen.
    + intros (i & Hi & Hne). by rewrite Hall in Hne.
  - eexists _, _. split; [reflexivity|]. split_and!; [done|done|done|..].
    + intros Hall. by rewrite Hall in Hne.
    + done.
Qed.

Local Instance JString_inj : Inj (=) (=) JString.
Proof. by intros s1 s2 [= ->]. Qed.

Lemma z_email_items_inr (path : string) (l : list JSValue) :
  ∀ (index : nat) (ss : list string),
    z_email_items zod_email path index l = inr ss → l = JString <$> ss.
Proof.
  induction l as [|v l IH]; intros index ss; simpl.
  - by intros [= <-].
  - unfold z_email_item.
    destruct v as [| | | |s|]; try (destruct (z_email_items _ _ _ l); discriminate).
    destruct (zod_email s); [|destruct (z_email_items _ _ _ l); discriminate].
    destruct (z_email_items _ _ _ l) as [|ss'] eqn:E; [discriminate|].
    intros [= <-]. simpl. f_equal. by eapply IH.
Qed.

(** A body that passes the schema passes each field's check. *)
Lemma parse_inr (body : ScheduleBody) (data : ScheduleData) :
  parse body = inr data →
  z_string_min1 "subject" (b_subject body) = inr (d_subject data)
  ∧ z_string_min1 "body" (b_body body) = inr (d_body data)
  ∧ z_email_array zod_email "recipients" (b_recipients body) = inr (d_recipients data)
  ∧ z_startTime zod_datetime Date_parse toISOString "startTime" (b_startTime body)
    = inr (d_startTime data)
  ∧ z_number_range 1 300 "delaySeconds" (b_delaySeconds body) = inr (d_delaySeconds data)
  ∧ z_number_range 1 1000 "hourlyLimit" (b_hourlyLimit body) = inr (d_hourlyLimit data)
  ∧ z_string "userId" (b_userId body) = inr (d_userId data)
  ∧ z_email_optional zod_email "userEmail" (b_userEmail body) = inr (d_userEmail data).
Proof.
  unfold scheduleEmailSchema_parse.
  destruct (z_string_min1 "subject" _); [discriminate|].
  destruct (z_string_min1 "body" _); [discriminate|].
  destruct (z_email_array _ _ _); [discriminate|].
  destruct (z_startTime _ _ _ _ _); [discriminate|].
  destruct (z_number_range 1 300 _ _); [discriminate|].
  destruct (z_number_range 1 1000 _ _); [discriminate|].
  destruct (z_string _ _); [discriminate|].
  destruct (z_email_optional _ _ _); [discriminate|].
  by intros [= <-].
Qed.

Lemma parse_recipients (body : ScheduleBody) (data : ScheduleData) :
  parse body = inr data → b_recipients body = JArray (JString <$> d_recipients data).
Proof.
  intros (_ & _ & H & _)%parse_inr. unfold z_email_array in H.
  destruct (b_recipients body) as [| | | | |l]; try discriminate.
  destruct (z_email_items zod_email "recipients" 0 l) as [es|ss] eqn:E.
  - by destruct (1 <=? length l)%nat.
  - destruct (1 <=? length ss)%nat; [|discriminate].
    injection H as <-. f_equal. by eapply z_email_items_inr.
Qed.

(** C1.  A submission that passes the schema and the sentinel check, whose
    owner can be resolved, whose tasks the queue takes, on a store whose
    generated identifiers are unused, is answered with status 200 and
    [recipientCount] equal to the number [N] of submitted recipients; and
    the row created for the recipient at position [i] (from 0) is stored
    with [scheduledAt = startTime + i * delaySeconds] (in milliseconds),
    which is also [Job.scheduledFor + i * Job.delaySeconds]. *)
Theorem C1_recipient_count_and_stagger (env : SubmitEnv) (body : ScheduleBody)
    (data : ScheduleData) (emails : list string) (startTime : Z) (w : World) :
  parse body = inr data →
  b_recipients body = JArray (JString <$> emails) →
  d_userId data ≠ "default-user" → d_userId data ≠ "" →
  Date_parse (d_startTime data) = Some startTime →
  owner_known data w → fresh_ids w →
  (∀ i, (i < length emails)%nat → refusal env i = None) →
  ∃ jobId job w',
    post env body w
      = (Ok (mkResponse 200 (ScheduleOk jobId (length emails) startTime)), w')
    ∧ jobs w' !! jobId = Some job
    ∧ ∀ i email, emails !! i = Some email →
        ∃ r, recipients w' !! gen_id (S (nextId w) + i) = Some r
             ∧ rcp_email r = email ∧ emailJobId r = jobId
             ∧ scheduledAt r
               = Some (startTime + Z.of_nat i * (d_delaySeconds data * 1000))
             ∧ scheduledAt r
               = Some (scheduledFor job + Z.of_nat i * (delaySeconds job * 1000)).
Proof.
  intros Hp Hb Hs He Ht Hown Hfresh Hq.
  pose proof (parse_recipients body data Hp) as Hb'. rewrite Hb in Hb'.
  injection Hb' as Hb'. apply (inj (fmap JString)) in Hb'. subst emails.
  destruct (post_schedule_resolved env body data startTime w Hp Hs He Ht Hown Hfresh)
    as (o & w' & E & (j & Hj & Hsf & Hds) & Hrows & _ & Hok & _).
  rewrite (Hok Hq) in E.
  exists (gen_id (nextId w)), j, w'. split_and!; [done|done|].
  intros i email Hi. eexists. split; [by apply Hrows|]. simpl.
  rewrite Hsf, Hds. split_and!; try done; f_equal; lia.
Qed.

(** C6.  In such a submission (whatever the queue does), the row of each
    recipient is stored with its [scheduledAt] and with the status that
    [queueDelay = max(0, scheduledAt - now)] decides: [pending] when
    [queueDelay] is below ten seconds, [scheduled] otherwise; and the task
    the queue takes for the recipient is delayed by that [queueDelay]. *)
Theorem C6_status_by_queue_delay (env : SubmitEnv) (body : ScheduleBody)
    (data : ScheduleData) (startTime : Z) (w : World) :
  parse body = inr data →
  d_userId data ≠ "default-user" → d_userId data ≠ "" →
  Date_parse (d_startTime data) = Some startTime →
  owner_known data w → fresh_ids w →
  ∃ response w',
    post env body w = (Ok response, w')
    ∧ ∀ i email, d_recipients data !! i = Some email →
        let scheduledAt_i := startTime + Z.of_nat i * d_delaySeconds data * 1000 in
        let now := clock env i in
        let queueDelay := Z.max 0 (scheduledAt_i - now) in
        (∃ r, recipients w' !! gen_id (S (nextId w) + i) = Some r
              ∧ rcp_email r = email
              ∧ scheduledAt r = Some scheduledAt_i
              ∧ rcp_status r
                = (if bool_decide (queueDelay < 10 * 1000) then pending else scheduled))
        ∧ (refusal env i = None →
             ∃ q, q ∈ queue w'
                  ∧ t_recipientId (q_data q) = gen_id (S (nextId w) + i)
                  ∧ q_delay q = queueDelay).
Proof.
  intros Hp Hs He Ht Hown Hfresh.
  destruct (post_schedule_resolved env body data startTime w Hp Hs He Ht Hown Hfresh)
    as (o & w' & E & _ & Hrows & Htasks & _).
  exists o, w'. split; [done|].
  intros i email Hi. split.
  - eexists. split; [by apply Hrows|]. simpl.
    split_and!; try done.
    destruct (Z.ltb_spec (Z.max 0 (startTime + Z.of_nat i * d_delaySeconds data * 1000
                                   - clock env i)) 10000).
    + by rewrite bool_decide_true by lia.
    + by rewrite bool_decide_false by lia.
  - intros Hnone. destruct (Htasks i email Hi Hnone) as (q & Hq & Hd & Hdelay & _).
    exists q. split; [done|]. rewrite Hd. by split.
Qed.

(** C7 (as the code has it).  Three recipients, [delaySeconds = 5], and a
    handler whose clock is not behind [startTime]: the rows are stored with
    [scheduledAt] at offsets 0 s, 5 s and 10 s; recipients 0 and 1 are
    immediate ([pending]); recipient 2 is deferred ([scheduled]) exactly
    when the clock still reads [startTime] in its callback, and immediate
    as soon as a millisecond has passed. *)
Theorem C7_three_recipients_five_seconds (env : SubmitEnv) (body : ScheduleBody)
    (data : ScheduleData) (a b c : string) (startTime : Z) (w : World) :
  parse body = inr data →
  d_recipients data = [a; b; c] → d_delaySeconds data = 5 →
  d_userId data ≠ "default-user" → d_userId data ≠ "" →
  Date_parse (d_startTime data) = Some startTime →
  owner_known data w → fresh_ids w →
  (∀ i, startTime ≤ clock env i) →
  ∃ response w' r0 r1 r2,
    post env body w = (Ok response, w')
    ∧ recipients w' !! gen_id (S (nextId w) + 0) = Some r0
    ∧ recipients w' !! gen_id (S (nextId w) + 1) = Some r1
    ∧ recipients w' !! gen_id (S (nextId w) + 2) = Some r2
    ∧ (rcp_email r0, rcp_email r1, rcp_email r2) = (a, b, c)
    ∧ scheduledAt r0 = Some startTime
    ∧ scheduledAt r1 = Some (startTime + 5 * 1000)
    ∧ scheduledAt r2 = Some (startTime + 10 * 1000)
    ∧ rcp_status r0 = pending
    ∧ rcp_status r1 = pending
    ∧ (rcp_status r2 = scheduled ↔ clock env 2 = startTime)
    ∧ (rcp_status r2 = pending ↔ startTime < clock env 2).
Proof.
  intros Hp Hl Hd Hs He Ht Hown Hfresh Hclock.
  destruct (post_schedule_resolved env body data startTime w Hp Hs He Ht Hown Hfresh)
    as (o & w' & E & _ & Hrows & _).
  rewrite Hl in Hrows.
  pose proof (Hrows 0%nat a eq_refl) as H0.
  pose proof (Hrows 1%nat b eq_refl) as H1.
  pose proof (Hrows 2%nat c eq_refl) as H2.
  pose proof (Hclock 0%nat) as C0. pose proof (Hclock 1%nat) as C1.
  pose proof (Hclock 2%nat) as C2.
  eexists o, w', _, _, _. split; [done|].
  split; [exact H0|]. split; [exact H1|]. split; [exact H2|].
  unfold row_after. rewrite Hd. simpl.
  split_and!; try done; try (f_equal; lia).
  - destruct (Z.ltb_spec (Z.max 0 (startTime + Z.of_nat 0 * 5 * 1000 - clock env 0)) 10000);
      [done|lia].
  - destruct (Z.ltb_spec (Z.max 0 (startTime + Z.of_nat 1 * 5 * 1000 - clock env 1)) 10000);
      [done|lia].
  - destruct (Z.ltb_spec (Z.max 0 (startTime + Z.of_nat 2 * 5 * 1000 - clock env 2)) 10000);
      split; try done; lia.
  - destruct (Z.ltb_spec (Z.max 0 (startTime + Z.of_nat 2 * 5 * 1000 - clock env 2)) 10000);
      split; try done; lia.
Qed.

(** C9 (as the code has it).  When the queue refuses a task of a
    submission whose job and recipients are already stored, the caller is
    answered with status 500 and the body [{ error: 'Failed to schedule
    email' }]: a request-level failure that names no job and no
    recipient, while the job and every recipient row stay in the store. *)
Theorem C9_enqueue_failure_reported_without_ids (env : SubmitEnv) (body : ScheduleBody)
    (data : ScheduleData) (startTime : Z) (w : World) :
  parse body = inr data →
  d_userId data ≠ "default-user" → d_userId data ≠ "" →
  Date_parse (d_startTime data) = Some startTime →
  owner_known data w → fresh_ids w →
  (∃ i, (i < length (d_recipients data))%nat ∧ refusal env i ≠ None) →
  ∃ response w',
    post env body w = (Ok response, w')
    ∧ response = mkResponse 500 (ErrorBody "Failed to schedule email" [])
    ∧ body_ids (res_body response) = []
    ∧ is_Some (jobs w' !! gen_id (nextId w))
    ∧ ∀ i, (i < length (d_recipients data))%nat →
        is_Some (recipients w' !! gen_id (S (nextId w) + i)).
Proof.
  intros Hp Hs He Ht Hown Hfresh Hq.
  destruct (post_schedule_resolved env body data startTime w Hp Hs He Ht Hown Hfresh)
    as (o & w' & E & (j & Hj & _) & Hrows & _ & _ & Hbad).
  rewrite (Hbad Hq) in E. eexists _, w'. split; [exact E|].
  split; [reflexivity|]. split; [reflexivity|]. split; [by exists j|].
  intros i Hi. apply lookup_lt_is_Some_2 in Hi as [email Hi].
  rewrite (Hrows i email Hi). done.
Qed.

End Submission.

(** C7, the claim as stated fails: in the scenario itself (three recipients,
    [delaySeconds = 5], a clock that reads [startTime]), recipient 1 is due
    in 5 s, which is below the ten-second threshold, so it is stored
    [pending], not [scheduled]. *)
Lemma C7_second_recipient_is_immediate :
  let run := Sample.post Sample.env_now Sample.body empty_world in
  fst run = Ok (mkResponse 200 (ScheduleOk "c0" 3 Sample.instant))
  ∧ ∃ r1, recipients (snd run) !! "c2" = Some r1
          ∧ rcp_email r1 = "b@x.com"
          ∧ scheduledAt r1 = Some (Sample.instant + 5 * 1000)
          ∧ rcp_status r1 = pending
          ∧ rcp_status r1 ≠ scheduled.
Proof.
  vm_compute. split; [reflexivity|].
  eexists. split; [reflexivity|]. split_and!; [reflexivity..|discriminate].
Qed.

(** C9, the claim as stated fails: with the queue down, the job [c0] and the
    recipient [c1] are stored, and the response carries neither
    identifier. *)
Lemma C9_failure_response_has_no_ids :
  let run := Sample.post Sample.env_down Sample.body empty_world in
  ∃ response,
    fst run = Ok response
    ∧ res_status response = 500
    ∧ is_Some (jobs (snd run) !! "c0")
    ∧ is_Some (recipients (snd run) !! "c1")
    ∧ ("c0" ∉ body_ids (res_body response))
    ∧ ("c1" ∉ body_ids (res_body response)).
Proof.
  vm_compute. eexists. split; [reflexivity|]. simpl.
  split_and!; [reflexivity|by eexists|by eexists|apply not_elem_of_nil..].
Qed.

(** ** The rate-limit branch *)

(** What the rate-limit branch does, for any run: the recipient is left
    [scheduled] with [scheduledAt = Math.ceil(now / H) * H], the rate-limit
    error goes to the queue, [retryCount] is as before and nothing is
    written [failed].  The stored instant is the start of the next hour
    unless [now] is itself a whole number of hours. *)
Lemma rate_limited_run (env : WorkerEnv) (data : SendEmailJobData) (w w1 : World)
    (r : EmailRecipient) :
  checkRateLimit (now_check env) (t_userId data) (t_hourlyLimit data) w = (Ok false, w1) →
  recipients w !! t_recipientId data = Some r →
  ∃ w' r',
    worker env data w = (Throw (ErrorObj rateLimitMessage), w')
    ∧ recipients w' !! t_recipientId data = Some r'
    ∧ rcp_status r' = scheduled
    ∧ scheduledAt r' = Some (hour_ceil (now_defer env) * HOUR_MS)
    ∧ (now_defer env mod HOUR_MS ≠ 0 →
         scheduledAt r' = Some (next_hour_start (now_defer env)))
    ∧ (now_defer env mod HOUR_MS = 0 → scheduledAt r' = Some (now_defer env))
    ∧ retryCount r' = retryCount r
    ∧ ¬ failed_written (t_recipientId data) (new_writes w w').
Proof.
  intros E Hr. rewrite (worker_rate_limited env data w w1 r E Hr).
  destruct (checkRateLimit_frame (now_check env) (t_userId data) (t_hourlyLimit data) w)
    as (b & r0 & E'). rewrite E in E'. injection E' as <- ->.
  eexists _, _. split; [reflexivity|]. simpl. rewrite lookup_insert_eq.
  split; [reflexivity|]. simpl. split_and!; try done.
  - intros Hm. rewrite hour_ceil_cases. by rewrite bool_decide_false.
  - intros Hm. rewrite hour_ceil_cases. by rewrite bool_decide_true.
  - erewrite new_writes_app; [|reflexivity].
    intros (r' & Hin & Hst). apply list_elem_of_singleton in Hin.
    injection Hin as ->. discriminate.
Qed.

(** C4, on the stroke of the hour.  Two tasks of one user with
    [hourlyLimit = 1] run in the same millisecond, which is a whole number
    of hours.  The first is delivered; the second is refused by the rate
    limiter and its recipient is left [scheduled], with [retryCount]
    untouched and the rate-limit error thrown, but with
    [scheduledAt = now]: the start of the hour whose quota is used up, not
    the start of the next one. *)
Theorem C4_deferral_on_the_hour :
  let first := worker OnTheHour.env OnTheHour.task_a OnTheHour.world in
  let second := worker OnTheHour.env OnTheHour.task_b (snd first) in
  OnTheHour.now mod HOUR_MS = 0
  ∧ fst first = Ok "<m1@x.com>"
  ∧ fst second = Throw (ErrorObj rateLimitMessage)
  ∧ ∃ r', recipients (snd second) !! "r2" = Some r'
          ∧ rcp_status r' = scheduled
          ∧ retryCount r' = 0
          ∧ scheduledAt r' = Some OnTheHour.now
          ∧ next_hour_start OnTheHour.now = OnTheHour.now + HOUR_MS
          ∧ scheduledAt r' ≠ Some (next_hour_start OnTheHour.now).
Proof.
  vm_compute. split_and!; try reflexivity.
  eexists. split; [reflexivity|]. split_and!; try reflexivity. discriminate.
Qed.

(** ** What the service keeps true of the store *)

Section Keeps.

Variable I : World → Prop.

Lemma keeps_ret {A} (a : A) : keeps I (mret a).
Proof. by intros w. Qed.

Lemma keeps_throw {A} (e : Thrown) : keeps I (@throw A e).
Proof. by intros w. Qed.

(** The continuation may rely on what the first computation returns from
    a store that has the property. *)
Lemma keeps_bind_res {A B} (R : A → Prop) (m : M A) (f : A → M B) :
  keeps I m →
  (∀ w a, I w → fst (m w) = Ok a → R a) →
  (∀ a, R a → keeps I (f a)) →
  keeps I (m ≫= f).
Proof.
  intros Hm HR Hf w Hw. unfold mbind, M_bind.
  specialize (Hm w Hw). specialize (HR w).
  destruct (m w) as [[a|e] w1]; simpl in *; [|done].
  apply Hf; eauto.
Qed.

Lemma keeps_bind {A B} (m : M A) (f : A → M B) :
  keeps I m → (∀ a, keeps I (f a)) → keeps I (m ≫= f).
Proof. intros Hm Hf. apply (keeps_bind_res (λ _, True)); auto. Qed.

Lemma keeps_try_catch {A} (m : M A) (h : Thrown → M A) :
  keeps I m → (∀ e, keeps I (h e)) → keeps I (try_catch m h).
Proof.
  intros Hm Hh w Hw. unfold try_catch. specialize (Hm w Hw).
  destruct (m w) as [[a|e] w1]; simpl in *; [done|]. by apply Hh.
Qed.

Lemma keeps_promise_all {A B} (f : A → nat → M B) (l : list A) :
  (∀ x i, keeps I (f x i)) → ∀ k, keeps I (promise_all f l k).
Proof.
  intros Hf. induction l as [|x l IH]; intros k w Hw; simpl; [done|].
  specialize (Hf x k w Hw). destruct (f x k w) as [o w1]. simpl in Hf.
  specialize (IH (S k) w1 Hf). by destruct (promise_all f l (S k) w1) as [os w2].
Qed.

End Keeps.

Ltac keeps_step :=
  lazymatch goal with
  | |- keeps _ (mbind _ _) => apply keeps_bind; [|intros ?]
  | |- keeps _ (try_catch _ _) => apply keeps_try_catch; [|intros ?]
  | |- keeps _ (mret _) => apply keeps_ret
  | |- keeps _ (throw _) => apply keeps_throw
  | |- keeps _ (promise_all _ _ _) => apply keeps_promise_all; intros ? ?
  | |- keeps _ (if ?b then _ else _) => destruct b
  | |- keeps _ (match ?x with _ => _ end) => destruct x
  end.

(** A computation that leaves the user and job tables alone keeps them free
    of the sentinel. *)
Lemma keeps_sentinel_frame {A} (m : M A) :
  (∀ w, users (snd (m w)) = users w ∧ jobs (snd (m w)) = jobs w) →
  keeps sentinel_free m.
Proof. intros H w [Hu Hj]. destruct (H w) as [Eu Ej]. split; by rewrite ?Eu, ?Ej. Qed.

Lemma keeps_recipient_update (id : string) (data : EmailRecipient → EmailRecipient) :
  keeps sentinel_free (db_emailRecipient_update id data).
Proof.
  apply keeps_sentinel_frame. intros w. unfold db_emailRecipient_update.
  by destruct (recipients w !! id).
Qed.

Lemma keeps_queue_add (r : option string) (data : SendEmailJobData) (delay : Z) :
  keeps sentinel_free (emailQueue_add r data delay).
Proof. apply keeps_sentinel_frame. intros w. unfold emailQueue_add. by destruct r. Qed.

Lemma keeps_redis_incr (now : Z) (key : string) : keeps sentinel_free (redis_incr now key).
Proof. by apply keeps_sentinel_frame. Qed.

Lemma keeps_redis_expire (now : Z) (key : string) (seconds : Z) :
  keeps sentinel_free (redis_expire now key seconds).
Proof.
  apply keeps_sentinel_frame. intros w. unfold redis_expire.
  by destruct (redis_get now key w).
Qed.

Lemma keeps_findMany_job (jobId : string) :
  keeps sentinel_free (db_emailRecipient_findMany_job jobId).
Proof. by apply keeps_sentinel_frame. Qed.

Lemma keeps_find_email (email : string) : keeps sentinel_free (db_user_findUnique_email email).
Proof. by apply keeps_sentinel_frame. Qed.

Lemma keeps_job_update (id : string) (st : JobStatus) :
  keeps sentinel_free (db_emailJob_update id st).
Proof.
  intros w [Hu Hj]. unfold db_emailJob_update.
  destruct (jobs w !! id) as [j|] eqn:E; simpl; [|done].
  split; [done|]. simpl. intros k j'. rewrite lookup_insert. case_decide.
  - intros [= <-]. simpl. eauto.
  - eauto.
Qed.

Lemma keeps_user_create (id : option string) (email name : string) :
  (∀ i, id = Some i → i ≠ sentinel) → keeps sentinel_free (db_user_create id email name).
Proof.
  intros Hid w [Hu Hj]. unfold db_user_create.
  case_bool_decide; simpl.
  - split; simpl.
    + intros k u. rewrite lookup_insert. case_decide.
      * intros [= <-]. simpl. destruct id as [i|]; simpl.
        -- by apply Hid.
        -- apply gen_id_not_sentinel.
      * destruct id; simpl; eauto.
    + destruct id; simpl; eauto.
  - destruct id; by split.
Qed.

Lemma keeps_job_create (subject body : string) (t : option Z) (d h : Z) (userId : string)
    (rcps : list (string * RecipientStatus)) :
  userId ≠ sentinel → keeps sentinel_free (db_emailJob_create subject body t d h userId rcps).
Proof.
  intros Hid w [Hu Hj]. unfold db_emailJob_create.
  destruct t; [|done]. case_bool_decide; simpl; [|done].
  split; simpl; [done|]. intros k j'. rewrite lookup_insert. case_decide.
  - by intros [= <-].
  - eauto.
Qed.

Create HintDb keeps.
Global Hint Resolve keeps_recipient_update keeps_queue_add keeps_redis_incr
  keeps_redis_expire keeps_findMany_job keeps_find_email keeps_job_update : keeps.

Lemma keeps_worker (env : WorkerEnv) (data : SendEmailJobData) :
  keeps sentinel_free (worker env data).
Proof.
  unfold worker, worker_body, worker_catch, send_and_mark, completion_check, checkRateLimit.
  repeat keeps_step; auto with keeps.
Qed.

Lemma keeps_getUserByEmail (email : string) : keeps sentinel_free (getUserByEmail email).
Proof. unfold getUserByEmail. repeat keeps_step; auto with keeps. Qed.

Lemma keeps_authorize (email password : string) : keeps sentinel_free (authorize email password).
Proof.
  unfold authorize. repeat keeps_step; auto with keeps.
  by apply keeps_user_create.
Qed.

Section KeepsHandlers.

Variable zod_email : string → bool.
Variable zod_datetime : string → bool.
Variable Date_parse : string → option Z.
Variable toISOString : Z → string.
Variable orderBy : (EmailRecipient → option Z) → bool
                   → list (EmailRecipient * EmailJob) → list (EmailRecipient * EmailJob).

Lemma keeps_findMany_user (statuses : list RecipientStatus) (userId : string)
    (col : EmailRecipient → option Z) (desc : bool) :
  keeps sentinel_free (db_emailRecipient_findMany_user orderBy statuses userId col desc).
Proof. by apply keeps_sentinel_frame. Qed.

Lemma keeps_user_for_get (empty : ResponseBody) (email : string) :
  keeps sentinel_free (user_for_get empty email).
Proof.
  unfold user_for_get.
  repeat keeps_step; auto using keeps_getUserByEmail.
  by apply keeps_user_create.
Qed.

Lemma keeps_get_scheduled (userEmail : JSValue) :
  keeps sentinel_free (get_scheduled toISOString orderBy userEmail).
Proof.
  unfold get_scheduled, listing.
  repeat keeps_step; auto using keeps_user_for_get, keeps_findMany_user.
Qed.

Lemma keeps_get_sent (userEmail : JSValue) :
  keeps sentinel_free (get_sent toISOString orderBy userEmail).
Proof.
  unfold get_sent, listing.
  repeat keeps_step; auto using keeps_user_for_get, keeps_findMany_user.
Qed.

Lemma keeps_resolve_user (data : ScheduleData) :
  d_userId data ≠ sentinel → keeps sentinel_free (resolve_user data).
Proof.
  intros Hid w [Hu Hj].
  destruct (resolve_user_spec data w) as (o & wu & E & Ej & _ & _ & HP & _).
  rewrite E. simpl. split.
  - apply (HP (λ _ u, user_id u ≠ sentinel)); [done|]. by intros u ->.
  - by rewrite Ej.
Qed.

Lemma resolve_user_not_sentinel (data : ScheduleData) (w : World) (u : User) :
  d_userId data ≠ sentinel → sentinel_free w →
  fst (resolve_user data w) = Ok (inr u) → user_id u ≠ sentinel.
Proof.
  intros Hid [Hu Hj].
  destruct (resolve_user_spec data w) as (o & wu & E & _ & _ & _ & HP & Hin & _).
  rewrite E. simpl. intros [= ->]. destruct (Hin u eq_refl) as [k Hk].
  apply (HP (λ _ u, user_id u ≠ sentinel)) with k; [done| |done]. by intros u' ->.
Qed.

Lemma keeps_post_schedule (env : SubmitEnv) (body : ScheduleBody) :
  keeps sentinel_free
    (post_schedule zod_email zod_datetime Date_parse toISOString env body).
Proof.
  unfold post_schedule. apply keeps_try_catch;
    [|intros e; unfold schedule_catch; destruct e; apply keeps_ret].
  unfold schedule_try. apply keeps_bind.
  { unfold parse_or_throw. repeat keeps_step. }
  intros data.
  destruct (bool_decide (d_userId data = "default-user")) eqn:Hs; simpl;
    [apply keeps_ret|].
  apply bool_decide_eq_false in Hs.
  destruct (bool_decide (d_userId data = "")); simpl; [apply keeps_ret|].
  apply (keeps_bind_res _ (λ o, ∀ u, o = inr u → user_id u ≠ sentinel)).
  - by apply keeps_resolve_user.
  - intros w o Hw Ho u ->. by eapply resolve_user_not_sentinel.
  - intros [early|user] Hr; [apply keeps_ret|].
    apply keeps_bind; [apply keeps_job_create; auto|].
    intros [emailJob rcps]. unfold schedule_one.
    repeat keeps_step; auto with keeps.
Qed.

(** Every state the service can be in is free of the sentinel. *)
Lemma reachable_sentinel_free (w : World) :
  reachable zod_email zod_datetime Date_parse toISOString orderBy w → sentinel_free w.
Proof.
  induction 1 as [|w env body o w' _ IH E|w q o w' _ IH E|w q o w' _ IH E
                  |w email password o w' _ IH E|w env data o w' _ IH E].
  - split; intros k x; simpl; by rewrite lookup_empty.
  - pose proof (keeps_post_schedule env body w IH) as H. by rewrite E in H.
  - pose proof (keeps_get_scheduled q w IH) as H. by rewrite E in H.
  - pose proof (keeps_get_sent q w IH) as H. by rewrite E in H.
  - pose proof (keeps_authorize email password w IH) as H. by rewrite E in H.
  - pose proof (keeps_worker env data w IH) as H. by rewrite E in H.
Qed.

End KeepsHandlers.

(** ** Only the worker updates jobs *)

Section JobUpdates.

Variable ws0 : list DbWrite.

Lemma keeps_no_update_frame {A} (m : M A) :
  (∀ w, writes (snd (m w)) = writes w) → keeps (no_job_update_since ws0) m.
Proof. intros H w (ws & E & Hws). exists ws. by rewrite H. Qed.

Lemma no_update_log (x : DbWrite) (w : World) :
  (∀ id j, x ≠ JobUpdated id j) →
  no_job_update_since ws0 w → no_job_update_since ws0 (log_write x w).
Proof.
  intros Hx (ws & E & Hws). exists (ws ++ [x])%list. simpl. split.
  - by rewrite E, app_assoc.
  - intros id j [Hin|Hin%list_elem_of_singleton]%elem_of_app.
    + by eapply Hws.
    + by eapply Hx.
Qed.

Lemma keeps_no_update_user_create (id : option string) (email name : string) :
  keeps (no_job_update_since ws0) (db_user_create id email name).
Proof.
  intros w Hw. unfold db_user_create. case_bool_decide; simpl.
  - apply no_update_log; [done|]. by destruct id.
  - by destruct id.
Qed.

Lemma keeps_no_update_job_create (subject body : string) (t : option Z) (d h : Z)
    (userId : string) (rcps : list (string * RecipientStatus)) :
  keeps (no_job_update_since ws0) (db_emailJob_create subject body t d h userId rcps).
Proof.
  intros w Hw. unfold db_emailJob_create. destruct t; [|done].
  case_bool_decide; simpl; [|done]. by apply no_update_log.
Qed.

Lemma keeps_no_update_recipient (id : string) (data : EmailRecipient → EmailRecipient) :
  keeps (no_job_update_since ws0) (db_emailRecipient_update id data).
Proof.
  intros w Hw. unfold db_emailRecipient_update.
  destruct (recipients w !! id); simpl; [|done]. by apply no_update_log.
Qed.

Lemma keeps_no_update_queue (r : option string) (data : SendEmailJobData) (delay : Z) :
  keeps (no_job_update_since ws0) (emailQueue_add r data delay).
Proof. apply keeps_no_update_frame. intros w. unfold emailQueue_add. by destruct r. Qed.

Lemma keeps_no_update_find_id (id : string) :
  keeps (no_job_update_since ws0) (db_user_findUnique_id id).
Proof. by apply keeps_no_update_frame. Qed.

Lemma keeps_no_update_find_email (email : string) :
  keeps (no_job_update_since ws0) (db_user_findUnique_email email).
Proof. by apply keeps_no_update_frame. Qed.

End JobUpdates.

Create HintDb no_update.
Global Hint Resolve keeps_no_update_user_create keeps_no_update_job_create
  keeps_no_update_recipient keeps_no_update_queue keeps_no_update_find_id
  keeps_no_update_find_email : no_update.

Lemma no_update_not_completed (w w' : World) (jobId : string) :
  no_job_update_since (writes w) w' → ¬ completed_written jobId (new_writes w w').
Proof.
  intros (ws & E & Hws) (j & Hin & _).
  rewrite (new_writes_app w w' ws E) in Hin. by eapply Hws.
Qed.

Lemma no_update_refl (w : World) : no_job_update_since (writes w) w.
Proof. exists []. split; [by rewrite app_nil_r|]. intros id j. apply not_elem_of_nil. Qed.

Section JobUpdatesHandlers.

Variable zod_email : string → bool.
Variable zod_datetime : string → bool.
Variable Date_parse : string → option Z.
Variable toISOString : Z → string.
Variable orderBy : (EmailRecipient → option Z) → bool
                   → list (EmailRecipient * EmailJob) → list (EmailRecipient * EmailJob).

(** Neither a submission, nor a listing, nor a sign-in writes a job's
    status: [completed] is written by the worker's completion check and
    nowhere else. *)
Lemma only_the_worker_completes (jobId : string) (w : World) :
  (∀ env body,
     ¬ completed_written jobId
         (new_writes w
            (snd (post_schedule zod_email zod_datetime Date_parse toISOString env body w))))
  ∧ (∀ q, ¬ completed_written jobId
              (new_writes w (snd (get_scheduled toISOString orderBy q w))))
  ∧ (∀ q, ¬ completed_written jobId (new_writes w (snd (get_sent toISOString orderBy q w))))
  ∧ (∀ email password,
       ¬ completed_written jobId (new_writes w (snd (authorize email password w)))).
Proof.
  assert (Hfind : ∀ statuses userId col desc,
            keeps (no_job_update_since (writes w))
              (db_emailRecipient_findMany_user orderBy statuses userId col desc)).
  { intros. by apply keeps_no_update_frame. }
  split_and!; intros; apply no_update_not_completed.
  - apply (keeps_try_catch _ _ _); [|intros e; destruct e; apply keeps_ret|apply no_update_refl].
    unfold schedule_try, parse_or_throw, resolve_user, schedule_one.
    repeat keeps_step; auto with no_update.
  - unfold get_scheduled, listing, user_for_get, getUserByEmail.
    apply (keeps_try_catch _ _ _); [|intros e; apply keeps_ret|apply no_update_refl].
    repeat keeps_step; auto with no_update.
  - unfold get_sent, listing, user_for_get, getUserByEmail.
    apply (keeps_try_catch _ _ _); [|intros e; apply keeps_ret|apply no_update_refl].
    repeat keeps_step; auto with no_update.
  - unfold authorize.
    assert (keeps (no_job_update_since (writes w)) (authorize email password)) as H.
    { unfold authorize. repeat keeps_step; auto with no_update. }
    apply H, no_update_refl.
Qed.

End JobUpdatesHandlers.

(** ** The store stays well formed *)

Lemma keeps_ok_frame {A} (m : M A) :
  (∀ w, users (snd (m w)) = users w ∧ jobs (snd (m w)) = jobs w
        ∧ recipients (snd (m w)) = recipients w ∧ nextId (snd (m w)) = nextId w) →
  keeps store_ok m.
Proof.
  intros H w (Hk & Hfk & Hfr). destruct (H w) as (Eu & Ej & Er & En).
  unfold store_ok, fresh_ids. rewrite Eu, Ej, Er, En. done.
Qed.

Lemma keeps_ok_recipient_update (id : string) (data : EmailRecipient → EmailRecipient) :
  keeps store_ok (db_emailRecipient_update id data).
Proof.
  intros w (Hk & Hfk & Hfr). unfold db_emailRecipient_update.
  destruct (recipients w !! id) as [r|] eqn:E; simpl; [|done].
  split_and!; [done|done|]. intros m Hm. simpl. destruct (Hfr m Hm) as [Hj Hr].
  split; [done|]. rewrite lookup_insert_ne; [done|]. intros ->. by rewrite Hr in E.
Qed.

Lemma keeps_ok_job_update (id : string) (st : JobStatus) :
  keeps store_ok (db_emailJob_update id st).
Proof.
  intros w (Hk & Hfk & Hfr). unfold db_emailJob_update.
  destruct (jobs w !! id) as [j|] eqn:E; simpl; [|done].
  split_and!; [done| |]; simpl.
  - intros k j'. rewrite lookup_insert. case_decide.
    + intros [= <-]. simpl. eauto.
    + eauto.
  - intros m Hm. simpl. destruct (Hfr m Hm) as [Hj Hr].
    split; [|done]. rewrite lookup_insert_ne; [done|]. intros ->. by rewrite Hj in E.
Qed.

Lemma keeps_ok_user_create (id : option string) (email name : string) :
  keeps store_ok (db_user_create id email name).
Proof.
  intros w (Hk & Hfk & Hfr). unfold db_user_create.
  assert (Hfr' : ∀ w1, jobs w1 = jobs w → recipients w1 = recipients w →
            (nextId w ≤ nextId w1)%nat → fresh_ids w1).
  { intros w1 Ej Er Hn m Hm. rewrite Ej, Er. apply Hfr. lia. }
  case_bool_decide as Hc; simpl.
  - destruct Hc as [Hnew _].
    split_and!.
    + simpl. intros k u. rewrite lookup_insert. case_decide.
      * by intros [= <-].
      * destruct id; simpl; eauto.
    + simpl. intros k j Hj.
      assert (jobs w !! k = Some j) as Hj' by (by destruct id).
      destruct (Hfk k j Hj') as [u Hu]. rewrite lookup_insert. case_decide; [done|].
      destruct id; simpl; eauto.
    + apply Hfr'; destruct id; simpl; auto.
  - split_and!; [by destruct id|by destruct id|].
    apply Hfr'; destruct id; simpl; auto.
Qed.

Lemma job_create_store_ok (subject body : string) (t : option Z) (d h : Z)
    (userId : string) (emails : list string) (w : World) :
  store_ok w → is_Some (users w !! userId) →
  store_ok (snd (db_emailJob_create subject body t d h userId
                   ((λ email, (email, pending)) <$> emails) w)).
Proof.
  intros (Hk & Hfk & Hfr) Hu. unfold db_emailJob_create.
  destruct t; [|done]. rewrite length_fmap.
  assert (Hfr' : ∀ w1, jobs w1 = jobs w → recipients w1 = recipients w →
            (nextId w ≤ nextId w1)%nat → fresh_ids w1).
  { intros w1 Ej Er Hn m Hm. rewrite Ej, Er. apply Hfr. lia. }
  case_bool_decide; simpl.
  - split_and!; [done| |]; simpl.
    + intros k j'. rewrite lookup_insert. case_decide.
      * by intros [= <-].
      * eauto.
    + intros m Hm. simpl in *. destruct (Hfr m ltac:(lia)) as [Hj Hr]. split.
      * rewrite lookup_insert_ne; [done|]. intros Heq%(inj gen_id). lia.
      * rewrite insert_recipients_notin; [done|].
        intros [r [Hid Hin]]%list_elem_of_fmap.
        apply list_elem_of_lookup_1 in Hin as [i' Hi'].
        rewrite list_lookup_imap, list_lookup_fmap in Hi'.
        destruct (emails !! i') eqn:Hl; [|done].
        apply lookup_lt_Some in Hl. apply (inj Some) in Hi'. subst r.
        simpl in Hid. apply (inj gen_id) in Hid. lia.
  - split_and!; [done|done|]. apply Hfr'; simpl; auto. lia.
Qed.

Create HintDb store_ok.
Global Hint Resolve keeps_ok_recipient_update keeps_ok_job_update keeps_ok_user_create
  : store_ok.

Section StoreOk.

Variable zod_email : string → bool.
Variable zod_datetime : string → bool.
Variable Date_parse : string → option Z.
Variable toISOString : Z → string.
Variable orderBy : (EmailRecipient → option Z) → bool
                   → list (EmailRecipient * EmailJob) → list (EmailRecipient * EmailJob).

Lemma keeps_ok_worker (env : WorkerEnv) (data : SendEmailJobData) :
  keeps store_ok (worker env data).
Proof.
  assert (∀ now key, keeps store_ok (redis_incr now key)) by (intros; by apply keeps_ok_frame).
  assert (∀ now key secs, keeps store_ok (redis_expire now key secs)).
  { intros. apply keeps_ok_frame. intros w. unfold redis_expire.
    by destruct (redis_get now key w). }
  assert (∀ jobId, keeps store_ok (db_emailRecipient_findMany_job jobId))
    by (intros; by apply keeps_ok_frame).
  unfold worker, worker_body, worker_catch, send_and_mark, completion_check, checkRateLimit.
  repeat keeps_step; auto with store_ok.
Qed.

Lemma keeps_ok_listing (empty : ResponseBody) (userEmail : JSValue)
    (result : User → M ResponseBody) :
  (∀ user, keeps store_ok (result user)) →
  keeps store_ok (listing empty userEmail result).
Proof.
  intros Hres.
  assert (∀ email, keeps store_ok (db_user_findUnique_email email))
    by (intros; by apply keeps_ok_frame).
  unfold listing, user_for_get, getUserByEmail.
  repeat keeps_step; auto with store_ok.
Qed.

Lemma keeps_ok_findMany_user (statuses : list RecipientStatus) (userId : string)
    (col : EmailRecipient → option Z) (desc : bool) :
  keeps store_ok (db_emailRecipient_findMany_user orderBy statuses userId col desc).
Proof. by apply keeps_ok_frame. Qed.

Lemma keeps_ok_get_scheduled (userEmail : JSValue) :
  keeps store_ok (get_scheduled toISOString orderBy userEmail).
Proof.
  unfold get_scheduled. apply keeps_try_catch; [|intros e; apply keeps_ret].
  apply keeps_ok_listing. intros user.
  repeat keeps_step; auto using keeps_ok_findMany_user.
Qed.

Lemma keeps_ok_get_sent (userEmail : JSValue) :
  keeps store_ok (get_sent toISOString orderBy userEmail).
Proof.
  unfold get_sent. apply keeps_try_catch; [|intros e; apply keeps_ret].
  apply keeps_ok_listing. intros user.
  repeat keeps_step; auto using keeps_ok_findMany_user.
Qed.

Lemma keeps_ok_authorize (email password : string) : keeps store_ok (authorize email password).
Proof.
  assert (∀ e, keeps store_ok (db_user_findUnique_email e))
    by (intros; by apply keeps_ok_frame).
  unfold authorize. repeat keeps_step; auto with store_ok.
Qed.

Lemma keeps_ok_post_schedule (env : SubmitEnv) (body : ScheduleBody) :
  keeps store_ok (post_schedule zod_email zod_datetime Date_parse toISOString env body).
Proof.
  unfold post_schedule. apply keeps_try_catch;
    [|intros e; unfold schedule_catch; destruct e; apply keeps_ret].
  unfold schedule_try. apply keeps_bind.
  { unfold parse_or_throw. repeat keeps_step. }
  intros data.
  destruct (bool_decide (d_userId data = "default-user") || bool_decide (d_userId data = ""));
    [apply keeps_ret|].
  intros w (Hk & Hfk & Hfr). unfold mbind, M_bind.
  destruct (resolve_user_spec data w)
    as (o & wu & E & Ej & Er & En & HP & Hin & _ & _ & Hmono).
  rewrite E.
  assert (Hkey : ∀ k u, users wu !! k = Some u → user_id u = k).
  { apply (HP (λ k u, user_id u = k)); [done|]. by intros u ->. }
  assert (Hwu : store_ok wu).
  { split_and!; [done| |].
    - intros k j Hj. rewrite Ej in Hj. eauto.
    - intros m Hm. rewrite Ej, Er. apply Hfr. by rewrite <- En. }
  destruct o as [early|user]; [done|].
  destruct (Hin user eq_refl) as [k Hku].
  assert (is_Some (users wu !! user_id user)) as Huser.
  { rewrite (Hkey k user Hku). eauto. }
  pose proof (job_create_store_ok (d_subject data) (d_body data)
                (Date_parse (d_startTime data)) (d_delaySeconds data) (d_hourlyLimit data)
                (user_id user) (d_recipients data) wu Hwu Huser) as Hc.
  destruct (db_emailJob_create _ _ _ _ _ _ _ wu) as [[[emailJob rcps]|e] w1]; simpl in *;
    [|done].
  assert (keeps store_ok
            (promise_all (schedule_one env data (default 0 (Date_parse (d_startTime data)))
                            emailJob user) rcps 0)) as Hall.
  { assert (∀ r d q, keeps store_ok (emailQueue_add r d q)).
    { intros. apply keeps_ok_frame. intros w0. unfold emailQueue_add. by destruct r. }
    unfold schedule_one. repeat keeps_step; auto with store_ok. }
  specialize (Hall w1 Hc).
  by destruct (promise_all _ _ _ w1) as [[us|e] w2].
Qed.

(** Every state the service can be in is well formed. *)
Lemma reachable_store_ok (w : World) :
  reachable zod_email zod_datetime Date_parse toISOString orderBy w → store_ok w.
Proof.
  induction 1 as [|w env body o w' _ IH E|w q o w' _ IH E|w q o w' _ IH E
                  |w email password o w' _ IH E|w env data o w' _ IH E].
  - split_and!; [intros k x; simpl; by rewrite lookup_empty..|].
    intros m _. split; simpl; by rewrite lookup_empty.
  - pose proof (keeps_ok_post_schedule env body w IH) as H. by rewrite E in H.
  - pose proof (keeps_ok_get_scheduled q w IH) as H. by rewrite E in H.
  - pose proof (keeps_ok_get_sent q w IH) as H. by rewrite E in H.
  - pose proof (keeps_ok_authorize email password w IH) as H. by rewrite E in H.
  - pose proof (keeps_ok_worker env data w IH) as H. by rewrite E in H.
Qed.

End StoreOk.

(** ** Requests that are refused *)

Section Validation.

Variable zod_email : string → bool.
Variable zod_datetime : string → bool.
Variable Date_parse : string → option Z.
Variable toISOString : Z → string.
Variable orderBy : (EmailRecipient → option Z) → bool
                   → list (EmailRecipient * EmailJob) → list (EmailRecipient * EmailJob).

(** The ISO date-time pattern accepts only text that [Date] can read. *)
Hypothesis datetime_parses : ∀ s, zod_datetime s = true → is_Some (Date_parse s).

Local Abbreviation parse := (scheduleEmailSchema_parse zod_email zod_datetime Date_parse toISOString).
Local Abbreviation post := (post_schedule zod_email zod_datetime Date_parse toISOString).

Lemma post_invalid (env : SubmitEnv) (body : ScheduleBody) (paths : list string) (w : World) :
  parse body = inl paths →
  post env body w = (Ok (mkResponse 400 (ErrorBody "Validation failed" paths)), w).
Proof.
  intros Hp. unfold post_schedule, schedule_try, parse_or_throw. rewrite Hp. reflexivity.
Qed.

Lemma post_sentinel (env : SubmitEnv) (body : ScheduleBody) (data : ScheduleData) (w : World) :
  parse body = inr data → d_userId data = sentinel →
  post env body w
    = (Ok (mkResponse 400 (ErrorBody "Invalid user ID. Please log in again." [])), w).
Proof.
  intros Hp Hs. unfold post_schedule, schedule_try, parse_or_throw. rewrite Hp.
  unfold_monad. rewrite Hs. reflexivity.
Qed.

Lemma z_email_items_ok (path : string) (l : list JSValue) :
  ∀ (index : nat) (ss : list string),
    z_email_items zod_email path index l = inr ss →
    ∀ i s, l !! i = Some (JString s) → zod_email s = true.
Proof.
  induction l as [|v l IH]; intros index ss; simpl; [done|].
  unfold z_email_item.
  destruct v as [| | | |s0|]; try (destruct (z_email_items _ _ _ l); discriminate).
  destruct (zod_email s0) eqn:Hs0; [|destruct (z_email_items _ _ _ l); discriminate].
  destruct (z_email_items _ _ _ l) as [|ss'] eqn:E; [discriminate|].
  intros _ [|i] s; simpl.
  - by intros [= <-].
  - by eapply IH.
Qed.

(** C8.  The submission endpoint answers with status 400 and leaves the
    store, the queue and the counters exactly as they were whenever the
    recipient list is empty or holds a malformed address, [startTime]
    cannot be read as an instant, [delaySeconds] is outside [1, 300],
    [hourlyLimit] is outside [1, 1000], or [userId] is absent or is the
    sentinel ['default-user']; and in no state the service can reach does
    a job carry the sentinel as its [userId]. *)
Theorem C8_invalid_requests_rejected :
  (∀ (env : SubmitEnv) (body : ScheduleBody) (w : World),
     rejected_request zod_email Date_parse body →
     ∃ error details,
       post env body w = (Ok (mkResponse 400 (ErrorBody error details)), w))
  ∧ (∀ w : World,
       reachable zod_email zod_datetime Date_parse toISOString orderBy w →
       ∀ k j, jobs w !! k = Some j → job_userId j ≠ sentinel).
Proof.
  split.
  - intros env body w Hrej.
    destruct (parse body) as [paths|data] eqn:Hp.
    { eexists _, _. by apply post_invalid. }
    destruct (parse_inr _ _ _ _ body data Hp)
      as (_ & _ & Hr & Hst & Hd & Hh & Hu & _).
    destruct Hrej as [E|l i s E Hi Hs|s E Hs|n E Hn|n E Hn|E|E].
    + rewrite E in Hr. discriminate.
    + rewrite E in Hr. unfold z_email_array in Hr.
      destruct (z_email_items zod_email "recipients" 0 l) as [es|ss] eqn:Hitems.
      * by destruct (1 <=? length l)%nat.
      * rewrite (z_email_items_ok _ _ _ _ Hitems i s Hi) in Hs. discriminate.
    + rewrite E in Hst. unfold z_startTime, startTime_preprocess in Hst.
      rewrite Hs in Hst. destruct (zod_datetime s) eqn:Hz; [|discriminate].
      apply datetime_parses in Hz. rewrite Hs in Hz. by destruct Hz.
    + rewrite E in Hd. unfold z_number_range in Hd.
      destruct (Z.leb_spec 1 n); destruct (Z.leb_spec n 300); simpl in Hd;
        try discriminate. lia.
    + rewrite E in Hh. unfold z_number_range in Hh.
      destruct (Z.leb_spec 1 n); destruct (Z.leb_spec n 1000); simpl in Hh;
        try discriminate. lia.
    + rewrite E in Hu. discriminate.
    + rewrite E in Hu. injection Hu as Hu.
      eexists _, _. apply (post_sentinel env body data w Hp). by symmetry.
  - intros w Hw. by apply (reachable_sentinel_free _ _ _ _ _ w Hw).
Qed.

End Validation.

(** ** Listing for an address the store does not know *)

Section ListingUnknown.

Variable toISOString : Z → string.
Variable orderBy : (EmailRecipient → option Z) → bool
                   → list (EmailRecipient * EmailJob) → list (EmailRecipient * EmailJob).

(** The store's ordering returns the rows it was given. *)
Hypothesis orderBy_perm : ∀ col desc rows, orderBy col desc rows ≡ₚ rows.

(** A user that owns no job has no rows. *)
Lemma findMany_user_no_jobs (statuses : list RecipientStatus) (userId : string)
    (col : EmailRecipient → option Z) (desc : bool) (w : World) :
  (∀ k j, jobs w !! k = Some j → job_userId j ≠ userId) →
  db_emailRecipient_findMany_user orderBy statuses userId col desc w = (Ok [], w).
Proof.
  intros Hj. unfold db_emailRecipient_findMany_user.
  set (rows := filter _ _).
  assert (rows = []) as ->.
  { apply elem_of_nil_inv. intros [r j]. subst rows.
    rewrite list_elem_of_filter, list_elem_of_omap. simpl.
    intros [[_ Hid] (r' & _ & Hr')].
    destruct (jobs w !! emailJobId r') as [j'|] eqn:E; simpl in Hr'; [|done].
    injection Hr' as <- <-. by eapply Hj. }
  pose proof (orderBy_perm col desc []) as Hp. apply Permutation_nil_r in Hp.
  by rewrite Hp.
Qed.

Lemma sanitized_nonempty (q : string) :
  Text.emailRegex_test (sanitizeEmail q) = true → q ≠ "".
Proof. intros H ->. vm_compute in H. discriminate. Qed.

(** The path of a listing request for an unknown address, up to the query:
    the user is created under a generated identifier. *)
Lemma user_for_get_unknown (empty : ResponseBody) (email : string) (w : World) :
  Text.emailRegex_test email = true →
  find_by_email (users w) email = None →
  users w !! gen_id (nextId w) = None →
  let u := mkUser (gen_id (nextId w)) email (Some (Text.before_at email)) in
  user_for_get empty email w
  = (Ok (inr u),
     log_write (UserCreated u)
       (set_users (insert (gen_id (nextId w)) u) (set_nextId (S (nextId w)) w))).
Proof.
  intros Hre Hf Hid u. unfold user_for_get, getUserByEmail. rewrite Hre. simpl.
  unfold_monad. unfold db_user_findUnique_email. rewrite Hf.
  unfold db_user_create. simpl. by rewrite bool_decide_true.
Qed.

(** C10.  A listing request (scheduled or sent) whose address, once
    trimmed and lower-cased, is well formed and belongs to no stored user,
    on a store whose next generated identifier is unused and whose jobs
    all belong to stored users, creates a user with that address, named
    by the part before the [@], and is answered with status 200 and an
    empty array. *)
Theorem C10_listing_creates_unknown_user (q : string) (w : World) :
  let email := sanitizeEmail q in
  let u := mkUser (gen_id (nextId w)) email (Some (Text.before_at email)) in
  Text.emailRegex_test email = true →
  find_by_email (users w) email = None →
  users w !! gen_id (nextId w) = None →
  (∀ k j, jobs w !! k = Some j → is_Some (users w !! job_userId j)) →
  ∃ w1 w2,
    get_scheduled toISOString orderBy (JString q) w
      = (Ok (mkResponse 200 (ScheduledRows [])), w1)
    ∧ get_sent toISOString orderBy (JString q) w
      = (Ok (mkResponse 200 (SentRows [])), w2)
    ∧ users w1 = <[user_id u := u]> (users w)
    ∧ users w2 = <[user_id u := u]> (users w)
    ∧ new_writes w w1 = [UserCreated u]
    ∧ new_writes w w2 = [UserCreated u].
Proof.
  intros email u Hre Hf Hid Hfk.
  pose proof (sanitized_nonempty q Hre) as Hq.
  set (w' := log_write (UserCreated u)
               (set_users (insert (gen_id (nextId w)) u) (set_nextId (S (nextId w)) w))).
  assert (Hnone : ∀ k j, jobs w' !! k = Some j → job_userId j ≠ user_id u).
  { intros k j Hk Heq. destruct (Hfk k j Hk) as [x Hx].
    rewrite Heq in Hx. simpl in Hx. by rewrite Hid in Hx. }
  exists w', w'. split_and!; try done.
  - unfold get_scheduled, listing. rewrite bool_decide_false by done.
    fold email. rewrite Hre. simpl. unfold_monad.
    rewrite (user_for_get_unknown _ email w Hre Hf Hid). fold u w'.
    by rewrite (findMany_user_no_jobs _ _ _ _ w' Hnone).
  - unfold get_sent, listing. rewrite bool_decide_false by done.
    fold email. rewrite Hre. simpl. unfold_monad.
    rewrite (user_for_get_unknown _ email w Hre Hf Hid). fold u w'.
    by rewrite (findMany_user_no_jobs _ _ _ _ w' Hnone).
  - by apply new_writes_app.
  - by apply new_writes_app.
Qed.

End ListingUnknown.

(** * The properties at work on the examples *)

Lemma C1_witness :
  ∃ jobId job w',
    Sample.post Sample.env_now Sample.body empty_world
      = (Ok (mkResponse 200 (ScheduleOk jobId 3 Sample.instant)), w')
    ∧ jobs w' !! jobId = Some job
    ∧ ∀ i email, ["a@x.com"; "b@x.com"; "c@x.com"] !! i = Some email →
        ∃ r, recipients w' !! gen_id (S 0 + i) = Some r
             ∧ rcp_email r = email ∧ emailJobId r = jobId
             ∧ scheduledAt r = Some (Sample.instant + Z.of_nat i * (5 * 1000))
             ∧ scheduledAt r
               = Some (scheduledFor job + Z.of_nat i * (delaySeconds job * 1000)).
Proof.
  apply (C1_recipient_count_and_stagger Sample.zod_email Sample.zod_datetime
           Sample.Date_parse Sample.toISOString Sample.env_now Sample.body Sample.data
           ["a@x.com"; "b@x.com"; "c@x.com"] Sample.instant empty_world).
  - vm_compute. reflexivity.
  - reflexivity.
  - simpl. discriminate.
  - simpl. discriminate.
  - vm_compute. reflexivity.
  - right. exists "me@x.com". split; [reflexivity|discriminate].
  - intros m _. split; reflexivity.
  - intros i _. reflexivity.
Defined.

Lemma C2_witness :
  let w := OnTheHour.world in
  let w' := snd (worker OnTheHour.env OnTheHour.task_a w) in
  (completed_written "j1" (new_writes w w')
   ↔ ∃ info wc, send_and_mark OnTheHour.env OnTheHour.task_a w = (Ok info, wc)
                ∧ Forall (λ r, rcp_status r = sent) (recipients_of "j1" wc))
  ∧ (completed_written "j1" (new_writes w w')
     → Forall (λ r, rcp_status r = sent) (recipients_of "j1" w')
       ∧ ∀ r, r ∈ recipients_of "j1" w'
              → rcp_status r ≠ pending ∧ rcp_status r ≠ scheduled ∧ rcp_status r ≠ failed).
Proof.
  intros w w'.
  apply (C2_completed_iff_all_sent OnTheHour.env OnTheHour.task_a w w'
           (fst (worker OnTheHour.env OnTheHour.task_a w))).
  - vm_compute. reflexivity.
  - vm_compute. eexists. reflexivity.
Defined.

Lemma C3_witness :
  ∃ w', check_sequence "u1" 2 [OnTheHour.now; OnTheHour.now + 1; OnTheHour.now + 2]
          empty_world
        = (Ok [true; true; false], w')
      ∧ count_at (490896 * HOUR_MS) (rate_limit_key "u1" 490896) w' = 3.
Proof.
  destruct C3_rate_limiter_admits_up_to_limit as [_ H].
  apply (H "u1" 2 490896
           [OnTheHour.now; OnTheHour.now + 1; OnTheHour.now + 2] empty_world).
  - repeat constructor.
  - reflexivity.
Defined.

Lemma C5_witness :
  let e := ErrorObj "Message failed: 550 Mailbox unavailable" in
  ∃ w' r',
    worker OnTheHour.env_failing OnTheHour.task_a OnTheHour.world = (Throw e, w')
    ∧ recipients w' !! "r1" = Some r'
    ∧ rcp_status r' = failed
    ∧ errorMessage r' = Some (message_or_unknown e)
    ∧ (∀ m, e = ErrorObj m → errorMessage r' = Some m)
    ∧ retryCount r' = 0 + 1
    ∧ new_writes OnTheHour.world w' = [RecipientUpdated "r1" r'].
Proof.
  intros e.
  apply (C5_send_failure_marks_failed OnTheHour.env_failing OnTheHour.task_a
           OnTheHour.world
           (snd (checkRateLimit OnTheHour.now "u1" 1 OnTheHour.world))
           (mkEmailRecipient "r1" "a@x.com" "j1" pending (Some OnTheHour.now) None None 0)
           e).
  - vm_compute. reflexivity.
  - reflexivity.
  - vm_compute. reflexivity.
  - vm_compute. reflexivity.
Defined.

Lemma C6_witness :
  ∃ response w',
    Sample.post Sample.env_now Sample.body empty_world = (Ok response, w')
    ∧ ∀ i email, ["a@x.com"; "b@x.com"; "c@x.com"] !! i = Some email →
        let scheduledAt_i := Sample.instant + Z.of_nat i * 5 * 1000 in
        let now := Sample.instant in
        let queueDelay := Z.max 0 (scheduledAt_i - now) in
        (∃ r, recipients w' !! gen_id (S 0 + i) = Some r
              ∧ rcp_email r = email
              ∧ scheduledAt r = Some scheduledAt_i
              ∧ rcp_status r
                = (if bool_decide (queueDelay < 10 * 1000) then pending else scheduled))
        ∧ (@None string = None →
             ∃ q, q ∈ queue w'
                  ∧ t_recipientId (q_data q) = gen_id (S 0 + i)
                  ∧ q_delay q = queueDelay).
Proof.
  apply (C6_status_by_queue_delay Sample.zod_email Sample.zod_datetime
           Sample.Date_parse Sample.toISOString Sample.env_now Sample.body Sample.data
           Sample.instant empty_world).
  - vm_compute. reflexivity.
  - simpl. discriminate.
  - simpl. discriminate.
  - vm_compute. reflexivity.
  - right. exists "me@x.com". split; [reflexivity|discriminate].
  - intros m _. split; reflexivity.
Defined.

Lemma C7_witness :
  ∃ response w' r0 r1 r2,
    Sample.post Sample.env_now Sample.body empty_world = (Ok response, w')
    ∧ recipients w' !! gen_id (S 0 + 0) = Some r0
    ∧ recipients w' !! gen_id (S 0 + 1) = Some r1
    ∧ recipients w' !! gen_id (S 0 + 2) = Some r2
    ∧ (rcp_email r0, rcp_email r1, rcp_email r2) = ("a@x.com", "b@x.com", "c@x.com")
    ∧ scheduledAt r0 = Some Sample.instant
    ∧ scheduledAt r1 = Some (Sample.instant + 5 * 1000)
    ∧ scheduledAt r2 = Some (Sample.instant + 10 * 1000)
    ∧ rcp_status r0 = pending
    ∧ rcp_status r1 = pending
    ∧ (rcp_status r2 = scheduled ↔ Sample.instant = Sample.instant)
    ∧ (rcp_status r2 = pending ↔ Sample.instant < Sample.instant).
Proof.
  apply (C7_three_recipients_five_seconds Sample.zod_email Sample.zod_datetime
           Sample.Date_parse Sample.toISOString Sample.env_now Sample.body Sample.data
           "a@x.com" "b@x.com" "c@x.com" Sample.instant empty_world).
  - vm_compute. reflexivity.
  - reflexivity.
  - reflexivity.
  - simpl. discriminate.
  - simpl. discriminate.
  - vm_compute. reflexivity.
  - right. exists "me@x.com". split; [reflexivity|discriminate].
  - intros m _. split; reflexivity.
  - intros i. simpl. lia.
Defined.

Lemma C8_witness :
  (∃ error details,
     Sample.post Sample.env_now Sample.body_sentinel empty_world
       = (Ok (mkResponse 400 (ErrorBody error details)), empty_world))
  ∧ (∀ k j, jobs (snd (Sample.post Sample.env_now Sample.body empty_world)) !! k = Some j →
            job_userId j ≠ sentinel).
Proof.
  assert (Hparses : ∀ s, Sample.zod_datetime s = true → is_Some (Sample.Date_parse s)).
  { intros s H. unfold Sample.zod_datetime in H. unfold Sample.Date_parse.
    rewrite H. eexists. reflexivity. }
  destruct (C8_invalid_requests_rejected Sample.zod_email Sample.zod_datetime
              Sample.Date_parse Sample.toISOString Sample.orderBy Hparses) as [Ha Hb].
  split.
  - apply Ha. apply userId_sentinel. reflexivity.
  - apply Hb.
    apply (reach_post _ _ _ _ _ empty_world Sample.env_now Sample.body
             (fst (Sample.post Sample.env_now Sample.body empty_world))).
    + apply reach_empty.
    + vm_compute. reflexivity.
Defined.

Lemma C9_witness :
  ∃ response w',
    Sample.post Sample.env_down Sample.body empty_world = (Ok response, w')
    ∧ response = mkResponse 500 (ErrorBody "Failed to schedule email" [])
    ∧ body_ids (res_body response) = []
    ∧ is_Some (jobs w' !! gen_id 0)
    ∧ ∀ i, (i < 3)%nat → is_Some (recipients w' !! gen_id (S 0 + i)).
Proof.
  apply (C9_enqueue_failure_reported_without_ids Sample.zod_email Sample.zod_datetime
           Sample.Date_parse Sample.toISOString Sample.env_down Sample.body Sample.data
           Sample.instant empty_world).
  - vm_compute. reflexivity.
  - simpl. discriminate.
  - simpl. discriminate.
  - vm_compute. reflexivity.
  - right. exists "me@x.com". split; [reflexivity|discriminate].
  - intros m _. split; reflexivity.
  - exists 0%nat. split; [simpl; lia|discriminate].
Defined.

Lemma C10_witness :
  let u := mkUser "c0" "new@x.com" (Some "new") in
  ∃ w1 w2,
    get_scheduled Sample.toISOString Sample.orderBy (JString "  New@X.com ") empty_world
      = (Ok (mkResponse 200 (ScheduledRows [])), w1)
    ∧ get_sent Sample.toISOString Sample.orderBy (JString "  New@X.com ") empty_world
      = (Ok (mkResponse 200 (SentRows [])), w2)
    ∧ users w1 = <["c0" := u]> ∅
    ∧ users w2 = <["c0" := u]> ∅
    ∧ new_writes empty_world w1 = [UserCreated u]
    ∧ new_writes empty_world w2 = [UserCreated u].
Proof.
  apply (C10_listing_creates_unknown_user Sample.toISOString Sample.orderBy
           (λ _ _ rows, reflexivity rows) "  New@X.com " empty_world).
  - vm_compute. reflexivity.
  - vm_compute. reflexivity.
  - reflexivity.
  - intros k j H. simpl in H. rewrite lookup_empty in H. discriminate.
Defined.

(** * Small checks of the text helpers and of the schema *)

Example sanitizeEmail_ex : sanitizeEmail "  Bob@X.com " = "bob@x.com".
Proof. reflexivity. Qed.

Example emailRegex_test_ex :
  Text.emailRegex_test
    <$> ["a@x.com"; "a@x.y.z"; "a@x"; "a@.com"; "a@x."; "@x.com"; "a b@x.com"; "a@@x.com"]
  = [true; true; false; false; false; false; false; false].
Proof. reflexivity. Qed.

Example before_at_ex : Text.before_at "me@x.com" = "me".
Proof. reflexivity. Qed.

Example hour_ceil_ex :
  (hour_ceil 1767225600000 * HOUR_MS, hour_ceil 1767225600001 * HOUR_MS)
  = (1767225600000, 1767229200000).
Proof. reflexivity. Qed.

Example rate_limit_key_ex : rate_limit_key "u1" (hour_floor 1767225600000) = "rate_limit:u1:490896".
Proof. reflexivity. Qed.

Example parse_sample_ex :
  scheduleEmailSchema_parse Sample.zod_email Sample.zod_datetime Sample.Date_parse
    Sample.toISOString Sample.body
  = inr Sample.data.
Proof. reflexivity. Qed.

Example parse_issues_ex :
  scheduleEmailSchema_parse Sample.zod_email Sample.zod_datetime Sample.Date_parse
    Sample.toISOString
    (mkBody (JString "") (JString "x") (JArray [JString "a@x.com"; JString "nobody"])
       (JString "tomorrow") (JNumber 0) (JNumber 1001) JUndefined JUndefined)
  = inl ["subject"; "recipients.1"; "startTime"; "delaySeconds"; "hourlyLimit"; "userId"].
Proof. reflexivity. Qed.

(** * Properties of more of the code *)

(** ** Trimming and lower-casing *)

Lemma lower_lower (c : ascii) : Text.lower (Text.lower c) = Text.lower c.
Proof. by destruct c as [[] [] [] [] [] [] [] []]. Qed.

Lemma is_space_lower (c : ascii) : Text.is_space (Text.lower c) = Text.is_space c.
Proof. by destruct c as [[] [] [] [] [] [] [] []]. Qed.

Lemma drop_spaces_map_lower (l : list ascii) :
  Text.drop_spaces (map Text.lower l) = map Text.lower (Text.drop_spaces l).
Proof.
  induction l as [|c l IH]; simpl; [done|].
  rewrite is_space_lower. by destruct (Text.is_space c).
Qed.

Lemma drop_spaces_starts_plain (l : list ascii) : starts_plain (Text.drop_spaces l).
Proof.
  induction l as [|c l IH]; simpl; [done|].
  by destruct (Text.is_space c) eqn:E.
Qed.

Lemma drop_spaces_plain (l : list ascii) : starts_plain l → Text.drop_spaces l = l.
Proof. destruct l as [|c l]; simpl; [done|]. by intros ->. Qed.

Lemma drop_spaces_suffix (l : list ascii) : ∃ sp, l = (sp ++ Text.drop_spaces l)%list.
Proof.
  induction l as [|c l [sp IH]]; simpl; [by exists []|].
  destruct (Text.is_space c).
  - exists (c :: sp). simpl. by rewrite <- IH.
  - by exists [].
Qed.

(** Dropping trailing white space keeps the first character. *)
Lemma drop_trailing_starts_plain (l : list ascii) :
  starts_plain l → starts_plain (rev (Text.drop_spaces (rev l))).
Proof.
  intros Hl. destruct (drop_spaces_suffix (rev l)) as [sp Hsp].
  set (d := Text.drop_spaces (rev l)) in *.
  assert (l = (rev d ++ rev sp)%list) as Hl'.
  { rewrite <- rev_app_distr, <- Hsp. by rewrite rev_involutive. }
  destruct (rev d) as [|c t] eqn:E; [done|].
  rewrite Hl' in Hl. exact Hl.
Qed.

Lemma trim_list_idem (l : list ascii) :
  let t := rev (Text.drop_spaces (rev (Text.drop_spaces l))) in
  rev (Text.drop_spaces (rev (Text.drop_spaces t))) = t.
Proof.
  intros t.
  assert (starts_plain t) as Ht
    by apply drop_trailing_starts_plain, drop_spaces_starts_plain.
  rewrite (drop_spaces_plain t Ht). subst t. rewrite rev_involutive.
  rewrite (drop_spaces_plain (Text.drop_spaces _)); [done|].
  apply drop_spaces_starts_plain.
Qed.

Lemma trim_idem (s : string) : Text.trim (Text.trim s) = Text.trim s.
Proof.
  unfold Text.trim. rewrite String.list_ascii_of_string_of_list_ascii.
  by rewrite trim_list_idem.
Qed.

Lemma toLowerCase_idem (s : string) : Text.toLowerCase (Text.toLowerCase s) = Text.toLowerCase s.
Proof.
  unfold Text.toLowerCase. rewrite String.list_ascii_of_string_of_list_ascii.
  rewrite List.map_map. f_equal. apply List.map_ext. intros c. apply lower_lower.
Qed.

Lemma trim_toLowerCase (s : string) :
  Text.trim (Text.toLowerCase s) = Text.toLowerCase (Text.trim s).
Proof.
  unfold Text.trim, Text.toLowerCase.
  rewrite !String.list_ascii_of_string_of_list_ascii. f_equal.
  rewrite drop_spaces_map_lower, <- List.map_rev, drop_spaces_map_lower.
  by rewrite List.map_rev.
Qed.

(** X1.  [sanitizeEmail] is idempotent: an address that went through it is
    left as it is by a second pass. *)
Theorem X1_sanitizeEmail_idempotent (email : string) :
  sanitizeEmail (sanitizeEmail email) = sanitizeEmail email.
Proof.
  unfold sanitizeEmail.
  by rewrite trim_toLowerCase, toLowerCase_idem, trim_idem.
Qed.

(** X2.  The gateway lower-cases and then trims, the service trims and then
    lower-cases: the two give the same address, so the address the gateway
    forwards is one the service's [sanitizeEmail] leaves unchanged. *)
Theorem X2_gateway_and_service_normalise_alike (email : string) :
  gateway_normalize email = sanitizeEmail email
  ∧ sanitizeEmail (gateway_normalize email) = gateway_normalize email.
Proof.
  unfold gateway_normalize, sanitizeEmail. split.
  - apply trim_toLowerCase.
  - by rewrite trim_toLowerCase, trim_toLowerCase, toLowerCase_idem, trim_idem.
Qed.

(** ** The address pattern *)

Lemma is_at_true (c : ascii) : Text.is_at c = true → c = "@"%char.
Proof.
  destruct c as [[] [] [] [] [] [] [] []]; (reflexivity || (vm_compute; discriminate)).
Qed.

Lemma is_dot_true (c : ascii) : Text.is_dot c = true → c = "."%char.
Proof.
  destruct c as [[] [] [] [] [] [] [] []]; (reflexivity || (vm_compute; discriminate)).
Qed.

Lemma plain_not_at (c : ascii) : Text.plain c = true → Text.is_at c = false.
Proof. unfold Text.plain. by destruct (Text.is_at c), (Text.is_space c). Qed.

Lemma app_cons (c : ascii) (a b : string) : String c a +:+ b = String c (a +:+ b).
Proof. reflexivity. Qed.

Lemma after_at_split (s d : string) :
  Text.after_at s = Some d → s = Text.before_at s +:+ String "@" d.
Proof.
  induction s as [|c s IH]; simpl; [done|].
  destruct (Text.is_at c) eqn:E.
  - intros [= ->]. by rewrite (is_at_true c E).
  - intros H. rewrite app_cons. f_equal. by apply IH.
Qed.

Lemma at_split_plain (a r : string) :
  Text.all_plain a = true →
  Text.before_at (a +:+ String "@" r) = a ∧ Text.after_at (a +:+ String "@" r) = Some r.
Proof.
  unfold Text.all_plain. induction a as [|c a IH]; [done|].
  rewrite app_cons. simpl.
  intros [Hc Ha]%andb_true_iff. rewrite (plain_not_at c Hc).
  destruct (IH Ha) as [-> ->]. done.
Qed.

Lemma list_ascii_of_string_app (a b : string) :
  String.list_ascii_of_string (a +:+ b)
  = (String.list_ascii_of_string a ++ String.list_ascii_of_string b)%list.
Proof. induction a as [|c a IH]; [done|]. rewrite app_cons. simpl. by rewrite IH. Qed.

Lemma string_of_list_ascii_app (l1 l2 : list ascii) :
  String.string_of_list_ascii (l1 ++ l2)
  = String.string_of_list_ascii l1 +:+ String.string_of_list_ascii l2.
Proof. induction l1 as [|c l1 IH]; [done|]. simpl. by rewrite IH, app_cons. Qed.

Lemma all_plain_app (a b : string) :
  Text.all_plain (a +:+ b) = Text.all_plain a && Text.all_plain b.
Proof. unfold Text.all_plain. by rewrite list_ascii_of_string_app, forallb_app. Qed.

Lemma inner_dot_split (l : list ascii) :
  ∀ seen, Text.inner_dot seen l = true →
    ∃ bl d cl, l = (bl ++ d :: cl)%list ∧ Text.is_dot d = true ∧ cl ≠ []
               ∧ (seen = true ∨ bl ≠ []).
Proof.
  induction l as [|c l IH]; intros seen; simpl; [done|].
  destruct l as [|x l']; [done|].
  intros [[Hs Hd]%andb_true_iff|H]%orb_true_iff.
  - exists [], c, (x :: l'). split_and!; auto.
  - destruct (IH true H) as (bl & d & cl & E & Hd & Hcl & _).
    exists (c :: bl), d, cl. split_and!; auto. simpl. by rewrite E.
Qed.

Lemma inner_dot_joined (bl cl : list ascii) (d : ascii) :
  ∀ seen, Text.is_dot d = true → cl ≠ [] → (seen = true ∨ bl ≠ []) →
    Text.inner_dot seen (bl ++ d :: cl) = true.
Proof.
  induction bl as [|c bl IH]; intros seen Hd Hcl Hseen.
  - destruct Hseen as [->|?]; [|done]. destruct cl as [|x cl]; [done|].
    simpl. by rewrite Hd.
  - change ((c :: bl) ++ d :: cl)%list with (c :: (bl ++ d :: cl))%list.
    specialize (IH true Hd Hcl (or_introl eq_refl)).
    destruct (bl ++ d :: cl)%list as [|x t] eqn:E.
    { by destruct bl. }
    change (Text.inner_dot seen (c :: x :: t))
      with ((seen && Text.is_dot c) || Text.inner_dot true (x :: t)).
    rewrite IH. apply orb_true_r.
Qed.

(** X3.  The address pattern [/^[^\s@]+@[^\s@]+\.[^\s@]+$/] accepts exactly
    the texts of the form [a@b.c] in which [a], [b] and [c] are non-empty
    and free of white space and of [@]. *)
Theorem X3_emailRegex_accepts (s : string) :
  Text.emailRegex_test s = true
  ↔ ∃ a b c, s = a +:+ "@" +:+ b +:+ "." +:+ c
             ∧ plain_text a ∧ plain_text b ∧ plain_text c.
Proof.
  unfold Text.emailRegex_test, plain_text. split.
  - destruct (Text.after_at s) as [domain|] eqn:E; [|done].
    intros [[[Hlen Hloc]%andb_true_iff Hdom]%andb_true_iff Hdot]%andb_true_iff.
    destruct (inner_dot_split _ _ Hdot) as (bl & d & cl & El & Hd & Hcl & [?|Hbl]); [done|].
    apply is_dot_true in Hd. subst d.
    assert (domain = String.string_of_list_ascii bl
                     +:+ String "." (String.string_of_list_ascii cl)) as Edom.
    { rewrite <- (String.string_of_list_ascii_of_string domain), El.
      by rewrite string_of_list_ascii_app. }
    unfold Text.all_plain in Hdom. rewrite El, forallb_app in Hdom.
    apply andb_true_iff in Hdom as [Hb [_ Hc]%andb_true_iff].
    exists (Text.before_at s), (String.string_of_list_ascii bl),
      (String.string_of_list_ascii cl).
    split_and!.
    + rewrite (after_at_split s domain E) at 1. by rewrite Edom.
    + intros Hempty. rewrite Hempty in Hlen. done.
    + done.
    + by destruct bl.
    + unfold Text.all_plain. by rewrite String.list_ascii_of_string_of_list_ascii.
    + by destruct cl.
    + unfold Text.all_plain. by rewrite String.list_ascii_of_string_of_list_ascii.
  - intros (a & b & c & -> & [Ha Hpa] & [Hb Hpb] & [Hc Hpc]).
    change (a +:+ "@" +:+ b +:+ "." +:+ c) with (a +:+ String "@" (b +:+ String "." c)).
    destruct (at_split_plain a (b +:+ String "." c) Hpa) as [-> ->].
    apply andb_true_iff. split; [apply andb_true_iff; split; [apply andb_true_iff; split|]|].
    + by destruct a.
    + done.
    + rewrite all_plain_app, Hpb. simpl.
      change (Text.all_plain (String "." c)) with (Text.plain "." && Text.all_plain c).
      by rewrite Hpc.
    + rewrite list_ascii_of_string_app. simpl. apply inner_dot_joined.
      * done.
      * by destruct c.
      * right. by destruct b.
Qed.

(** ** The domain filter *)

Lemma is_at_lower (c : ascii) : Text.is_at (Text.lower c) = Text.is_at c.
Proof. by destruct c as [[] [] [] [] [] [] [] []]. Qed.

Lemma toLowerCase_cons (c : ascii) (s : string) :
  Text.toLowerCase (String c s) = String (Text.lower c) (Text.toLowerCase s).
Proof. reflexivity. Qed.

Lemma split_at_nonempty (s : string) : split_at s ≠ [].
Proof.
  induction s as [|c s IH]; simpl; [done|].
  destruct (Text.is_at c); [done|]. by destruct (split_at s).
Qed.

Lemma split_at_head (s : string) : head (split_at s) = Some (Text.before_at s).
Proof.
  induction s as [|c s IH]; simpl; [done|].
  destruct (Text.is_at c); [done|].
  destruct (split_at s) as [|seg rest]; simpl in *; [done|]. by injection IH as ->.
Qed.

(** The segment after the first [@] is the text up to the next [@]. *)
Lemma split_at_second (s : string) :
  split_at s !! 1%nat = Text.before_at <$> Text.after_at s.
Proof.
  induction s as [|c s IH]; simpl; [done|].
  destruct (Text.is_at c).
  - simpl. pose proof (split_at_head s) as H.
    by destruct (split_at s).
  - pose proof (split_at_nonempty s) as H.
    destruct (split_at s) as [|seg rest]; [done|]. exact IH.
Qed.

Lemma before_at_plain (s : string) : Text.all_plain s = true → Text.before_at s = s.
Proof.
  unfold Text.all_plain. induction s as [|c s IH]; simpl; [done|].
  intros [Hc Hs]%andb_true_iff. rewrite (plain_not_at c Hc). by rewrite IH.
Qed.

Lemma split_at_toLowerCase (s : string) :
  split_at (Text.toLowerCase s) = Text.toLowerCase <$> split_at s.
Proof.
  induction s as [|c s IH]; [done|].
  rewrite toLowerCase_cons. simpl. rewrite is_at_lower, IH.
  destruct (Text.is_at c); [done|]. by destruct (split_at s).
Qed.

(** X4.  [isAllowedDomain] lets every address through when no list or an
    empty list is given.  With a non-empty list it throws a [TypeError] on
    an address without [@], and on an address that matches the address
    pattern it answers whether the lower-cased domain, all of the text
    after the [@], is in the list. *)
Theorem X4_isAllowedDomain_cases (email : string) (d : string) (ds : list string) :
  isAllowedDomain email None = Ok true
  ∧ isAllowedDomain email (Some []) = Ok true
  ∧ (Text.after_at email = None →
       isAllowedDomain email (Some (d :: ds)) = Throw undefined_toLowerCase)
  ∧ (Text.emailRegex_test email = true →
       ∃ domain, Text.after_at email = Some domain
                 ∧ isAllowedDomain email (Some (d :: ds))
                   = Ok (bool_decide (Text.toLowerCase domain ∈ d :: ds))).
Proof.
  split_and!; [done|done|..].
  - intros H. unfold isAllowedDomain. by rewrite split_at_second, H.
  - unfold Text.emailRegex_test, isAllowedDomain. rewrite split_at_second.
    destruct (Text.after_at email) as [domain|]; [|done].
    intros [[_ Hdom]%andb_true_iff _]%andb_true_iff.
    exists domain. split; [done|]. simpl. by rewrite (before_at_plain domain Hdom).
Qed.

(** X5.  [isAllowedDomain] lower-cases the address but compares with the
    list entries as they are written: its answer does not depend on the
    letter case of the address, and a list whose entries all contain an
    upper-case letter admits no address at all. *)
Theorem X5_isAllowedDomain_letter_case (email : string) (domains : option (list string)) :
  isAllowedDomain (Text.toLowerCase email) domains = isAllowedDomain email domains
  ∧ ∀ d ds, domains = Some (d :: ds) →
      (∀ x, x ∈ d :: ds → Text.toLowerCase x ≠ x) →
      isAllowedDomain email domains ≠ Ok true.
Proof.
  split.
  - unfold isAllowedDomain. destruct domains as [[|d ds]|]; [done| |done].
    rewrite split_at_toLowerCase, list_lookup_fmap.
    destruct (split_at email !! 1%nat) as [seg|]; simpl; [|done].
    by rewrite toLowerCase_idem.
  - intros d ds -> Hup. unfold isAllowedDomain.
    destruct (split_at email !! 1%nat) as [seg|]; [|done].
    intros [= H%bool_decide_eq_true]. apply (Hup _ H), toLowerCase_idem.
Qed.

(** ** The counters of the rate limiter *)

Lemma pretty_N_char_no_colon (x : N) : pretty_N_char x ≠ ":"%char.
Proof. unfold pretty_N_char. by repeat case_match. Qed.

Lemma pretty_N_go_colon_free (x : N) :
  ∀ s, colon_free s → colon_free (pretty_N_go x s).
Proof.
  induction (N.lt_wf_0 x) as [x _ IH]; intros s Hs.
  assert (x = 0 ∨ 0 < x)%N as [->|Hx] by lia.
  - by rewrite pretty_N_go_0.
  - rewrite pretty_N_go_step by done. apply IH.
    + by apply N.div_lt.
    + constructor; [apply pretty_N_char_no_colon|done].
Qed.

Lemma pretty_N_colon_free (x : N) : colon_free (pretty x).
Proof.
  unfold pretty, pretty_N. case_decide.
  - repeat constructor. discriminate.
  - apply pretty_N_go_colon_free. constructor.
Qed.

Lemma pretty_Z_colon_free (z : Z) : colon_free (pretty z).
Proof.
  unfold pretty, pretty_Z. destruct z as [|p|p].
  - repeat constructor. discriminate.
  - apply (pretty_N_colon_free (Npos p)).
  - constructor; [discriminate|]. apply (pretty_N_colon_free (Npos p)).
Qed.

(** A text is cut in one way only at its last colon. *)
Lemma last_colon_inj (u1 u2 p1 p2 : string) :
  colon_free p1 → colon_free p2 →
  u1 +:+ String ":" p1 = u2 +:+ String ":" p2 → u1 = u2 ∧ p1 = p2.
Proof.
  intros H1 H2. revert u2.
  induction u1 as [|c u1 IH]; intros [|c' u2]; rewrite ?app_cons.
  - by intros [= ->].
  - intros [= <- ->]. unfold colon_free in H1.
    rewrite list_ascii_of_string_app, Forall_app in H1. destruct H1 as [_ H1].
    by inversion H1.
  - intros [= -> <-]. unfold colon_free in H2.
    rewrite list_ascii_of_string_app, Forall_app in H2. destruct H2 as [_ H2].
    by inversion H2.
  - intros [= -> H]. destruct (IH _ H) as [-> ->]. done.
Qed.

Lemma rate_limit_key_inj (u1 u2 : string) (h1 h2 : Z) :
  rate_limit_key u1 h1 = rate_limit_key u2 h2 → u1 = u2 ∧ h1 = h2.
Proof.
  unfold rate_limit_key. intros H%(inj (String.append "rate_limit:")).
  apply last_colon_inj in H as [-> H]; try apply pretty_Z_colon_free.
  by apply (inj pretty) in H as ->.
Qed.

(** [checkRateLimit] touches the key of its user and hour and no other. *)
Lemma checkRateLimit_other_keys (now : Z) (userId : string) (hourlyLimit : Z) (w : World)
    (key : string) :
  key ≠ rate_limit_key userId (hour_floor now) →
  redis (snd (checkRateLimit now userId hourlyLimit w)) !! key = redis w !! key.
Proof.
  intros Hne. unfold checkRateLimit. unfold_monad. unfold redis_incr, redis_expire. simpl.
  case_bool_decide; simpl.
  - destruct (redis_get now _ (set_redis _ w)); simpl;
      by rewrite ?lookup_insert_ne by done.
  - by rewrite lookup_insert_ne.
Qed.

(** X6.  The counters of the rate limiter are kept apart: the key of a user
    and an hour determines both, and a call for one user in one hour leaves
    the count of every other user, and of the same user in every other
    hour, as it was. *)
Theorem X6_rate_limit_counters_independent (now : Z) (userId : string) (hourlyLimit : Z)
    (w : World) (userId' : string) (h' t : Z) :
  (userId', h') ≠ (userId, hour_floor now) →
  rate_limit_key userId' h' ≠ rate_limit_key userId (hour_floor now)
  ∧ count_at t (rate_limit_key userId' h') (snd (checkRateLimit now userId hourlyLimit w))
    = count_at t (rate_limit_key userId' h') w.
Proof.
  intros Hne.
  assert (rate_limit_key userId' h' ≠ rate_limit_key userId (hour_floor now)) as Hk.
  { intros [-> ->]%rate_limit_key_inj. done. }
  split; [done|]. unfold count_at, redis_get.
  by rewrite checkRateLimit_other_keys.
Qed.

(** ** What a run of the worker leaves alone *)

Lemma row_step_refl (r : EmailRecipient) : row_step r r.
Proof. unfold row_step. split_and!; (done || lia). Qed.

Lemma row_step_trans (r0 r1 r2 : EmailRecipient) :
  row_step r0 r1 → row_step r1 r2 → row_step r0 r2.
Proof.
  intros (? & ? & ? & ?) (? & ? & ? & ?). unfold row_step.
  split_and!; (congruence || lia).
Qed.

Lemma job_step_trans (j0 j1 j2 : EmailJob) : job_step j0 j1 → job_step j1 j2 → job_step j0 j2.
Proof. intros [->| ->] [->| ->]; unfold job_step; auto. Qed.

Lemma worker_frame_refl (data : SendEmailJobData) (w : World) : worker_frame data w w.
Proof.
  unfold worker_frame. split_and!; try done.
  - destruct (recipients w !! t_recipientId data); constructor. apply row_step_refl.
  - destruct (jobs w !! t_jobId data); constructor. by left.
Qed.

Section WorkerFrame.

Variables (data : SendEmailJobData) (w0 : World).

Lemma keeps_frame_redis {A} (m : M A) :
  (∀ w, users (snd (m w)) = users w ∧ queue (snd (m w)) = queue w
        ∧ nextId (snd (m w)) = nextId w ∧ recipients (snd (m w)) = recipients w
        ∧ jobs (snd (m w)) = jobs w) →
  keeps (worker_frame data w0) m.
Proof.
  intros H w Hw. destruct (H w) as (Eu & Eq & En & Er & Ej).
  unfold worker_frame in *. by rewrite Eu, Eq, En, Er, Ej.
Qed.

Lemma keeps_frame_recipient (f : EmailRecipient → EmailRecipient) :
  (∀ r, row_step r (f r)) →
  keeps (worker_frame data w0) (db_emailRecipient_update (t_recipientId data) f).
Proof.
  intros Hf w (Eu & Eq & En & Hr & Hj & Hrow & Hjob). unfold db_emailRecipient_update.
  destruct (recipients w !! t_recipientId data) as [r|] eqn:E; simpl.
  - unfold worker_frame. simpl. split_and!; try done.
    + intros id Hid. rewrite lookup_insert_ne by done. by apply Hr.
    + rewrite lookup_insert_eq. inversion Hrow as [r0 r' Hstep|]; subst.
      constructor. eapply row_step_trans; [exact Hstep|apply Hf].
  - unfold worker_frame. rewrite E. by split_and!.
Qed.

Lemma keeps_frame_job :
  keeps (worker_frame data w0) (db_emailJob_update (t_jobId data) job_completed).
Proof.
  intros w (Eu & Eq & En & Hr & Hj & Hrow & Hjob). unfold db_emailJob_update.
  destruct (jobs w !! t_jobId data) as [j|] eqn:E; simpl.
  - unfold worker_frame. simpl. split_and!; try done.
    + intros k Hk. rewrite lookup_insert_ne by done. by apply Hj.
    + rewrite lookup_insert_eq. inversion Hjob as [j0 j' Hstep|]; subst.
      constructor. eapply job_step_trans; [exact Hstep|]. by right.
  - unfold worker_frame. rewrite E. by split_and!.
Qed.

Lemma keeps_frame_worker (env : WorkerEnv) : keeps (worker_frame data w0) (worker env data).
Proof.
  assert (∀ now key, keeps (worker_frame data w0) (redis_incr now key))
    by (intros; by apply keeps_frame_redis).
  assert (∀ now key secs, keeps (worker_frame data w0) (redis_expire now key secs)).
  { intros. apply keeps_frame_redis. intros w. unfold redis_expire.
    by destruct (redis_get now key w). }
  assert (∀ jobId, keeps (worker_frame data w0) (db_emailRecipient_findMany_job jobId))
    by (intros; by apply keeps_frame_redis).
  assert (∀ st t, keeps (worker_frame data w0)
            (db_emailRecipient_update (t_recipientId data) (data_schedule st t))).
  { intros. apply keeps_frame_recipient. intros r. unfold row_step. simpl.
    split_and!; (done || lia). }
  assert (∀ t, keeps (worker_frame data w0)
            (db_emailRecipient_update (t_recipientId data) (data_sent t))).
  { intros. apply keeps_frame_recipient. intros r. unfold row_step. simpl.
    split_and!; (done || lia). }
  assert (∀ msg, keeps (worker_frame data w0)
            (db_emailRecipient_update (t_recipientId data) (data_failed msg))).
  { intros. apply keeps_frame_recipient. intros r. unfold row_step. simpl.
    split_and!; (done || lia). }
  pose proof keeps_frame_job.
  unfold worker, worker_body, worker_catch, send_and_mark, completion_check, checkRateLimit.
  repeat keeps_step; auto.
Qed.

End WorkerFrame.

(** X7.  A run of the worker changes nothing but the counters of the rate
    limiter, the row of the task's recipient and the status of the task's
    job: users, queue, every other recipient and every other job are as
    before, no row is created or deleted, the recipient keeps its
    identifier, address and job while its [retryCount] never goes down,
    and the job is either untouched or set to [completed]. *)
Theorem X7_worker_touches_its_own_rows_only (env : WorkerEnv) (data : SendEmailJobData)
    (w : World) :
  worker_frame data w (snd (worker env data w)).
Proof. apply keeps_frame_worker, worker_frame_refl. Qed.

(** ** A failed attempt followed by a delivery *)

(** The run that delivers, in full. *)
Lemma worker_delivered (env : WorkerEnv) (data : SendEmailJobData) (w w1 : World)
    (r : EmailRecipient) (messageId : string) :
  checkRateLimit (now_check env) (t_userId data) (t_hourlyLimit data) w = (Ok true, w1) →
  mail env = Delivered messageId →
  recipients w !! t_recipientId data = Some r →
  is_Some (jobs w !! t_jobId data) →
  fst (worker env data w) = Ok messageId
  ∧ recipients (snd (worker env data w)) !! t_recipientId data
    = Some (data_sent (now_sent env) r).
Proof.
  intros E Hm Hr [j Hj].
  destruct (checkRateLimit_frame (now_check env) (t_userId data) (t_hourlyLimit data) w)
    as (b & r0 & E'). rewrite E in E'. injection E' as <- ->.
  unfold worker, worker_body. unfold_monad.
  rewrite (send_and_mark_cases env data w _ true E). simpl. rewrite Hm, Hr.
  set (wc := log_write _ _).
  rewrite (completion_check_cases data wc). simpl.
  change (jobs wc) with (jobs w). rewrite Hj.
  destruct (forallb _ _); simpl; by rewrite lookup_insert_eq.
Qed.

(** X8.  When a task fails in the mail transport and is delivered on its
    next run (both runs admitted by the rate limiter), the second run
    returns the message id and leaves the recipient [sent] with
    [sentAt] set, while [retryCount] still counts the failed attempt and
    [errorMessage] still holds the message of the failure. *)
Theorem X8_delivery_after_a_failure (env1 env2 : WorkerEnv) (data : SendEmailJobData)
    (w : World) (r : EmailRecipient) (e : Thrown) (messageId : string) :
  recipients w !! t_recipientId data = Some r →
  is_Some (jobs w !! t_jobId data) →
  fst (checkRateLimit (now_check env1) (t_userId data) (t_hourlyLimit data) w) = Ok true →
  mail env1 = MailFailed e →
  is_rate_limit_signal e = false →
  let w1 := snd (worker env1 data w) in
  fst (checkRateLimit (now_check env2) (t_userId data) (t_hourlyLimit data) w1) = Ok true →
  mail env2 = Delivered messageId →
  fst (worker env1 data w) = Throw e
  ∧ fst (worker env2 data w1) = Ok messageId
  ∧ ∃ r2, recipients (snd (worker env2 data w1)) !! t_recipientId data = Some r2
          ∧ rcp_status r2 = sent
          ∧ sentAt r2 = Some (now_sent env2)
          ∧ retryCount r2 = retryCount r + 1
          ∧ errorMessage r2 = Some (message_or_unknown e).
Proof.
  intros Hr Hj Ha1 Hm1 Hs w1 Ha2 Hm2.
  destruct (checkRateLimit (now_check env1) (t_userId data) (t_hourlyLimit data) w)
    as [b1 wa] eqn:E1. simpl in Ha1. subst b1.
  pose proof (worker_mail_failed env1 data w wa r e E1 Hm1 Hs Hr) as Hrun1.
  simpl in Hrun1.
  destruct (checkRateLimit_frame (now_check env1) (t_userId data) (t_hourlyLimit data) w)
    as (b & r0 & E'). rewrite E1 in E'. injection E' as <- ->.
  assert (recipients w1 !! t_recipientId data
          = Some (data_failed (message_or_unknown e) r)) as Hr1.
  { subst w1. rewrite Hrun1. simpl. apply lookup_insert_eq. }
  assert (is_Some (jobs w1 !! t_jobId data)) as Hj1.
  { subst w1. rewrite Hrun1. exact Hj. }
  destruct (checkRateLimit (now_check env2) (t_userId data) (t_hourlyLimit data) w1)
    as [b2 wb] eqn:E2. simpl in Ha2. subst b2.
  destruct (worker_delivered env2 data w1 wb _ messageId E2 Hm2 Hr1 Hj1) as [Hres Hrow].
  split_and!.
  - by rewrite Hrun1.
  - done.
  - eexists. split; [exact Hrow|]. by split_and!.
Qed.

(** ** More on the submission handler *)

(** The three ways a submission finds its owner, and the one way it does
    not. *)
Lemma resolve_user_cases (data : ScheduleData) (w : World) :
  match users w !! d_userId data with
  | Some u => resolve_user data w = (Ok (inr u), w)
  | None =>
      match d_userEmail data with
      | None | Some "" =>
          resolve_user data w
          = (Ok (inl (mkResponse 400
                        (ErrorBody "User email is required. Please log in again." []))), w)
      | Some e =>
          match find_by_email (users w) e with
          | Some u0 => resolve_user data w = (Ok (inr u0), w)
          | None =>
              let u := mkUser (d_userId data) e (Some (Text.before_at e)) in
              resolve_user data w
              = (Ok (inr u), log_write (UserCreated u) (set_users (insert (d_userId data) u) w))
          end
      end
  end.
Proof.
  unfold resolve_user. unfold_monad. unfold db_user_findUnique_id.
  destruct (users w !! d_userId data) as [u|] eqn:Hu; [done|].
  destruct (d_userEmail data) as [[|a s]|]; [done| |done].
  unfold db_user_create. simpl. rewrite Hu.
  destruct (find_by_email (users w) (String a s)) as [u0|] eqn:Hf.
  - rewrite bool_decide_false by (by intros [_ ?]). simpl.
    unfold db_user_findUnique_email. by rewrite Hf.
  - by rewrite bool_decide_true.
Qed.

Section SubmissionMore.

Variable zod_email : string → bool.
Variable zod_datetime : string → bool.
Variable Date_parse : string → option Z.
Variable toISOString : Z → string.

Local Abbreviation parse := (scheduleEmailSchema_parse zod_email zod_datetime Date_parse toISOString).
Local Abbreviation post := (post_schedule zod_email zod_datetime Date_parse toISOString).

(** All that an accepted submission does to the store, given the owner it
    resolves to. *)
Lemma post_schedule_effect (env : SubmitEnv) (body : ScheduleBody) (data : ScheduleData)
    (t0 : Z) (w wu : World) (u : User) :
  parse body = inr data →
  d_userId data ≠ "default-user" → d_userId data ≠ "" →
  Date_parse (d_startTime data) = Some t0 →
  resolve_user data w = (Ok (inr u), wu) → fresh_ids w →
  let n := nextId w in
  let N := length (d_recipients data) in
  let job := mkEmailJob (gen_id n) (d_subject data) (d_body data) t0 (d_delaySeconds data)
               (d_hourlyLimit data) default_job_status (user_id u) in
  ∃ o w', post env body w = (Ok o, w')
    ∧ users w' = users wu
    ∧ jobs w' = <[gen_id n := job]> (jobs w)
    ∧ nextId w' = (S n + N)%nat
    ∧ (∀ i email, d_recipients data !! i = Some email →
         recipients w' !! gen_id (S n + i)
         = Some (row_after env data t0 i
                   (new_recipient (gen_id (S n + i)) email (gen_id n) pending)))
    ∧ (∀ id, (∀ i, (i < N)%nat → id ≠ gen_id (S n + i)) →
         recipients w' !! id = recipients w !! id)
    ∧ ((∀ i, (i < N)%nat → refusal env i = None) →
         o = mkResponse 200 (ScheduleOk (gen_id n) N t0))
    ∧ fresh_ids w'.
Proof.
  intros Hp Hs He Ht Eu Hfresh n N job.
  unfold post_schedule, schedule_try, parse_or_throw. rewrite Hp. unfold_monad.
  rewrite !bool_decide_false by done. simpl.
  destruct (resolve_user_spec data w) as (ou & wu' & Eu' & Hj & Hr & Hn & _).
  rewrite Eu in Eu'. injection Eu' as <- <-. rewrite Eu.
  unfold db_emailJob_create. rewrite Ht. rewrite Hn. fold n.
  set (rs := imap _ _).
  assert (Hids : ∀ r, r ∈ rs → ∃ i, (i < N)%nat ∧ rcp_id r = gen_id (S n + i)).
  { intros r [i Hi]%list_elem_of_lookup_1. subst rs. rewrite created_rows_lookup in Hi.
    destruct (d_recipients data !! i) eqn:Hl; [|done].
    apply lookup_lt_Some in Hl. apply (inj Some) in Hi. subst r. by exists i. }
  rewrite bool_decide_true; last first.
  { split.
    - rewrite Hj. by apply Hfresh.
    - apply Forall_forall. intros r (i & _ & Hi)%Hids.
      rewrite Hi, Hr. apply Hfresh. unfold n. lia. }
  set (w2 := log_write _ _).
  destruct (promise_all_schedule env data t0 job u rs 0 w2)
    as (o & w' & E & Hu' & Hj' & Hn' & Hrows & Hoth & _ & _ & Hres).
  { apply created_rows_NoDup. }
  { intros r Hin. subst w2. simpl. apply insert_recipients_in; [|done].
    apply created_rows_NoDup. }
  simpl. fold job. rewrite E.
  assert (Hlen : length rs = N).
  { subst rs N. by rewrite length_imap, length_fmap. }
  assert (Hnotin : ∀ id, (∀ i, (i < N)%nat → id ≠ gen_id (S n + i)) → id ∉ rcp_id <$> rs).
  { intros id Hid [r [-> Hin]]%list_elem_of_fmap.
    destruct (Hids r Hin) as (i & Hi & Heq). by apply (Hid i Hi). }
  assert (Hrcp : ∀ id, (∀ i, (i < N)%nat → id ≠ gen_id (S n + i)) →
            recipients w' !! id = recipients w !! id).
  { intros id Hid. rewrite (Hoth id (Hnotin id Hid)). subst w2. simpl.
    rewrite insert_recipients_notin by auto. by rewrite Hr. }
  assert (Hfinal : users w' = users wu ∧ jobs w' = <[gen_id n := job]> (jobs w)
                   ∧ nextId w' = (S n + N)%nat
                   ∧ (∀ i email, d_recipients data !! i = Some email →
                        recipients w' !! gen_id (S n + i)
                        = Some (row_after env data t0 i
                                  (new_recipient (gen_id (S n + i)) email (gen_id n) pending)))
                   ∧ (∀ id, (∀ i, (i < N)%nat → id ≠ gen_id (S n + i)) →
                        recipients w' !! id = recipients w !! id)
                   ∧ fresh_ids w').
  { split_and!.
    - by rewrite Hu'.
    - rewrite Hj'. subst w2. simpl. by rewrite Hj.
    - rewrite Hn'. subst w2 N. simpl. by rewrite length_fmap.
    - intros i email Hi.
      specialize (Hrows i (new_recipient (gen_id (S n + i)) email (gen_id n) pending)).
      simpl in Hrows. apply Hrows. subst rs. rewrite created_rows_lookup. by rewrite Hi.
    - done.
    - intros m Hm. rewrite Hn' in Hm. subst w2. simpl in Hm. rewrite length_fmap in Hm.
      fold n N in Hm. destruct (Hfresh m ltac:(unfold n in *; lia)) as [Hjm Hrm]. split.
      + rewrite Hj'. simpl. rewrite lookup_insert_ne; [by rewrite Hj|].
        intros Heq%(inj gen_id). lia.
      + rewrite Hrcp; [done|]. intros i Hi Heq%(inj gen_id). lia. }
  destruct Hfinal as (F1 & F2 & F3 & F4 & F5 & F6).
  rewrite Hlen in Hres. simpl in Hres.
  destruct Hres as [(us & -> & Hall)|(m & -> & i & Hi & Hne)].
  - eexists _, _. split; [reflexivity|]. split_and!; try done.
    intros _. by rewrite Hlen.
  - eexists _, _. split; [reflexivity|]. split_and!; try done.
    intros Hall. by rewrite Hall in Hne.
Qed.

End SubmissionMore.

Lemma verifyUserOwnsJob_spec (userId jobId : string) (w : World) :
  verifyUserOwnsJob userId jobId w
  = (Ok (match jobs w !! jobId with
         | Some j => bool_decide (job_userId j = userId)
         | None => false
         end), w).
Proof.
  unfold verifyUserOwnsJob, db_emailJob_findUnique. unfold_monad.
  by destruct (jobs w !! jobId).
Qed.

Lemma verifyUserOwnsRecipient_spec (userId recipientId : string) (w : World) :
  verifyUserOwnsRecipient userId recipientId w
  = (Ok (match recipients w !! recipientId with
         | Some r =>
             match jobs w !! emailJobId r with
             | Some j => bool_decide (job_userId j = userId)
             | None => false
             end
         | None => false
         end), w).
Proof.
  unfold verifyUserOwnsRecipient, db_emailRecipient_findUnique. unfold_monad.
  destruct (recipients w !! recipientId) as [r|]; simpl; [|done].
  by destruct (jobs w !! emailJobId r).
Qed.

Section SubmissionExtras.

Variable zod_email : string → bool.
Variable zod_datetime : string → bool.
Variable Date_parse : string → option Z.
Variable toISOString : Z → string.

Local Abbreviation parse := (scheduleEmailSchema_parse zod_email zod_datetime Date_parse toISOString).
Local Abbreviation post := (post_schedule zod_email zod_datetime Date_parse toISOString).

(** X9.  Submitting the same batch twice gives two jobs that have nothing
    in common: both requests are answered with status 200 and different
    job identifiers, each job has its own recipient rows (one per address,
    in both), and the second submission leaves the first job and its rows
    exactly as the first submission left them. *)
Theorem X9_two_submissions_are_independent (env1 env2 : SubmitEnv) (body : ScheduleBody)
    (data : ScheduleData) (t0 : Z) (w : World) :
  parse body = inr data →
  d_userId data ≠ "default-user" → d_userId data ≠ "" →
  Date_parse (d_startTime data) = Some t0 →
  owner_known data w → fresh_ids w →
  (∀ i, (i < length (d_recipients data))%nat → refusal env1 i = None) →
  (∀ i, (i < length (d_recipients data))%nat → refusal env2 i = None) →
  let N := length (d_recipients data) in
  let n := nextId w in
  let run1 := post env1 body w in
  let run2 := post env2 body (snd run1) in
  fst run1 = Ok (mkResponse 200 (ScheduleOk (gen_id n) N t0))
  ∧ fst run2 = Ok (mkResponse 200 (ScheduleOk (gen_id (S n + N)) N t0))
  ∧ gen_id n ≠ gen_id (S n + N)
  ∧ jobs (snd run2) !! gen_id n = jobs (snd run1) !! gen_id n
  ∧ is_Some (jobs (snd run2) !! gen_id (S n + N))
  ∧ ∀ i email, d_recipients data !! i = Some email →
      ∃ r1 r2,
        recipients (snd run1) !! gen_id (S n + i) = Some r1
        ∧ recipients (snd run2) !! gen_id (S n + i) = Some r1
        ∧ recipients (snd run2) !! gen_id (S (S n + N) + i) = Some r2
        ∧ gen_id (S n + i) ≠ gen_id (S (S n + N) + i)
        ∧ rcp_email r1 = email ∧ rcp_email r2 = email
        ∧ emailJobId r1 = gen_id n ∧ emailJobId r2 = gen_id (S n + N).
Proof.
  intros Hp Hs He Ht Hown Hfresh Hq1 Hq2 N n run1 run2.
  destruct (resolve_user_spec data w) as (o & wu & E & _ & _ & _ & _ & _ & Hk & _ & Hmono).
  destruct (Hk Hown) as [u ->].
  destruct (post_schedule_effect zod_email zod_datetime Date_parse toISOString env1 body data t0 w wu u Hp Hs He Ht E Hfresh)
    as (o1 & w1 & E1 & U1 & J1 & N1 & R1 & Oth1 & Ok1 & F1).
  fold n N in E1, J1, N1, R1, Oth1, Ok1.
  assert (owner_known data w1) as Hown1.
  { destruct Hown as [Hu|Hemail]; [left|by right]. rewrite U1. by apply Hmono. }
  destruct (resolve_user_spec data w1) as (o' & wu2 & E' & _ & _ & _ & _ & _ & Hk' & _).
  destruct (Hk' Hown1) as [u2 ->].
  destruct (post_schedule_effect zod_email zod_datetime Date_parse toISOString env2 body data t0 w1 wu2 u2 Hp Hs He Ht E' F1)
    as (o2 & w2 & E2 & U2 & J2 & N2 & R2 & Oth2 & Ok2 & F2).
  rewrite N1 in J2, N2, R2, Oth2, Ok2. fold N in J2, N2, R2, Oth2, Ok2.
  assert (run1 = (Ok o1, w1)) as Hrun1 by exact E1.
  assert (run2 = (Ok o2, w2)) as Hrun2.
  { unfold run2. rewrite Hrun1. exact E2. }
  rewrite Hrun2, Hrun1. simpl.
  assert (gen_id n ≠ gen_id (S n + N)) as Hne.
  { intros Heq%(inj gen_id). lia. }
  split_and!.
  - by rewrite (Ok1 Hq1).
  - by rewrite (Ok2 Hq2).
  - done.
  - rewrite J2. by rewrite lookup_insert_ne.
  - rewrite J2. rewrite lookup_insert_eq. done.
  - intros i email Hi. pose proof (lookup_lt_Some _ _ _ Hi) as Hlt. fold N in Hlt.
    eexists _, _. split_and!.
    + by apply R1.
    + rewrite Oth2; [by apply R1|]. intros j Hj Heq%(inj gen_id). lia.
    + by apply R2.
    + intros Heq%(inj gen_id). lia.
    + done.
    + done.
    + done.
    + done.
Qed.

(** X10.  A submission for a user the store does not know, sent without the
    user's address, is answered with status 400 ("User email is required")
    and writes nothing. *)
Theorem X10_unknown_user_needs_an_address (env : SubmitEnv) (body : ScheduleBody)
    (data : ScheduleData) (w : World) :
  parse body = inr data →
  d_userId data ≠ "default-user" → d_userId data ≠ "" →
  users w !! d_userId data = None →
  d_userEmail data = None ∨ d_userEmail data = Some "" →
  post env body w
  = (Ok (mkResponse 400 (ErrorBody "User email is required. Please log in again." [])), w).
Proof.
  intros Hp Hs He Hu Hmail.
  unfold post_schedule, schedule_try, parse_or_throw. rewrite Hp. unfold_monad.
  rewrite !bool_decide_false by done. simpl.
  pose proof (resolve_user_cases data w) as Hc. rewrite Hu in Hc.
  destruct Hmail as [Hm|Hm]; rewrite Hm in Hc; by rewrite Hc.
Qed.

(** X11.  When the submitting user is not stored but the address sent along
    belongs to a stored user, no user is created and the job is filed under
    that stored user: the holder of the address passes the ownership check
    of the new job and the submitted [userId] does not. *)
Theorem X11_address_taken_files_job_under_its_holder (env : SubmitEnv)
    (body : ScheduleBody) (data : ScheduleData) (t0 : Z) (w : World) (e : string)
    (holder : User) :
  parse body = inr data →
  d_userId data ≠ "default-user" → d_userId data ≠ "" →
  Date_parse (d_startTime data) = Some t0 →
  store_ok w →
  users w !! d_userId data = None →
  d_userEmail data = Some e → e ≠ "" →
  find_by_email (users w) e = Some holder →
  let jobId := gen_id (nextId w) in
  ∃ response w' job,
    post env body w = (Ok response, w')
    ∧ users w' = users w
    ∧ jobs w' !! jobId = Some job
    ∧ job_userId job = user_id holder
    ∧ user_id holder ≠ d_userId data
    ∧ verifyUserOwnsJob (user_id holder) jobId w' = (Ok true, w')
    ∧ verifyUserOwnsJob (d_userId data) jobId w' = (Ok false, w').
Proof.
  intros Hp Hs He Ht (Hkey & _ & Hfresh) Hu Hmail Hne Hf jobId.
  pose proof (resolve_user_cases data w) as Hc. rewrite Hu, Hmail, Hf in Hc.
  assert (resolve_user data w = (Ok (inr holder), w)) as E.
  { by destruct e. }
  destruct (post_schedule_effect zod_email zod_datetime Date_parse toISOString env body data t0 w w holder Hp Hs He Ht E Hfresh)
    as (o & w' & E1 & U1 & J1 & _).
  assert (user_id holder ≠ d_userId data) as Hholder.
  { apply find_by_email_Some in Hf as [[k Hk] _].
    rewrite (Hkey k holder Hk). intros ->. by rewrite Hu in Hk. }
  eexists o, w', _. split; [done|]. split; [done|].
  split; [rewrite J1; apply lookup_insert_eq|].
  rewrite !verifyUserOwnsJob_spec, J1. unfold jobId. rewrite lookup_insert_eq. simpl.
  split_and!; try done.
  - by rewrite bool_decide_true.
  - by rewrite bool_decide_false.
Qed.

(** X12.  After a valid submission whose owner can be resolved, whatever
    the queue does, there is one user, the one the job is filed under,
    whose identifier passes [verifyUserOwnsJob] for the new job and
    [verifyUserOwnsRecipient] for each of its recipients; every
    other identifier fails both, and the checks write nothing.  That user
    is the submitting one whenever the submitting user is stored or the
    address sent along is not yet taken. *)
Theorem X12_ownership_checks_after_a_submission (env : SubmitEnv) (body : ScheduleBody)
    (data : ScheduleData) (t0 : Z) (w : World) :
  parse body = inr data →
  d_userId data ≠ "default-user" → d_userId data ≠ "" →
  Date_parse (d_startTime data) = Some t0 →
  owner_known data w → store_ok w →
  let n := nextId w in
  ∃ response w' owner,
    post env body w = (Ok response, w')
    ∧ (∀ uid, verifyUserOwnsJob uid (gen_id n) w'
              = (Ok (bool_decide (owner = uid)), w'))
    ∧ (∀ uid i, (i < length (d_recipients data))%nat →
         verifyUserOwnsRecipient uid (gen_id (S n + i)) w'
         = (Ok (bool_decide (owner = uid)), w'))
    ∧ (is_Some (users w !! d_userId data)
       ∨ (∃ e, d_userEmail data = Some e ∧ find_by_email (users w) e = None) →
       owner = d_userId data).
Proof.
  intros Hp Hs He Ht Hown (Hkey & _ & Hfresh) n.
  destruct (resolve_user_spec data w) as (o & wu & E & _ & _ & _ & _ & _ & Hk & _).
  destruct (Hk Hown) as [u ->].
  destruct (post_schedule_effect zod_email zod_datetime Date_parse toISOString env body data t0 w wu u Hp Hs He Ht E Hfresh)
    as (o1 & w1 & E1 & U1 & J1 & N1 & R1 & _).
  fold n in J1, R1.
  exists o1, w1, (user_id u). split; [done|]. split_and!.
  - intros uid. rewrite verifyUserOwnsJob_spec, J1, lookup_insert_eq. done.
  - intros uid i Hi. apply lookup_lt_is_Some_2 in Hi as [email Hi].
    rewrite verifyUserOwnsRecipient_spec, (R1 i email Hi). simpl.
    rewrite J1, lookup_insert_eq. done.
  - pose proof (resolve_user_cases data w) as Hc.
    intros [[u' Hu']|(e & Hmail & Hf)].
    + rewrite Hu' in Hc. rewrite E in Hc. injection Hc as -> _. by apply Hkey.
    + destruct (users w !! d_userId data) as [u'|] eqn:Hu'.
      * rewrite E in Hc. injection Hc as -> _. by apply Hkey.
      * rewrite Hmail in Hc. destruct e as [|a e'].
        -- rewrite E in Hc. discriminate.
        -- rewrite Hf in Hc. simpl in Hc. rewrite E in Hc. by injection Hc as -> _.
Qed.

End SubmissionExtras.

(** ** The listings *)

Lemma find_by_email_None_intro (us : gmap string User) (email : string) :
  (∀ k u, us !! k = Some u → user_email u ≠ email) → find_by_email us email = None.
Proof.
  intros H. unfold find_by_email. apply fmap_None, list_find_None.
  apply Forall_forall. intros [k u] Hin%elem_of_map_to_list. simpl. by eapply H.
Qed.

Lemma find_by_email_unique (w : World) (email : string) (k : string) (u : User) :
  emails_unique w → users w !! k = Some u → user_email u = email →
  find_by_email (users w) email = Some u.
Proof.
  intros Huniq Hk He. destruct (find_by_email (users w) email) as [u'|] eqn:Hf.
  - apply find_by_email_Some in Hf as [[k' Hk'] He'].
    assert (k' = k) as -> by (eapply Huniq; eauto; congruence). congruence.
  - by destruct (find_by_email_None _ _ Hf k u Hk).
Qed.

Lemma elem_of_all_recipients (w : World) (id : string) (r : EmailRecipient) :
  recipients w !! id = Some r → r ∈ all_recipients w.
Proof.
  intros H. unfold all_recipients. apply list_elem_of_fmap.
  exists (id, r). split; [done|]. by apply elem_of_map_to_list.
Qed.

Lemma elem_of_matching_rows (statuses : list RecipientStatus) (userId : string) (w : World)
    (r : EmailRecipient) (j : EmailJob) :
  (r, j) ∈ matching_rows statuses userId w
  ↔ r ∈ all_recipients w ∧ jobs w !! emailJobId r = Some j
    ∧ rcp_status r ∈ statuses ∧ job_userId j = userId.
Proof.
  unfold matching_rows. rewrite list_elem_of_filter, list_elem_of_omap. simpl. split.
  - intros [[Hst Hid] (r' & Hin & Hj)].
    destruct (jobs w !! emailJobId r') as [j'|] eqn:E; simpl in Hj; [|done].
    injection Hj as -> ->. done.
  - intros (Hin & Hj & Hst & Hid). split; [done|]. exists r. split; [done|].
    by rewrite Hj.
Qed.

Section ListingMore.

Variable toISOString : Z → string.
Variable orderBy : (EmailRecipient → option Z) → bool
                   → list (EmailRecipient * EmailJob) → list (EmailRecipient * EmailJob).
Hypothesis orderBy_perm : ∀ col desc rows, orderBy col desc rows ≡ₚ rows.

(** The query returns at most 100 of the rows its [where] clause selects,
    and all of them when there are no more than 100. *)
Lemma findMany_user_rows (statuses : list RecipientStatus) (userId : string)
    (col : EmailRecipient → option Z) (desc : bool) (w : World) :
  ∃ rows,
    db_emailRecipient_findMany_user orderBy statuses userId col desc w = (Ok rows, w)
    ∧ (length rows ≤ 100)%nat
    ∧ (∀ p, p ∈ rows → p ∈ matching_rows statuses userId w)
    ∧ ((length (matching_rows statuses userId w) ≤ 100)%nat →
         ∀ p, p ∈ matching_rows statuses userId w → p ∈ rows).
Proof.
  set (rows := matching_rows statuses userId w).
  exists (take 100 (orderBy col desc rows)). split; [reflexivity|]. split_and!.
  - rewrite length_take. lia.
  - intros p Hp. apply (subseteq_take 100 _ p) in Hp.
    by rewrite (orderBy_perm col desc rows) in Hp.
  - intros Hlen p Hp. rewrite take_ge.
    + by rewrite (orderBy_perm col desc rows).
    + by rewrite (orderBy_perm col desc rows).
Qed.

Lemma owned_rows (user : User) (rows : list (EmailRecipient * EmailJob)) :
  (∀ p, p ∈ rows → job_userId p.2 = user_id user) → owned user rows = rows.
Proof.
  intros H. unfold owned. induction rows as [|p rows IH]; [done|].
  rewrite filter_cons_True.
  - f_equal. apply IH. intros p' Hp'. apply H. by constructor.
  - apply H. by constructor.
Qed.

(** The user a listing works for: a stored user with the sanitised address,
    found or just created; or none, and then the answer is an empty
    array.  Jobs and recipients are not touched. *)
Lemma user_for_get_result (empty : ResponseBody) (email : string) (w : World) :
  Text.emailRegex_test email = true →
  ∃ o w', user_for_get empty email w = (Ok o, w')
    ∧ jobs w' = jobs w ∧ recipients w' = recipients w
    ∧ (o = inl (mkResponse 200 empty)
       ∨ ∃ u k, o = inr u ∧ users w' !! k = Some u ∧ user_email u = email)
    ∧ (∀ u, find_by_email (users w) email = Some u → o = inr u ∧ w' = w).
Proof.
  intros Hre. unfold user_for_get, getUserByEmail. rewrite Hre. simpl. unfold_monad.
  unfold db_user_findUnique_email.
  destruct (find_by_email (users w) email) as [u|] eqn:Hf.
  - eexists _, _. split; [reflexivity|]. split_and!; try done.
    + right. apply find_by_email_Some in Hf as [[k Hk] He]. eauto.
    + by intros u' [= <-].
  - unfold db_user_create. simpl. case_bool_decide as Hc; simpl.
    + eexists _, _. split; [reflexivity|]. simpl. split_and!; try done.
      right. eexists _, _. split; [done|]. rewrite lookup_insert_eq. done.
    + rewrite Hf. eexists _, _. split; [reflexivity|]. simpl. split_and!; try done.
      by left.
Qed.

(** The rows of a scheduled listing: at most 100, each of a stored
    recipient that is [pending] or [scheduled] and whose job belongs to a
    stored user with the sanitised address. *)
Lemma get_scheduled_owned (s : string) (w : World) :
  ∃ response w',
    get_scheduled toISOString orderBy (JString s) w = (Ok response, w')
    ∧ ∀ rows, res_body response = ScheduledRows rows →
        (length rows ≤ 100)%nat
        ∧ ∀ row, row ∈ rows →
            ∃ r j, row = scheduled_row toISOString (r, j)
                   ∧ r ∈ all_recipients w' ∧ jobs w' !! emailJobId r = Some j
                   ∧ rcp_status r ∈ [pending; scheduled]
                   ∧ ∃ k u, users w' !! k = Some u ∧ job_userId j = user_id u
                            ∧ user_email u = sanitizeEmail s.
Proof.
  assert (Hnil : ∀ A (x : A), x ∉ @nil A) by (intros; apply not_elem_of_nil).
  unfold get_scheduled, listing. unfold_monad.
  destruct (bool_decide (s = "")); simpl; [eexists _, _; split; [reflexivity|done]|].
  destruct (Text.emailRegex_test (sanitizeEmail s)) eqn:Hre; simpl;
    [|eexists _, _; split; [reflexivity|done]].
  destruct (user_for_get_result (ScheduledRows []) _ w Hre)
    as (o & w' & E & Ej & Er & [->|(u & k & -> & Hk & He)] & _); rewrite E.
  - eexists _, _. split; [reflexivity|]. simpl. intros rows [= <-].
    split; [simpl; lia|]. intros row Hrow. by apply Hnil in Hrow.
  - destruct (findMany_user_rows [pending; scheduled] (user_id u) scheduledAt false w')
      as (rows & Eq & Hlen & Hin & _).
    unfold db_emailRecipient_findMany_user in Eq. injection Eq as Eq. rewrite Eq.
    eexists _, _. split; [reflexivity|]. simpl. intros rows' [= <-].
    rewrite owned_rows; last first.
    { intros [r j] Hp%Hin. by apply elem_of_matching_rows in Hp as (_ & _ & _ & ?). }
    split; [by rewrite length_fmap|].
    intros row [[r j] [-> Hp%Hin]]%list_elem_of_fmap.
    apply elem_of_matching_rows in Hp as (Hall & Hj & Hst & Hid).
    exists r, j. split; [done|]. split_and!; eauto 10.
Qed.

(** The same for a sent listing, with [sent] and [failed]. *)
Lemma get_sent_owned (s : string) (w : World) :
  ∃ response w',
    get_sent toISOString orderBy (JString s) w = (Ok response, w')
    ∧ ∀ rows, res_body response = SentRows rows →
        (length rows ≤ 100)%nat
        ∧ ∀ row, row ∈ rows →
            ∃ r j, row = sent_row toISOString (r, j)
                   ∧ r ∈ all_recipients w' ∧ jobs w' !! emailJobId r = Some j
                   ∧ rcp_status r ∈ [sent; failed]
                   ∧ ∃ k u, users w' !! k = Some u ∧ job_userId j = user_id u
                            ∧ user_email u = sanitizeEmail s.
Proof.
  assert (Hnil : ∀ A (x : A), x ∉ @nil A) by (intros; apply not_elem_of_nil).
  unfold get_sent, listing. unfold_monad.
  destruct (bool_decide (s = "")); simpl; [eexists _, _; split; [reflexivity|done]|].
  destruct (Text.emailRegex_test (sanitizeEmail s)) eqn:Hre; simpl;
    [|eexists _, _; split; [reflexivity|done]].
  destruct (user_for_get_result (SentRows []) _ w Hre)
    as (o & w' & E & Ej & Er & [->|(u & k & -> & Hk & He)] & _); rewrite E.
  - eexists _, _. split; [reflexivity|]. simpl. intros rows [= <-].
    split; [simpl; lia|]. intros row Hrow. by apply Hnil in Hrow.
  - destruct (findMany_user_rows [sent; failed] (user_id u) sentAt true w')
      as (rows & Eq & Hlen & Hin & _).
    unfold db_emailRecipient_findMany_user in Eq. injection Eq as Eq. rewrite Eq.
    eexists _, _. split; [reflexivity|]. simpl. intros rows' [= <-].
    rewrite owned_rows; last first.
    { intros [r j] Hp%Hin. by apply elem_of_matching_rows in Hp as (_ & _ & _ & ?). }
    split; [by rewrite length_fmap|].
    intros row [[r j] [-> Hp%Hin]]%list_elem_of_fmap.
    apply elem_of_matching_rows in Hp as (Hall & Hj & Hst & Hid).
    exists r, j. split; [done|]. split_and!; eauto 10.
Qed.

(** X13.  A listing never shows rows of another user.  Whatever is asked
    and whatever the store holds, [GET /api/emails/scheduled] answers, and
    when it answers with rows there are at most 100 of them and each one
    shows a stored recipient that is [pending] or [scheduled] and whose
    job belongs to a stored user with the requested (trimmed, lower-cased)
    address; likewise [GET /api/emails/sent] with [sent] or [failed]. *)
Theorem X13_listings_show_own_rows_only (s : string) (w : World) :
  let shown (statuses : list RecipientStatus) (w' : World) (r : EmailRecipient)
        (j : EmailJob) : Prop :=
    r ∈ all_recipients w' ∧ jobs w' !! emailJobId r = Some j
    ∧ rcp_status r ∈ statuses
    ∧ ∃ k u, users w' !! k = Some u ∧ job_userId j = user_id u
             ∧ user_email u = sanitizeEmail s in
  (∃ response w',
     get_scheduled toISOString orderBy (JString s) w = (Ok response, w')
     ∧ ∀ rows, res_body response = ScheduledRows rows →
         (length rows ≤ 100)%nat
         ∧ ∀ row, row ∈ rows →
             ∃ r j, row = scheduled_row toISOString (r, j)
                    ∧ shown [pending; scheduled] w' r j)
  ∧ (∃ response w',
       get_sent toISOString orderBy (JString s) w = (Ok response, w')
       ∧ ∀ rows, res_body response = SentRows rows →
           (length rows ≤ 100)%nat
           ∧ ∀ row, row ∈ rows →
               ∃ r j, row = sent_row toISOString (r, j) ∧ shown [sent; failed] w' r j).
Proof.
  intros shown. split; [apply get_scheduled_owned|apply get_sent_owned].
Qed.

End ListingMore.

(** ** The properties above on concrete inputs *)

Lemma X4_witness :
  isAllowedDomain "bob" (Some ["x.com"]) = Throw undefined_toLowerCase
  ∧ ∃ domain, Text.after_at "Bob@X.com" = Some domain
              ∧ isAllowedDomain "Bob@X.com" (Some ["x.com"])
                = Ok (bool_decide (Text.toLowerCase domain ∈ ["x.com"])).
Proof.
  split.
  - apply (X4_isAllowedDomain_cases "bob" "x.com" []). reflexivity.
  - apply (X4_isAllowedDomain_cases "Bob@X.com" "x.com" []). reflexivity.
Defined.

Lemma X5_witness : isAllowedDomain "bob@x.com" (Some ["X.com"]) ≠ Ok true.
Proof.
  apply (proj2 (X5_isAllowedDomain_letter_case "bob@x.com" (Some ["X.com"])) "X.com" []).
  - reflexivity.
  - intros x Hx. apply list_elem_of_singleton in Hx. subst x. vm_compute. discriminate.
Defined.

Lemma X6_witness :
  let w := snd (checkRateLimit OnTheHour.now "u2" 1 OnTheHour.world) in
  rate_limit_key "u2" (hour_floor OnTheHour.now) ≠ rate_limit_key "u1" (hour_floor OnTheHour.now)
  ∧ count_at OnTheHour.now (rate_limit_key "u2" (hour_floor OnTheHour.now))
      (snd (checkRateLimit OnTheHour.now "u1" 1 w))
    = count_at OnTheHour.now (rate_limit_key "u2" (hour_floor OnTheHour.now)) w.
Proof.
  intros w.
  apply (X6_rate_limit_counters_independent OnTheHour.now "u1" 1 w "u2"
           (hour_floor OnTheHour.now) OnTheHour.now).
  intros H. discriminate H.
Defined.

Lemma X8_witness :
  let e := ErrorObj "Message failed: 550 Mailbox unavailable" in
  let w1 := snd (worker OnTheHour.env_failing Scenes.retry_task OnTheHour.world) in
  fst (worker OnTheHour.env_failing Scenes.retry_task OnTheHour.world) = Throw e
  ∧ fst (worker Scenes.env_retry Scenes.retry_task w1) = Ok "<m2@x.com>"
  ∧ ∃ r2, recipients (snd (worker Scenes.env_retry Scenes.retry_task w1)) !! "r1" = Some r2
          ∧ rcp_status r2 = sent
          ∧ sentAt r2 = Some (OnTheHour.now + 61000)
          ∧ retryCount r2 = 0 + 1
          ∧ errorMessage r2 = Some (message_or_unknown e).
Proof.
  intros e w1.
  apply (X8_delivery_after_a_failure OnTheHour.env_failing Scenes.env_retry
           Scenes.retry_task OnTheHour.world
           (mkEmailRecipient "r1" "a@x.com" "j1" pending (Some OnTheHour.now) None None 0)
           e "<m2@x.com>").
  - vm_compute. reflexivity.
  - vm_compute. eexists. reflexivity.
  - vm_compute. reflexivity.
  - reflexivity.
  - vm_compute. reflexivity.
  - vm_compute. reflexivity.
  - reflexivity.
Defined.

Lemma X9_witness :
  let run1 := Sample.post Sample.env_now Sample.body empty_world in
  let run2 := Sample.post Sample.env_now Sample.body (snd run1) in
  fst run1 = Ok (mkResponse 200 (ScheduleOk (gen_id 0) 3 Sample.instant))
  ∧ fst run2 = Ok (mkResponse 200 (ScheduleOk (gen_id 4) 3 Sample.instant))
  ∧ jobs (snd run2) !! gen_id 0 = jobs (snd run1) !! gen_id 0.
Proof.
  destruct (X9_two_submissions_are_independent Sample.zod_email Sample.zod_datetime
              Sample.Date_parse Sample.toISOString Sample.env_now Sample.env_now
              Sample.body Sample.data Sample.instant empty_world)
    as (H1 & H2 & _ & H3 & _).
  - vm_compute. reflexivity.
  - simpl. discriminate.
  - simpl. discriminate.
  - vm_compute. reflexivity.
  - right. exists "me@x.com". split; [reflexivity|discriminate].
  - intros m _. split; reflexivity.
  - intros i _. reflexivity.
  - intros i _. reflexivity.
  - split_and!; [exact H1|exact H2|exact H3].
Defined.

Lemma X10_witness :
  Sample.post Sample.env_now Scenes.body_no_address empty_world
  = (Ok (mkResponse 400 (ErrorBody "User email is required. Please log in again." [])),
     empty_world).
Proof.
  apply (X10_unknown_user_needs_an_address Sample.zod_email Sample.zod_datetime
           Sample.Date_parse Sample.toISOString Sample.env_now Scenes.body_no_address
           Scenes.data_no_address empty_world).
  - vm_compute. reflexivity.
  - simpl. discriminate.
  - simpl. discriminate.
  - reflexivity.
  - left. reflexivity.
Defined.

Lemma store_ok_with_holder : store_ok Scenes.world_with_holder.
Proof.
  split_and!.
  - intros k u H. simpl in H. apply lookup_singleton_Some in H as [<- <-]. reflexivity.
  - intros k j H. simpl in H. rewrite lookup_empty in H. discriminate.
  - intros m _. split; reflexivity.
Qed.

Lemma X11_witness :
  ∃ response w' job,
    Sample.post Sample.env_now Sample.body Scenes.world_with_holder = (Ok response, w')
    ∧ users w' = users Scenes.world_with_holder
    ∧ jobs w' !! gen_id 0 = Some job
    ∧ job_userId job = "u0"
    ∧ "u0" ≠ "u1"
    ∧ verifyUserOwnsJob "u0" (gen_id 0) w' = (Ok true, w')
    ∧ verifyUserOwnsJob "u1" (gen_id 0) w' = (Ok false, w').
Proof.
  apply (X11_address_taken_files_job_under_its_holder Sample.zod_email Sample.zod_datetime
           Sample.Date_parse Sample.toISOString Sample.env_now Sample.body Sample.data
           Sample.instant Scenes.world_with_holder "me@x.com" Scenes.holder).
  - vm_compute. reflexivity.
  - simpl. discriminate.
  - simpl. discriminate.
  - vm_compute. reflexivity.
  - exact store_ok_with_holder.
  - reflexivity.
  - reflexivity.
  - discriminate.
  - vm_compute. reflexivity.
Defined.

Lemma store_ok_empty : store_ok empty_world.
Proof.
  split_and!.
  - intros k u H. simpl in H. rewrite lookup_empty in H. discriminate.
  - intros k j H. simpl in H. rewrite lookup_empty in H. discriminate.
  - intros m _. split; reflexivity.
Qed.

Lemma X12_witness :
  ∃ response w' owner,
    Sample.post Sample.env_now Sample.body empty_world = (Ok response, w')
    ∧ (∀ uid, verifyUserOwnsJob uid (gen_id 0) w' = (Ok (bool_decide (owner = uid)), w'))
    ∧ (∀ uid i, (i < 3)%nat →
         verifyUserOwnsRecipient uid (gen_id (S 0 + i)) w'
         = (Ok (bool_decide (owner = uid)), w'))
    ∧ (is_Some (users empty_world !! "u1")
       ∨ (∃ e, Some "me@x.com" = Some e ∧ find_by_email (users empty_world) e = None) →
       owner = "u1").
Proof.
  apply (X12_ownership_checks_after_a_submission Sample.zod_email Sample.zod_datetime
           Sample.Date_parse Sample.toISOString Sample.env_now Sample.body Sample.data
           Sample.instant empty_world).
  - vm_compute. reflexivity.
  - simpl. discriminate.
  - simpl. discriminate.
  - vm_compute. reflexivity.
  - right. exists "me@x.com". split; [reflexivity|discriminate].
  - exact store_ok_empty.
Defined.

Lemma X13_witness :
  ∃ response w',
    get_scheduled Sample.toISOString Sample.orderBy (JString " Me@X.com") OnTheHour.world
    = (Ok response, w')
    ∧ ∀ rows, res_body response = ScheduledRows rows →
        (length rows ≤ 100)%nat
        ∧ ∀ row, row ∈ rows →
            ∃ r j, row = scheduled_row Sample.toISOString (r, j)
                   ∧ r ∈ all_recipients w' ∧ jobs w' !! emailJobId r = Some j
                   ∧ rcp_status r ∈ [pending; scheduled]
                   ∧ ∃ k u, users w' !! k = Some u ∧ job_userId j = user_id u
                            ∧ user_email u = sanitizeEmail " Me@X.com".
Proof.
  apply (proj1 (X13_listings_show_own_rows_only Sample.toISOString Sample.orderBy
                  (λ _ _ rows, reflexivity rows) " Me@X.com" OnTheHour.world)).
Defined.

(** ** Listings: refusals and reads *)

Section ListingReads.

Variable toISOString : Z → string.
Variable orderBy : (EmailRecipient → option Z) → bool
                   → list (EmailRecipient * EmailJob) → list (EmailRecipient * EmailJob).

Lemma find_by_email_stored (w : World) (email : string) (k : string) (u : User) :
  users w !! k = Some u → user_email u = email →
  ∃ u', find_by_email (users w) email = Some u'.
Proof.
  intros Hk He. destruct (find_by_email (users w) email) as [u'|] eqn:Hf; [eauto|].
  by destruct (find_by_email_None _ _ Hf k u Hk).
Qed.

(** X14.  What the listings refuse, and that they only read for a stored
    user.  A [userEmail] that is absent, not a string or empty is answered
    400 "userEmail parameter is required"; one that is ill-formed after
    sanitising is answered 400 "Invalid email format"; in both cases
    nothing is written.  When a stored user has the sanitised address the
    answer is 200 with rows and the store is left exactly as it was. *)
Theorem X14_listing_refusals_and_reads (q : JSValue) (w : World) :
  let required := mkResponse 400 (ErrorBody "userEmail parameter is required" []) in
  let invalid := mkResponse 400 (ErrorBody "Invalid email format" []) in
  ((∀ s, q = JString s → s = "") →
     get_scheduled toISOString orderBy q w = (Ok required, w)
     ∧ get_sent toISOString orderBy q w = (Ok required, w))
  ∧ (∀ s, q = JString s → s ≠ "" → Text.emailRegex_test (sanitizeEmail s) = false →
       get_scheduled toISOString orderBy q w = (Ok invalid, w)
       ∧ get_sent toISOString orderBy q w = (Ok invalid, w))
  ∧ (∀ s k u, q = JString s → Text.emailRegex_test (sanitizeEmail s) = true →
       users w !! k = Some u → user_email u = sanitizeEmail s →
       ∃ rows rows',
         get_scheduled toISOString orderBy q w
         = (Ok (mkResponse 200 (ScheduledRows rows)), w)
         ∧ get_sent toISOString orderBy q w = (Ok (mkResponse 200 (SentRows rows')), w)).
Proof.
  intros required invalid. split_and!.
  - intros H. destruct q as [| | | |s|]; try (split; reflexivity).
    rewrite (H s eq_refl). split; reflexivity.
  - intros s -> Hs Hre. unfold get_scheduled, get_sent, listing.
    rewrite bool_decide_false by done. rewrite Hre. split; reflexivity.
  - intros s k u -> Hre Hk He.
    destruct (find_by_email_stored w _ k u Hk He) as [u' Hf].
    pose proof (sanitized_nonempty s Hre) as Hs.
    assert (Hu : ∀ empty, user_for_get empty (sanitizeEmail s) w = (Ok (inr u'), w)).
    { intros empty. unfold user_for_get, getUserByEmail. rewrite Hre. simpl. unfold_monad.
      unfold db_user_findUnique_email. by rewrite Hf. }
    eexists _, _. unfold get_scheduled, get_sent, listing.
    rewrite bool_decide_false by done. rewrite Hre. simpl. unfold_monad.
    rewrite !Hu. split; reflexivity.
Qed.

End ListingReads.

(** ** Addresses stay unique *)

Lemma keeps_unique_frame {A} (m : M A) :
  (∀ w, users (snd (m w)) = users w) → keeps emails_unique m.
Proof. intros H w Hw. unfold emails_unique. by rewrite H. Qed.

Lemma keeps_unique_user_create (id : option string) (email name : string) :
  keeps emails_unique (db_user_create id email name).
Proof.
  intros w Hw. unfold db_user_create.
  case_bool_decide as Hc; simpl; [|by destruct id].
  destruct Hc as [Hnew Hf].
  assert (Hus : ∀ k u, users w !! k = Some u → user_email u ≠ email)
    by (by apply find_by_email_None).
  intros k1 k2 u1 u2. simpl.
  assert (users (match id with
                 | Some _ => w
                 | None => set_nextId (S (nextId w)) w
                 end) = users w) as -> by (by destruct id).
  rewrite !lookup_insert. repeat case_decide; subst; try done.
  - intros [= <-] H2 E. simpl in E. by destruct (Hus _ _ H2).
  - intros H1 [= <-] E. simpl in E. by destruct (Hus _ _ H1).
  - apply Hw.
Qed.

Lemma keeps_unique_recipient_update (id : string) (data : EmailRecipient → EmailRecipient) :
  keeps emails_unique (db_emailRecipient_update id data).
Proof.
  apply keeps_unique_frame. intros w. unfold db_emailRecipient_update.
  by destruct (recipients w !! id).
Qed.

Lemma keeps_unique_queue_add (r : option string) (data : SendEmailJobData) (delay : Z) :
  keeps emails_unique (emailQueue_add r data delay).
Proof. apply keeps_unique_frame. intros w. unfold emailQueue_add. by destruct r. Qed.

Lemma keeps_unique_redis_incr (now : Z) (key : string) :
  keeps emails_unique (redis_incr now key).
Proof. by apply keeps_unique_frame. Qed.

Lemma keeps_unique_redis_expire (now : Z) (key : string) (seconds : Z) :
  keeps emails_unique (redis_expire now key seconds).
Proof.
  apply keeps_unique_frame. intros w. unfold redis_expire.
  by destruct (redis_get now key w).
Qed.

Lemma keeps_unique_findMany_job (jobId : string) :
  keeps emails_unique (db_emailRecipient_findMany_job jobId).
Proof. by apply keeps_unique_frame. Qed.

Lemma keeps_unique_find_email (email : string) :
  keeps emails_unique (db_user_findUnique_email email).
Proof. by apply keeps_unique_frame. Qed.

Lemma keeps_unique_find_id (id : string) : keeps emails_unique (db_user_findUnique_id id).
Proof. by apply keeps_unique_frame. Qed.

Lemma keeps_unique_job_update (id : string) (st : JobStatus) :
  keeps emails_unique (db_emailJob_update id st).
Proof.
  apply keeps_unique_frame. intros w. unfold db_emailJob_update.
  by destruct (jobs w !! id).
Qed.

Lemma keeps_unique_job_create (subject body : string) (t : option Z) (d h : Z)
    (userId : string) (rcps : list (string * RecipientStatus)) :
  keeps emails_unique (db_emailJob_create subject body t d h userId rcps).
Proof.
  apply keeps_unique_frame. intros w. unfold db_emailJob_create.
  destruct t; [|done]. by case_bool_decide.
Qed.

Create HintDb unique.
Global Hint Resolve keeps_unique_user_create keeps_unique_recipient_update
  keeps_unique_queue_add keeps_unique_redis_incr keeps_unique_redis_expire
  keeps_unique_findMany_job keeps_unique_find_email keeps_unique_find_id
  keeps_unique_job_update keeps_unique_job_create : unique.

Lemma keeps_unique_worker (env : WorkerEnv) (data : SendEmailJobData) :
  keeps emails_unique (worker env data).
Proof.
  unfold worker, worker_body, worker_catch, send_and_mark, completion_check, checkRateLimit.
  repeat keeps_step; auto with unique.
Qed.

Lemma keeps_unique_getUserByEmail (email : string) :
  keeps emails_unique (getUserByEmail email).
Proof. unfold getUserByEmail. repeat keeps_step; auto with unique. Qed.

Lemma keeps_unique_authorize (email password : string) :
  keeps emails_unique (authorize email password).
Proof. unfold authorize. repeat keeps_step; auto with unique. Qed.

Lemma keeps_unique_resolve_user (data : ScheduleData) :
  keeps emails_unique (resolve_user data).
Proof. unfold resolve_user. repeat keeps_step; auto with unique. Qed.

Section WellFormed.

Variable zod_email : string → bool.
Variable zod_datetime : string → bool.
Variable Date_parse : string → option Z.
Variable toISOString : Z → string.
Variable orderBy : (EmailRecipient → option Z) → bool
                   → list (EmailRecipient * EmailJob) → list (EmailRecipient * EmailJob).

Lemma keeps_unique_findMany_user (statuses : list RecipientStatus) (userId : string)
    (col : EmailRecipient → option Z) (desc : bool) :
  keeps emails_unique (db_emailRecipient_findMany_user orderBy statuses userId col desc).
Proof. by apply keeps_unique_frame. Qed.

Lemma keeps_unique_user_for_get (empty : ResponseBody) (email : string) :
  keeps emails_unique (user_for_get empty email).
Proof.
  unfold user_for_get.
  repeat keeps_step; auto using keeps_unique_getUserByEmail with unique.
Qed.

Lemma keeps_unique_get_scheduled (userEmail : JSValue) :
  keeps emails_unique (get_scheduled toISOString orderBy userEmail).
Proof.
  unfold get_scheduled, listing.
  repeat keeps_step; auto using keeps_unique_user_for_get, keeps_unique_findMany_user.
Qed.

Lemma keeps_unique_get_sent (userEmail : JSValue) :
  keeps emails_unique (get_sent toISOString orderBy userEmail).
Proof.
  unfold get_sent, listing.
  repeat keeps_step; auto using keeps_unique_user_for_get, keeps_unique_findMany_user.
Qed.

Lemma keeps_unique_post_schedule (env : SubmitEnv) (body : ScheduleBody) :
  keeps emails_unique
    (post_schedule zod_email zod_datetime Date_parse toISOString env body).
Proof.
  unfold post_schedule. apply keeps_try_catch;
    [|intros e; unfold schedule_catch; destruct e; apply keeps_ret].
  unfold schedule_try. apply keeps_bind.
  { unfold parse_or_throw. repeat keeps_step. }
  intros data.
  destruct (bool_decide (d_userId data = "default-user")); simpl; [apply keeps_ret|].
  destruct (bool_decide (d_userId data = "")); simpl; [apply keeps_ret|].
  apply keeps_bind; [apply keeps_unique_resolve_user|].
  intros [early|user]; [apply keeps_ret|].
  apply keeps_bind; [apply keeps_unique_job_create|].
  intros [emailJob rcps]. unfold schedule_one.
  repeat keeps_step; auto with unique.
Qed.

Lemma reachable_emails_unique (w : World) :
  reachable zod_email zod_datetime Date_parse toISOString orderBy w → emails_unique w.
Proof.
  induction 1 as [|w env body o w' _ IH E|w q o w' _ IH E|w q o w' _ IH E
                  |w email password o w' _ IH E|w env data o w' _ IH E].
  - intros k1 k2 u1 u2 H. simpl in H. by rewrite lookup_empty in H.
  - pose proof (keeps_unique_post_schedule env body w IH) as H. by rewrite E in H.
  - pose proof (keeps_unique_get_scheduled q w IH) as H. by rewrite E in H.
  - pose proof (keeps_unique_get_sent q w IH) as H. by rewrite E in H.
  - pose proof (keeps_unique_authorize email password w IH) as H. by rewrite E in H.
  - pose proof (keeps_unique_worker env data w IH) as H. by rewrite E in H.
Qed.

(** X20.  Every state the service can reach from the empty store, by any
    sequence of submissions, listings, sign-ins and worker runs, is well
    formed: each user row sits under its own identifier, no two users
    have the same address, every job belongs to a stored user, and the
    identifiers the store will generate next are not in use for jobs or
    recipients. *)
Theorem X20_reachable_states_are_well_formed (w : World) :
  reachable zod_email zod_datetime Date_parse toISOString orderBy w →
  (∀ k u, users w !! k = Some u → user_id u = k)
  ∧ (∀ k1 k2 u1 u2, users w !! k1 = Some u1 → users w !! k2 = Some u2 →
       user_email u1 = user_email u2 → k1 = k2)
  ∧ (∀ k j, jobs w !! k = Some j → is_Some (users w !! job_userId j))
  ∧ (∀ m, (nextId w ≤ m)%nat →
       jobs w !! gen_id m = None ∧ recipients w !! gen_id m = None).
Proof.
  intros H. destruct (reachable_store_ok _ _ _ _ _ w H) as (Hk & Hfk & Hfr).
  pose proof (reachable_emails_unique w H) as Hu.
  split_and!; done.
Qed.

End WellFormed.

(** ** From a submission to the listing *)

Lemma length_omap_le {A B} (f : A → option B) (l : list A) :
  (length (omap f l) ≤ length l)%nat.
Proof.
  induction l as [|x l IH]; simpl; [lia|].
  change (list_omap A B f l) with (omap f l). destruct (f x); simpl; lia.
Qed.

Lemma matching_rows_length (statuses : list RecipientStatus) (userId : string) (w : World) :
  (length (matching_rows statuses userId w) ≤ length (all_recipients w))%nat.
Proof.
  unfold matching_rows. etrans; [apply length_filter|]. apply length_omap_le.
Qed.

(** The owner of a submission that comes with the address [email]: a
    stored user who has that address. *)
Lemma resolve_user_with_address (data : ScheduleData) (w : World) (email : string) :
  emails_unique w → (∀ k u, users w !! k = Some u → user_id u = k) →
  email ≠ "" →
  (∃ u, users w !! d_userId data = Some u ∧ user_email u = email)
  ∨ (users w !! d_userId data = None ∧ d_userEmail data = Some email) →
  ∃ u wu, resolve_user data w = (Ok (inr u), wu) ∧ user_email u = email
    ∧ users wu !! user_id u = Some u ∧ emails_unique wu.
Proof.
  intros Hw Hk Hne Hcase.
  pose proof (keeps_unique_resolve_user data w Hw) as Hu.
  pose proof (resolve_user_cases data w) as H.
  destruct Hcase as [(u & Hid & He)|[Hid He]]; rewrite Hid in H.
  - rewrite H in Hu. exists u, w. split_and!; try done.
    by rewrite (Hk _ _ Hid).
  - rewrite He in H. destruct email as [|a email]; [done|].
    destruct (find_by_email (users w) (String a email)) as [u0|] eqn:Hf.
    + rewrite H in Hu. apply find_by_email_Some in Hf as [[k Hk0] He0].
      exists u0, w. split_and!; try done. by rewrite (Hk _ _ Hk0).
    + cbv zeta in H. rewrite H in Hu. eexists _, _. split; [exact H|].
      split_and!; try done. simpl. by rewrite lookup_insert_eq.
Qed.

Section RoundTrip.

Variable zod_email : string → bool.
Variable zod_datetime : string → bool.
Variable Date_parse : string → option Z.
Variable toISOString : Z → string.
Variable orderBy : (EmailRecipient → option Z) → bool
                   → list (EmailRecipient * EmailJob) → list (EmailRecipient * EmailJob).
Hypothesis orderBy_perm : ∀ col desc rows, orderBy col desc rows ≡ₚ rows.

Local Abbreviation parse := (scheduleEmailSchema_parse zod_email zod_datetime Date_parse toISOString).
Local Abbreviation post := (post_schedule zod_email zod_datetime Date_parse toISOString).

(** X15.  What is submitted can be listed.  After a valid submission whose
    owner has the requested (sanitised) address - as the stored submitting
    user, or as the address sent along for a user not yet stored - the
    scheduled listing for that address writes nothing and shows one row
    for every recipient of the submission, with the recipient's new
    identifier, its address, the subject and body of the job and the
    recipient's own send time, provided no user has more than 100 pending
    or scheduled rows (the listing is cut at 100). *)
Theorem X15_submitted_rows_are_listed (env : SubmitEnv) (body : ScheduleBody)
    (data : ScheduleData) (t0 : Z) (w : World) (q : string) :
  parse body = inr data →
  d_userId data ≠ "default-user" → d_userId data ≠ "" →
  Date_parse (d_startTime data) = Some t0 →
  store_ok w → emails_unique w →
  Text.emailRegex_test (sanitizeEmail q) = true →
  (∃ u, users w !! d_userId data = Some u ∧ user_email u = sanitizeEmail q)
  ∨ (users w !! d_userId data = None ∧ d_userEmail data = Some (sanitizeEmail q)) →
  let n := nextId w in
  let w' := snd (post env body w) in
  (∀ userId, (length (matching_rows [pending; scheduled] userId w') ≤ 100)%nat) →
  ∃ rows,
    get_scheduled toISOString orderBy (JString q) w'
    = (Ok (mkResponse 200 (ScheduledRows rows)), w')
    ∧ ∀ i email, d_recipients data !! i = Some email →
        ∃ st, (st = pending ∨ st = scheduled)
              ∧ (gen_id (S n + i), email, d_subject data, d_body data,
                 toISOString (t0 + Z.of_nat i * d_delaySeconds data * 1000), st) ∈ rows.
Proof.
  intros Hp Hs He Hd (Hk & Hfk & Hfr) Hu Hre Hcase n w' Hcap.
  assert (Hne : sanitizeEmail q ≠ "").
  { intros E. rewrite E in Hre. vm_compute in Hre. discriminate. }
  destruct (resolve_user_with_address data w _ Hu Hk Hne Hcase)
    as (u & wu & E & Hue & Hku & Huq).
  destruct (post_schedule_effect zod_email zod_datetime Date_parse toISOString
              env body data t0 w wu u Hp Hs He Hd E Hfr)
    as (o & w1 & Epost & Eus & Ejobs & _ & Hrows & _).
  subst w'. rewrite Epost in *. simpl in *.
  assert (Hf : find_by_email (users w1) (sanitizeEmail q) = Some u).
  { apply (find_by_email_unique w1 _ (user_id u)); [|by rewrite Eus|done].
    unfold emails_unique. by rewrite Eus. }
  destruct (user_for_get_result (ScheduledRows []) _ w1 Hre)
    as (r & w2 & E' & _ & _ & _ & Hfound).
  destruct (Hfound u Hf) as [-> ->].
  destruct (findMany_user_rows orderBy orderBy_perm [pending; scheduled] (user_id u)
              scheduledAt false w1) as (rows & Eq & _ & Hin & Hall).
  pose proof (sanitized_nonempty q Hre) as Hq.
  unfold get_scheduled, listing. rewrite bool_decide_false by done.
  rewrite Hre. simpl. unfold_monad. rewrite E', Eq.
  rewrite owned_rows; last first.
  { intros [r j] Hr%Hin. by apply elem_of_matching_rows in Hr as (_ & _ & _ & ?). }
  eexists. split; [reflexivity|].
  intros i email Hi. specialize (Hrows i email Hi).
  set (r := row_after env data t0 i
              (new_recipient (gen_id (S (nextId w) + i)) email (gen_id (nextId w)) pending))
    in *.
  set (job := mkEmailJob (gen_id (nextId w)) (d_subject data) (d_body data) t0
                (d_delaySeconds data) (d_hourlyLimit data) default_job_status (user_id u))
    in *.
  assert (Hst : rcp_status r = pending ∨ rcp_status r = scheduled).
  { unfold r, row_after, data_schedule. simpl. destruct (_ <? _); auto. }
  assert (Hr : (r, job) ∈ rows).
  { apply (Hall (Hcap (user_id u))). apply elem_of_matching_rows. split_and!.
    - by eapply elem_of_all_recipients.
    - rewrite Ejobs. unfold r, row_after, data_schedule. simpl.
      by rewrite lookup_insert_eq.
    - destruct Hst as [E1 | E1]; rewrite E1; [constructor|do 2 constructor].
    - done. }
  exists (rcp_status r). split; [done|].
  apply list_elem_of_fmap. exists (r, job). split; [|done]. reflexivity.
Qed.

End RoundTrip.

(** ** Signing in *)

Lemma gen_id_nonempty (n : nat) : gen_id n ≠ "".
Proof. unfold gen_id. rewrite app_cons. discriminate. Qed.

(** The first sign-in with an address that no stored user has. *)
Lemma authorize_first (email : string) (w : World) :
  email ≠ "" → find_by_email (users w) email = None →
  users w !! gen_id (nextId w) = None →
  let u := mkUser (gen_id (nextId w)) email (Some (Text.before_at email)) in
  authorize email "password" w
  = (Ok (Some u),
     log_write (UserCreated u)
       (set_users (insert (gen_id (nextId w)) u) (set_nextId (S (nextId w)) w))).
Proof.
  intros He Hf Hid u. unfold authorize. rewrite (bool_decide_false (email = "")) by done.
  simpl. unfold_monad. unfold db_user_findUnique_email. rewrite Hf.
  unfold db_user_create. simpl. by rewrite bool_decide_true.
Qed.

(** A sign-in with the address of a stored user. *)
Lemma authorize_known (email : string) (w : World) (u : User) :
  email ≠ "" → find_by_email (users w) email = Some u →
  authorize email "password" w = (Ok (Some u), w).
Proof.
  intros He Hf. unfold authorize. rewrite (bool_decide_false (email = "")) by done.
  simpl. unfold_monad. unfold db_user_findUnique_email. by rewrite Hf.
Qed.

Lemma find_by_email_inserted (us : gmap string User) (k : string) (u : User) :
  find_by_email us (user_email u) = None →
  find_by_email (<[k := u]> us) (user_email u) = Some u.
Proof.
  intros Hf.
  destruct (find_by_email (<[k := u]> us) (user_email u)) as [u'|] eqn:E.
  - apply find_by_email_Some in E as [[k' Hk'] He'].
    rewrite lookup_insert in Hk'. case_decide; [by injection Hk' as ->|].
    by destruct (find_by_email_None _ _ Hf k' u' Hk').
  - destruct (find_by_email_None _ _ E k u); [by rewrite lookup_insert_eq|done].
Qed.

(** X17.  Signing in with the credentials provider.  Without an address,
    or with a password other than "password", nobody is signed in and
    nothing is written.  With the address of a stored user, a stored user
    with that address is signed in and nothing is written.  With an
    address no stored user has, one user is created with the address as
    it was typed and the text before the [@] as the name, and signing in
    again yields that same user and writes nothing. *)
Theorem X17_sign_in (email password : string) (w : World) :
  (email = "" ∨ password ≠ "password" → authorize email password w = (Ok None, w))
  ∧ (email ≠ "" → ∀ k u, users w !! k = Some u → user_email u = email →
       ∃ u', authorize email "password" w = (Ok (Some u'), w) ∧ user_email u' = email)
  ∧ (email ≠ "" → find_by_email (users w) email = None →
       users w !! gen_id (nextId w) = None →
       let u := mkUser (gen_id (nextId w)) email (Some (Text.before_at email)) in
       let w1 := snd (authorize email "password" w) in
       fst (authorize email "password" w) = Ok (Some u)
       ∧ new_writes w w1 = [UserCreated u]
       ∧ users w1 = <[gen_id (nextId w) := u]> (users w)
       ∧ authorize email "password" w1 = (Ok (Some u), w1)).
Proof.
  split_and!.
  - intros [-> | Hp]; [done|]. unfold authorize.
    destruct (bool_decide (email = "") || bool_decide (password = "")); [done|].
    by rewrite (bool_decide_false (password = "password")).
  - intros He k u Hk Hu.
    destruct (find_by_email (users w) email) as [u'|] eqn:Hf.
    + exists u'. split; [by apply authorize_known|].
      by apply find_by_email_Some in Hf as [_ ?].
    + by destruct (find_by_email_None _ _ Hf k u Hk).
  - intros He Hf Hid u w1. subst w1. rewrite (authorize_first email w He Hf Hid).
    fold u. simpl. split_and!; try done.
    + by apply new_writes_app.
    + apply authorize_known; [done|]. simpl.
      by apply (find_by_email_inserted (users w) (gen_id (nextId w)) u).
Qed.

(** ** An address typed with capitals *)

Section TypedWithCapitals.

Variable zod_email : string → bool.
Variable zod_datetime : string → bool.
Variable Date_parse : string → option Z.
Variable toISOString : Z → string.
Variable orderBy : (EmailRecipient → option Z) → bool
                   → list (EmailRecipient * EmailJob) → list (EmailRecipient * EmailJob).
Hypothesis orderBy_perm : ∀ col desc rows, orderBy col desc rows ≡ₚ rows.

Local Abbreviation parse := (scheduleEmailSchema_parse zod_email zod_datetime Date_parse toISOString).
Local Abbreviation post := (post_schedule zod_email zod_datetime Date_parse toISOString).

(** X16.  Sign-in stores the address as it was typed, the listings look
    up the sanitised address.  So for a new user who signs in with an
    address that sanitising changes (a capital letter, a space at an
    end), and then submits a valid request under the identifier the
    sign-in gave, the job and its recipient rows are stored under that
    user, yet the scheduled listing for the address - typed the same way
    or sanitised - creates a second user with the sanitised address and
    answers with an empty array. *)
Theorem X16_address_typed_with_capitals (email : string) (env : SubmitEnv)
    (body : ScheduleBody) (data : ScheduleData) (t0 : Z) (w : World) :
  sanitizeEmail email ≠ email →
  Text.emailRegex_test (sanitizeEmail email) = true →
  store_ok w →
  (∀ m, (nextId w ≤ m)%nat → users w !! gen_id m = None) →
  (∀ k u, users w !! k = Some u →
     user_email u ≠ email ∧ user_email u ≠ sanitizeEmail email) →
  parse body = inr data →
  d_userId data = gen_id (nextId w) →
  Date_parse (d_startTime data) = Some t0 →
  let n := nextId w in
  let N := length (d_recipients data) in
  let u := mkUser (gen_id n) email (Some (Text.before_at email)) in
  let u2 := mkUser (gen_id (S (S n) + N)) (sanitizeEmail email)
              (Some (Text.before_at (sanitizeEmail email))) in
  let w1 := snd (authorize email "password" w) in
  let w2 := snd (post env body w1) in
  let listed := get_scheduled toISOString orderBy (JString email) w2 in
  fst (authorize email "password" w) = Ok (Some u)
  ∧ (∃ job, jobs w2 !! gen_id (S n) = Some job ∧ job_userId job = gen_id n)
  ∧ (∀ i a, d_recipients data !! i = Some a →
       ∃ r, recipients w2 !! gen_id (S (S n) + i) = Some r
            ∧ rcp_email r = a ∧ emailJobId r = gen_id (S n)
            ∧ (rcp_status r = pending ∨ rcp_status r = scheduled))
  ∧ fst listed = Ok (mkResponse 200 (ScheduledRows []))
  ∧ users (snd listed) = <[gen_id (S (S n) + N) := u2]> (<[gen_id n := u]> (users w))
  ∧ get_scheduled toISOString orderBy (JString (sanitizeEmail email)) w2 = listed.
Proof.
  intros Hdiff Hre Hok Hgen Hnew Hp Hid Hd n N u u2 w1 w2 listed.
  pose proof (sanitized_nonempty email Hre) as Hne.
  assert (Hf : find_by_email (users w) email = None).
  { apply find_by_email_None_intro. intros k x Hk. by apply (Hnew k x). }
  assert (Hfree : users w !! gen_id n = None) by (apply Hgen; unfold n; lia).
  pose proof (authorize_first email w Hne Hf Hfree) as Ea. cbv zeta in Ea. fold n u in Ea.
  pose proof (keeps_ok_authorize email "password" w Hok) as Hok1. fold w1 in Hok1.
  assert (Ew1 : w1 = log_write (UserCreated u)
                       (set_users (insert (gen_id n) u) (set_nextId (S n) w)))
    by (unfold w1; by rewrite Ea).
  clearbody w1.
  assert (Eres : resolve_user data w1 = (Ok (inr u), w1)).
  { pose proof (resolve_user_cases data w1) as H. rewrite Hid in H. fold n in H.
    assert (users w1 !! gen_id n = Some u) as Hu
      by (rewrite Ew1; simpl; by rewrite lookup_insert_eq).
    by rewrite Hu in H. }
  assert (Hs1 : d_userId data ≠ "default-user").
  { rewrite Hid. apply gen_id_not_sentinel. }
  assert (Hs2 : d_userId data ≠ "") by (rewrite Hid; apply gen_id_nonempty).
  destruct Hok1 as (_ & _ & Hfr1).
  destruct (post_schedule_effect zod_email zod_datetime Date_parse toISOString
              env body data t0 w1 w1 u Hp Hs1 Hs2 Hd Eres Hfr1)
    as (o & w2' & Epost & Eus & Ejobs & En & Hrows & _).
  rewrite Ew1 in Ejobs, En, Hrows, Eus. simpl in Ejobs, En, Hrows, Eus. fold N in En.
  assert (Ew2 : w2 = w2') by (unfold w2; by rewrite Epost).
  clearbody w2. subst w2.
  destruct Hok as (Hk & Hfk & Hfr).
  set (sq := sanitizeEmail email) in *.
  assert (Hf2 : find_by_email (users w2') sq = None).
  { apply find_by_email_None_intro. intros k x. rewrite Eus, lookup_insert.
    case_decide.
    - intros [= <-]. simpl. done.
    - intros Hk'. by apply (Hnew k x). }
  assert (Hfree2 : users w2' !! gen_id (nextId w2') = None).
  { rewrite Eus, En, lookup_insert_ne.
    - apply Hgen. unfold n. lia.
    - intros E%(inj gen_id). lia. }
  assert (Elist : ∀ s, sanitizeEmail s = sq →
            get_scheduled toISOString orderBy (JString s) w2'
            = (Ok (mkResponse 200 (ScheduledRows [])),
               log_write (UserCreated u2)
                 (set_users (insert (gen_id (S (S n) + N)) u2)
                    (set_nextId (S (S (S n) + N)) w2')))).
  { intros s Es.
    assert (Hs : s ≠ "") by (apply sanitized_nonempty; by rewrite Es).
    pose proof (user_for_get_unknown (ScheduledRows []) sq w2' Hre Hf2 Hfree2) as Eu.
    cbv zeta in Eu. rewrite En in Eu. fold u2 in Eu.
    unfold get_scheduled, listing. rewrite bool_decide_false by done.
    rewrite Es, Hre. simpl. unfold_monad. rewrite Eu.
    rewrite (findMany_user_no_jobs orderBy orderBy_perm); [done|].
    simpl. intros k j. rewrite Ejobs, lookup_insert. case_decide.
    - intros [= <-]. simpl. intros E%(inj gen_id). lia.
    - intros Hj E. destruct (Hfk k j Hj) as [x Hx]. rewrite E in Hx.
      rewrite Hgen in Hx; [done|unfold n; lia]. }
  assert (Esq : sanitizeEmail sq = sq).
  { unfold sq, sanitizeEmail. by rewrite trim_toLowerCase, toLowerCase_idem, trim_idem. }
  subst listed. rewrite (Elist email eq_refl), (Elist sq Esq). simpl.
  split_and!; try done.
  - by rewrite Ea.
  - eexists. rewrite Ejobs, lookup_insert_eq. split; [reflexivity|done].
  - intros i a Hi. rewrite (Hrows i a Hi). eexists. split; [reflexivity|].
    unfold row_after, data_schedule. simpl. split_and!; try done.
    destruct (_ <? _); auto.
  - by rewrite Eus.
Qed.

End TypedWithCapitals.

(** ** The gateway *)

Lemma gateway_normalize_sanitizeEmail (email : string) :
  gateway_normalize email = sanitizeEmail email.
Proof. unfold gateway_normalize, sanitizeEmail. apply trim_toLowerCase. Qed.

Lemma relay_data (response : Response) (w : World) (data : ResponseBody) :
  ∀ gw w', relay response w = (Ok gw, w') → gw_body gw = GwData data →
    res_body response = data ∧ w' = w.
Proof.
  intros gw w'. unfold relay. destruct (negb (response_ok response)).
  - by intros [= <- <-].
  - by intros [= <- <-] [= <-].
Qed.

Section GatewayListing.

Variable toISOString : Z → string.
Variable orderBy : (EmailRecipient → option Z) → bool
                   → list (EmailRecipient * EmailJob) → list (EmailRecipient * EmailJob).
Hypothesis orderBy_perm : ∀ col desc rows, orderBy col desc rows ≡ₚ rows.

(** X18.  Through the gateway nobody gets at the rows of another user.
    The gateway's listing route always answers.  Without a session address
    the answer is 401; when the requested address, normalised, is not the
    session's the answer is 400 or 403 and carries no data; in both cases
    the service is not reached and nothing is written, whatever the link
    to the service does.  And when the answer carries rows, the session
    has an address and every row shows a stored recipient whose job belongs
    to a stored user with that address, sanitised. *)
Theorem X18_gateway_shows_own_rows_only (session : option SessionUser)
    (userEmail : option string) (link : Link) (w : World) :
  ∃ gw w',
    gateway_GET toISOString orderBy session userEmail link w = (Ok gw, w')
    ∧ (truthy (default JUndefined (su_email <$> session)) = false →
         gw = mkGateway 401 (GwError "Unauthorized") ∧ w' = w)
    ∧ (∀ user e q, session = Some user → su_email user = JString e → e ≠ "" →
         userEmail = Some q → sanitizeEmail q ≠ sanitizeEmail e →
         (gw_status gw = 400 ∨ gw_status gw = 403)
         ∧ (∃ error, gw_body gw = GwError error) ∧ w' = w)
    ∧ (∀ rows, gw_body gw = GwData (ScheduledRows rows) →
         ∃ user e, session = Some user ∧ su_email user = JString e
           ∧ ∀ row, row ∈ rows →
               ∃ r j, row = scheduled_row toISOString (r, j)
                      ∧ r ∈ all_recipients w' ∧ jobs w' !! emailJobId r = Some j
                      ∧ ∃ k u, users w' !! k = Some u ∧ job_userId j = user_id u
                               ∧ user_email u = sanitizeEmail e).
Proof.
  unfold gateway_GET.
  destruct (truthy (default JUndefined (su_email <$> session))) eqn:Ht; simpl.
  2:{ eexists _, _. split; [reflexivity|]. split_and!; try done.
      intros user e q -> He Hne. simpl in Ht. rewrite He in Ht. simpl in Ht.
      by rewrite bool_decide_false in Ht. }
  destruct userEmail as [q|]; last first.
  { eexists _, _. split; [reflexivity|]. split_and!; try done. }
  destruct (decide (q = "")) as [->|Hq].
  { eexists _, _. split; [reflexivity|]. split_and!; try done.
    intros user e q' _ _ _ [= <-] _. simpl. eauto. }
  destruct session as [user|]; [|done]. simpl in Ht.
  assert (∀ X (a b : X), match q with "" => a | String _ _ => b end = b) as Hm
    by (intros; by destruct q).
  rewrite Hm. unfold_monad.
  change (default JUndefined (su_email <$> Some user)) with (su_email user).
  destruct (su_email user) as [| |b|n|e|l] eqn:He;
    try (eexists _, _; split; [reflexivity|];
         split_and!; [done|intros ? ? ? [= <-] He'; congruence|done]).
  rewrite !gateway_normalize_sanitizeEmail.
  destruct (decide (sanitizeEmail q = sanitizeEmail e)) as [Heq|Hneq].
  2:{ rewrite bool_decide_false by done. simpl.
      eexists _, _. split; [reflexivity|]. split_and!; try done.
      intros user' e' q' [= <-] He' _ [= <-] _. rewrite He in He'. injection He' as <-. simpl. eauto. }
  rewrite bool_decide_true by done. simpl.
  destruct (get_scheduled_owned toISOString orderBy orderBy_perm (sanitizeEmail q) w)
    as (response & w1 & Eg & Hrows).
  assert (Hsan : sanitizeEmail (sanitizeEmail q) = sanitizeEmail e).
  { rewrite <- Heq. unfold sanitizeEmail.
    by rewrite trim_toLowerCase, toLowerCase_idem, trim_idem. }
  destruct link; unfold fetch; unfold_monad; rewrite ?Eg; simpl.
  - eexists _, _. split; [reflexivity|]. split_and!; try done.
    intros user' e' q' [= <-] He' _ [= <-] Hne. rewrite He in He'. injection He' as <-. done.
  - eexists _, _. split; [reflexivity|]. split_and!; try done.
    intros user' e' q' [= <-] He' _ [= <-] Hne. rewrite He in He'. injection He' as <-. done.
  - unfold relay. destruct (negb (response_ok response)); simpl.
    + eexists _, _. split; [reflexivity|]. split_and!; try done.
      intros user' e' q' [= <-] He' _ [= <-] Hne. rewrite He in He'. injection He' as <-. done.
    + eexists _, _. split; [reflexivity|]. split_and!; try done.
      * intros user' e' q' [= <-] He' _ [= <-] Hne. rewrite He in He'. injection He' as <-. done.
      * simpl. intros rows [= Hb]. exists user, e. split_and!; try done.
        intros row Hrow. destruct (Hrows rows Hb) as [_ Hall].
        destruct (Hall row Hrow) as (r & j & -> & Hr & Hj & _ & k & u & Hk & Hu & Hue).
        exists r, j. split_and!; try done. exists k, u. by rewrite <- Hsan.
Qed.

End GatewayListing.

(** ** Who a submission through the gateway belongs to *)

Lemma keeps_jobs_frame (J : gmap string EmailJob) {A} (m : M A) :
  (∀ w, jobs (snd (m w)) = jobs w) → keeps (λ w, jobs w = J) m.
Proof. intros H w Hw. by rewrite H. Qed.

Section GatewaySubmission.

Variable zod_email : string → bool.
Variable zod_datetime : string → bool.
Variable Date_parse : string → option Z.
Variable toISOString : Z → string.

Local Abbreviation parse := (scheduleEmailSchema_parse zod_email zod_datetime Date_parse toISOString).
Local Abbreviation post := (post_schedule zod_email zod_datetime Date_parse toISOString).

(** A submission, whatever the request and whatever comes of it, leaves
    the job table as it was or adds one job, under the next generated
    identifier, that belongs to the user the request resolves to. *)
Lemma post_schedule_jobs (env : SubmitEnv) (body : ScheduleBody) (w : World) :
  jobs (snd (post env body w)) = jobs w
  ∨ ∃ data u wu j,
      parse body = inr data ∧ resolve_user data w = (Ok (inr u), wu)
      ∧ job_userId j = user_id u
      ∧ jobs (snd (post env body w)) = <[gen_id (nextId w) := j]> (jobs w).
Proof.
  unfold post_schedule, schedule_try, parse_or_throw.
  destruct (parse body) as [paths|data] eqn:Hp; [by left|].
  unfold_monad.
  destruct (bool_decide (d_userId data = "default-user") || bool_decide (d_userId data = ""));
    [by left|].
  destruct (resolve_user_spec data w) as (o & wu & E & Ej & _ & En & _).
  rewrite E. destruct o as [early|u]; [left; by rewrite <- Ej|].
  unfold db_emailJob_create.
  destruct (Date_parse (d_startTime data)) as [t|]; [|left; by rewrite <- Ej].
  case_bool_decide; [|left; by rewrite <- Ej].
  set (job := mkEmailJob _ _ _ _ _ _ _ _).
  set (rs := imap _ _).
  set (w1 := log_write _ _).
  assert (Hk : keeps (λ w', jobs w' = jobs w1)
                 (promise_all (schedule_one env data (default 0 (Some t)) job u) rs 0)).
  { apply keeps_promise_all. intros r i. unfold schedule_one.
    repeat keeps_step; apply keeps_jobs_frame; intros w0.
    - unfold db_emailRecipient_update. by destruct (recipients w0 !! _).
    - unfold emailQueue_add. by destruct (refusal env i). }
  specialize (Hk w1 eq_refl).
  right. exists data, u, wu, job. split_and!; try done.
  cbv beta in Hk.
  destruct (promise_all _ rs 0 w1) as [[us|e] w2]; simpl in Hk |- *;
    [|unfold schedule_catch; destruct e; simpl];
    rewrite Hk; unfold w1; simpl; by rewrite Ej, En.
Qed.

(** X19.  The gateway decides whose submission it is.  Without a session
    identifier the answer is 401 and the service is not reached.  The
    [userId] and [userEmail] a client puts into the body are dropped in
    favour of the session's.  And when the session's identifier is that of
    a stored user, every job that a request through the gateway adds to
    the store belongs to that user, whatever the body holds and whatever
    the link to the service does. *)
Theorem X19_gateway_submits_for_the_session_user (env : SubmitEnv)
    (session : option SessionUser) (body : option ScheduleBody) (link : Link) (w : World) :
  let run := gateway_POST zod_email zod_datetime Date_parse toISOString env session body
               link w in
  (truthy (default JUndefined (su_id <$> session)) = false →
     run = (Ok (mkGateway 401 (GwError "Unauthorized")), w))
  ∧ (∀ b userId userEmail, body = Some b →
       gateway_POST zod_email zod_datetime Date_parse toISOString env session
         (Some (mkBody (b_subject b) (b_body b) (b_recipients b) (b_startTime b)
                  (b_delaySeconds b) (b_hourlyLimit b) userId userEmail)) link w
       = run)
  ∧ (∀ user id u, session = Some user → su_id user = JString id →
       users w !! id = Some u → user_id u = id →
       ∀ k j, jobs (snd run) !! k = Some j → jobs w !! k = None → job_userId j = id).
Proof.
  intros run. subst run. split_and!.
  - destruct session as [user|]; [|done]. simpl. intros Ht.
    unfold gateway_POST. by rewrite Ht.
  - by intros b userId userEmail ->.
  - intros user id u -> Hid Hu Hkey k j Hj Hnew.
    destruct body as [b|]; last first.
    { unfold gateway_POST in Hj. destruct (negb (truthy (su_id user))); simpl in Hj;
        congruence. }
    set (rb := requestBody b user).
    assert (Hw : jobs (snd (gateway_POST zod_email zod_datetime Date_parse toISOString env
                              (Some user) (Some b) link w)) = jobs w
                 ∨ jobs (snd (gateway_POST zod_email zod_datetime Date_parse toISOString env
                                (Some user) (Some b) link w))
                   = jobs (snd (post env rb w))).
    { unfold gateway_POST. destruct (negb (truthy (su_id user))); [by left|].
      fold rb. unfold fetch, relay. unfold_monad.
      destruct link; [by left| |]; right;
        destruct (post env rb w) as [[r|e] w1]; simpl; try done.
      by destruct (negb (response_ok r)). }
    destruct Hw as [Hw|Hw]; rewrite Hw in Hj; [congruence|].
    destruct (post_schedule_jobs env rb w) as [E|(data & u' & wu & j' & Hp & Er & Ho & E)];
      rewrite E in Hj; [congruence|].
    assert (d_userId data = id) as Hd.
    { apply parse_inr in Hp as (_ & _ & _ & _ & _ & _ & Hp & _).
      unfold rb, requestBody in Hp. simpl in Hp. rewrite Hid in Hp. simpl in Hp.
      by injection Hp as <-. }
    pose proof (resolve_user_cases data w) as Hc. rewrite Hd, Hu, Er in Hc.
    injection Hc as -> _.
    rewrite lookup_insert in Hj. case_decide; [|congruence].
    injection Hj as <-. by rewrite Ho.
Qed.

End GatewaySubmission.

(** ** From a submission through the worker to the sent listing *)

Section Delivered.

Variable zod_email : string → bool.
Variable zod_datetime : string → bool.
Variable Date_parse : string → option Z.
Variable toISOString : Z → string.
Variable orderBy : (EmailRecipient → option Z) → bool
                   → list (EmailRecipient * EmailJob) → list (EmailRecipient * EmailJob).
Hypothesis orderBy_perm : ∀ col desc rows, orderBy col desc rows ≡ₚ rows.

Local Abbreviation parse := (scheduleEmailSchema_parse zod_email zod_datetime Date_parse toISOString).
Local Abbreviation post := (post_schedule zod_email zod_datetime Date_parse toISOString).

(** The tasks an accepted submission leaves in the queue. *)
Lemma post_schedule_queue (env : SubmitEnv) (body : ScheduleBody) (data : ScheduleData)
    (t0 : Z) (w wu : World) (u : User) :
  parse body = inr data →
  d_userId data ≠ "default-user" → d_userId data ≠ "" →
  Date_parse (d_startTime data) = Some t0 →
  resolve_user data w = (Ok (inr u), wu) → fresh_ids w →
  let n := nextId w in
  ∀ i email, d_recipients data !! i = Some email → refusal env i = None →
    mkQueued
      (mkTask (gen_id (S n + i)) email (d_subject data) (d_body data) (gen_id n)
         (user_id u) (d_hourlyLimit data))
      (Z.max 0 (t0 + Z.of_nat i * d_delaySeconds data * 1000 - clock env i)) 3 5000
    ∈ queue (snd (post env body w)).
Proof.
  intros Hp Hs He Ht Eu Hfresh n i email Hi Href.
  unfold post_schedule, schedule_try, parse_or_throw. rewrite Hp. unfold_monad.
  rewrite !bool_decide_false by done. simpl.
  destruct (resolve_user_spec data w) as (ou & wu' & Eu' & Hj & Hr & Hn & _).
  rewrite Eu in Eu'. injection Eu' as <- <-. rewrite Eu.
  unfold db_emailJob_create. rewrite Ht. rewrite Hn. fold n.
  set (rs := imap _ _).
  set (N := length (d_recipients data)).
  assert (Hids : ∀ r, r ∈ rs → ∃ i, (i < N)%nat ∧ rcp_id r = gen_id (S n + i)).
  { intros r [k Hk]%list_elem_of_lookup_1. subst rs. rewrite created_rows_lookup in Hk.
    destruct (d_recipients data !! k) eqn:Hl; [|done].
    apply lookup_lt_Some in Hl. apply (inj Some) in Hk. subst r. by exists k. }
  rewrite bool_decide_true; last first.
  { split.
    - rewrite Hj. by apply Hfresh.
    - apply Forall_forall. intros r (k & _ & Hk)%Hids.
      rewrite Hk, Hr. apply Hfresh. unfold n. lia. }
  set (job := mkEmailJob _ _ _ _ _ _ _ _).
  set (w2 := log_write _ _).
  destruct (promise_all_schedule env data t0 job u rs 0 w2)
    as (o & w' & E & _ & _ & _ & _ & _ & _ & Hq & _).
  { apply created_rows_NoDup. }
  { intros r Hin. subst w2. simpl. apply insert_recipients_in; [|done].
    apply created_rows_NoDup. }
  simpl. rewrite E.
  specialize (Hq i (new_recipient (gen_id (S n + i)) email (gen_id n) pending)).
  simpl in Hq. unfold task_after in Hq. simpl in Hq.
  assert (Hqueue : ∀ e, queue (snd (schedule_catch e w')) = queue w')
    by (intros e; by destruct e).
  destruct o as [us|e]; simpl; rewrite ?Hqueue; apply Hq; try done;
    subst rs; rewrite created_rows_lookup; by rewrite Hi.
Qed.

(** X22.  From the submission to the sent listing.  A stored user submits
    a valid request and the queue takes the task of one of its recipients.
    Then that task is in the queue with the recipient's identifier, the
    job's identifier, the user's identifier and hourly limit, three
    attempts and a delay that reaches from the handler's clock to the
    recipient's send time.  When the worker runs that task, is admitted
    by the rate limiter and the transport delivers, it returns the
    message identifier, and the sent listing for the user's address then
    shows the recipient with the job's subject and body, the time of
    sending and status [sent] (provided no user has more than 100 sent or
    failed rows). *)
Theorem X22_submitted_delivered_listed (env : SubmitEnv) (body : ScheduleBody)
    (data : ScheduleData) (t0 : Z) (w : World) (q : string) (u : User) (i : nat)
    (email : string) (wenv : WorkerEnv) (messageId : string) :
  parse body = inr data →
  d_userId data ≠ "default-user" → d_userId data ≠ "" →
  Date_parse (d_startTime data) = Some t0 →
  store_ok w → emails_unique w →
  Text.emailRegex_test (sanitizeEmail q) = true →
  users w !! d_userId data = Some u → user_email u = sanitizeEmail q →
  d_recipients data !! i = Some email → refusal env i = None →
  mail wenv = Delivered messageId →
  let n := nextId w in
  let id := gen_id (S n + i) in
  let task := mkTask id email (d_subject data) (d_body data) (gen_id n) (d_userId data)
                (d_hourlyLimit data) in
  let w1 := snd (post env body w) in
  fst (checkRateLimit (now_check wenv) (d_userId data) (d_hourlyLimit data) w1) = Ok true →
  let w2 := snd (worker wenv task w1) in
  (∀ userId, (length (matching_rows [sent; failed] userId w2) ≤ 100)%nat) →
  mkQueued task (Z.max 0 (t0 + Z.of_nat i * d_delaySeconds data * 1000 - clock env i))
    3 5000 ∈ queue w1
  ∧ fst (worker wenv task w1) = Ok messageId
  ∧ ∃ rows,
      get_sent toISOString orderBy (JString q) w2
      = (Ok (mkResponse 200 (SentRows rows)), w2)
      ∧ (id, email, d_subject data, d_body data, Some (toISOString (now_sent wenv)),
         sent, None) ∈ rows.
Proof.
  intros Hp Hs He Hd (Hk & Hfk & Hfr) Hu Hre Hus Hue Hi Href Hmail n id task w1 Hadm w2 Hcap.
  pose proof (resolve_user_cases data w) as Eres. rewrite Hus in Eres.
  pose proof (Hk _ _ Hus) as Hid.
  pose proof (post_schedule_queue env body data t0 w w u Hp Hs He Hd Eres Hfr i email
                Hi Href) as Hq.
  cbv zeta in Hq. rewrite Hid in Hq. fold n id task w1 in Hq.
  destruct (post_schedule_effect zod_email zod_datetime Date_parse toISOString
              env body data t0 w w u Hp Hs He Hd Eres Hfr)
    as (o & w1' & Epost & Eus & Ejobs & _ & Hrows & _).
  assert (w1' = w1) as -> by (unfold w1; by rewrite Epost).
  specialize (Hrows i email Hi). fold n id in Hrows.
  set (r := row_after env data t0 i (new_recipient id email (gen_id n) pending)) in *.
  set (job := mkEmailJob (gen_id n) (d_subject data) (d_body data) t0
                (d_delaySeconds data) (d_hourlyLimit data) default_job_status (user_id u))
    in *.
  assert (Hjob : jobs w1 !! gen_id n = Some job) by (by rewrite Ejobs, lookup_insert_eq).
  destruct (checkRateLimit_frame (now_check wenv) (d_userId data) (d_hourlyLimit data) w1)
    as (b & r0 & Ec).
  rewrite Ec in Hadm. simpl in Hadm. injection Hadm as ->.
  destruct (worker_delivered wenv task w1 _ r messageId Ec Hmail Hrows)
    as [Hres Hrow]; [unfold task; simpl; by rewrite Hjob|].
  fold w2 in Hrow. simpl in Hrow.
  pose proof (keeps_frame_worker task w1 wenv w1 (worker_frame_refl task w1)) as Hframe.
  fold w2 in Hframe.
  destruct Hframe as (Eus2 & _ & _ & _ & _ & _ & Hstep).
  simpl in Hstep. rewrite Hjob in Hstep.
  inversion Hstep as [j0 j2 Hj2 E0 E2|]; subst j0. symmetry in E2.
  assert (Hj2' : job_subject j2 = d_subject data ∧ job_body j2 = d_body data
                 ∧ job_userId j2 = user_id u) by (by destruct Hj2 as [-> | ->]).
  destruct Hj2' as (Hsub & Hbod & Hown).
  split_and!; [done|done|].
  assert (Hf : find_by_email (users w2) (sanitizeEmail q) = Some u).
  { apply (find_by_email_unique w2 _ (d_userId data)).
    - unfold emails_unique. by rewrite Eus2, Eus.
    - by rewrite Eus2, Eus.
    - done. }
  destruct (user_for_get_result (SentRows []) _ w2 Hre) as (x & w3 & E' & _ & _ & _ & Hfound).
  destruct (Hfound u Hf) as [-> ->].
  destruct (findMany_user_rows orderBy orderBy_perm [sent; failed] (user_id u)
              sentAt true w2) as (rows & Eq & _ & Hin & Hall).
  pose proof (sanitized_nonempty q Hre) as Hq0.
  unfold get_sent, listing. rewrite bool_decide_false by done.
  rewrite Hre. simpl. unfold_monad. rewrite E', Eq.
  rewrite owned_rows; last first.
  { intros [r' j'] Hr'%Hin. by apply elem_of_matching_rows in Hr' as (_ & _ & _ & ?). }
  eexists. split; [reflexivity|].
  assert (Hr : (data_sent (now_sent wenv) r, j2) ∈ rows).
  { apply (Hall (Hcap (user_id u))). apply elem_of_matching_rows. split_and!.
    - by eapply elem_of_all_recipients.
    - done.
    - simpl. constructor.
    - done. }
  apply list_elem_of_fmap. exists (data_sent (now_sent wenv) r, j2). split; [|done].
  simpl. by rewrite Hsub, Hbod.
Qed.

End Delivered.

(** ** Access by address *)

(** X21.  On a store in which every user sits under its own identifier
    and addresses are unique, [verifyUserAccess] answers true exactly when
    the requested address is well formed and is the address of the stored
    user with the session's identifier.  It compares the address as it is
    stored, without sanitising it, and writes nothing. *)
Theorem X21_verifyUserAccess_by_stored_address (requestedUserEmail sessionUserId : string)
    (w : World) :
  (∀ k u, users w !! k = Some u → user_id u = k) → emails_unique w →
  ∃ b, verifyUserAccess requestedUserEmail sessionUserId w = (Ok b, w)
       ∧ (b = true ↔ Text.emailRegex_test requestedUserEmail = true
                      ∧ ∃ u, users w !! sessionUserId = Some u
                             ∧ user_email u = requestedUserEmail).
Proof.
  intros Hk Hu. unfold verifyUserAccess, getUserByEmail.
  destruct (Text.emailRegex_test requestedUserEmail) eqn:Hre; simpl.
  2:{ exists false. split; [done|]. split; [done|]. by intros [? _]. }
  unfold_monad. unfold db_user_findUnique_email.
  destruct (find_by_email (users w) requestedUserEmail) as [u|] eqn:Hf.
  - eexists. split; [reflexivity|]. rewrite bool_decide_eq_true.
    pose proof Hf as [[k Hku] Hue]%find_by_email_Some.
    pose proof (Hk _ _ Hku) as Hid. split.
    + intros <-. split; [done|]. exists u. by rewrite Hid.
    + intros [_ (u' & Hu' & Hue')].
      rewrite (find_by_email_unique w _ _ _ Hu Hu' Hue') in Hf. injection Hf as ->.
      by apply Hk.
  - exists false. split; [done|]. split; [done|].
    intros [_ (u' & Hu' & Hue')]. by destruct (find_by_email_None _ _ Hf _ _ Hu').
Qed.

(** ** More of the properties on concrete inputs *)

Lemma emails_unique_empty : emails_unique empty_world.
Proof. intros k1 k2 u1 u2 H. simpl in H. rewrite lookup_empty in H. discriminate. Qed.

Lemma world_with_owner_keys (k : string) (u : User) :
  users Scenes.world_with_owner !! k = Some u → user_id u = k.
Proof. intros H. simpl in H. apply lookup_singleton_Some in H as [<- <-]. reflexivity. Qed.

Lemma store_ok_with_owner : store_ok Scenes.world_with_owner.
Proof.
  split_and!.
  - exact world_with_owner_keys.
  - intros k j H. simpl in H. rewrite lookup_empty in H. discriminate.
  - intros m _. split; reflexivity.
Qed.

Lemma emails_unique_with_owner : emails_unique Scenes.world_with_owner.
Proof.
  intros k1 k2 u1 u2 H1 H2 _. simpl in H1, H2.
  apply lookup_singleton_Some in H1 as [<- _].
  apply lookup_singleton_Some in H2 as [<- _]. reflexivity.
Qed.

Lemma X14_witness :
  ∃ rows rows',
    get_scheduled Sample.toISOString Sample.orderBy (JString " Me@X.com")
      Scenes.world_with_owner
    = (Ok (mkResponse 200 (ScheduledRows rows)), Scenes.world_with_owner)
    ∧ get_sent Sample.toISOString Sample.orderBy (JString " Me@X.com")
        Scenes.world_with_owner
      = (Ok (mkResponse 200 (SentRows rows')), Scenes.world_with_owner).
Proof.
  apply (proj2 (proj2 (X14_listing_refusals_and_reads Sample.toISOString Sample.orderBy
                         (JString " Me@X.com") Scenes.world_with_owner))
           " Me@X.com" "u1" (mkUser "u1" "me@x.com" (Some "me"))).
  - reflexivity.
  - vm_compute. reflexivity.
  - reflexivity.
  - reflexivity.
Defined.

Lemma X15_witness :
  let w' := snd (Sample.post Sample.env_now Sample.body empty_world) in
  ∃ rows,
    get_scheduled Sample.toISOString Sample.orderBy (JString "me@x.com") w'
    = (Ok (mkResponse 200 (ScheduledRows rows)), w')
    ∧ ∀ i email, ["a@x.com"; "b@x.com"; "c@x.com"] !! i = Some email →
        ∃ st, (st = pending ∨ st = scheduled)
              ∧ (gen_id (S 0 + i), email, "Hello", "<p>Hello</p>",
                 Sample.toISOString (Sample.instant + Z.of_nat i * 5 * 1000), st) ∈ rows.
Proof.
  apply (X15_submitted_rows_are_listed Sample.zod_email Sample.zod_datetime
           Sample.Date_parse Sample.toISOString Sample.orderBy
           (λ _ _ rows, reflexivity rows) Sample.env_now Sample.body Sample.data
           Sample.instant empty_world "me@x.com").
  - vm_compute. reflexivity.
  - simpl. discriminate.
  - simpl. discriminate.
  - vm_compute. reflexivity.
  - exact store_ok_empty.
  - exact emails_unique_empty.
  - vm_compute. reflexivity.
  - right. split; reflexivity.
  - intros userId. etrans; [apply matching_rows_length|]. vm_compute. lia.
Defined.

Lemma X16_witness :
  let w1 := snd (authorize "Me@X.com" "password" empty_world) in
  let w2 := snd (Sample.post Sample.env_now FirstSignIn.body w1) in
  (∃ job, jobs w2 !! gen_id 1 = Some job ∧ job_userId job = gen_id 0)
  ∧ fst (get_scheduled Sample.toISOString Sample.orderBy (JString "Me@X.com") w2)
    = Ok (mkResponse 200 (ScheduledRows [])).
Proof.
  destruct (X16_address_typed_with_capitals Sample.zod_email Sample.zod_datetime
              Sample.Date_parse Sample.toISOString Sample.orderBy
              (λ _ _ rows, reflexivity rows) "Me@X.com" Sample.env_now FirstSignIn.body
              FirstSignIn.data Sample.instant empty_world)
    as (_ & Hjob & _ & Hlist & _).
  - vm_compute. discriminate.
  - vm_compute. reflexivity.
  - exact store_ok_empty.
  - intros m _. reflexivity.
  - intros k u H. simpl in H. rewrite lookup_empty in H. discriminate.
  - vm_compute. reflexivity.
  - vm_compute. reflexivity.
  - vm_compute. reflexivity.
  - split; [exact Hjob|exact Hlist].
Defined.

Lemma X17_witness :
  let u := mkUser (gen_id 0) "Me@X.com" (Some "Me") in
  let w1 := snd (authorize "Me@X.com" "password" empty_world) in
  fst (authorize "Me@X.com" "password" empty_world) = Ok (Some u)
  ∧ new_writes empty_world w1 = [UserCreated u]
  ∧ users w1 = <[gen_id 0 := u]> ∅
  ∧ authorize "Me@X.com" "password" w1 = (Ok (Some u), w1).
Proof.
  apply (proj2 (proj2 (X17_sign_in "Me@X.com" "password" empty_world))).
  - discriminate.
  - reflexivity.
  - reflexivity.
Defined.

Lemma X18_witness :
  ∃ gw w',
    gateway_GET Sample.toISOString Sample.orderBy (Some GatewayScenes.session_u1)
      (Some "me@x.com") Connected Scenes.world_with_owner = (Ok gw, w')
    ∧ (∀ user e q, Some GatewayScenes.session_u1 = Some user → su_email user = JString e →
         e ≠ "" → Some "me@x.com" = Some q → sanitizeEmail q ≠ sanitizeEmail e →
         (gw_status gw = 400 ∨ gw_status gw = 403)
         ∧ (∃ error, gw_body gw = GwError error) ∧ w' = Scenes.world_with_owner)
    ∧ (∀ rows, gw_body gw = GwData (ScheduledRows rows) →
         ∃ user e, Some GatewayScenes.session_u1 = Some user ∧ su_email user = JString e
           ∧ ∀ row, row ∈ rows →
               ∃ r j, row = scheduled_row Sample.toISOString (r, j)
                      ∧ r ∈ all_recipients w' ∧ jobs w' !! emailJobId r = Some j
                      ∧ ∃ k u, users w' !! k = Some u ∧ job_userId j = user_id u
                               ∧ user_email u = sanitizeEmail e).
Proof.
  destruct (X18_gateway_shows_own_rows_only Sample.toISOString Sample.orderBy
              (λ _ _ rows, reflexivity rows) (Some GatewayScenes.session_u1)
              (Some "me@x.com") Connected Scenes.world_with_owner)
    as (gw & w' & E & _ & H2 & H3).
  exists gw, w'. split_and!; [exact E|exact H2|exact H3].
Defined.

Lemma X19_witness :
  let run := gateway_POST Sample.zod_email Sample.zod_datetime Sample.Date_parse
               Sample.toISOString Sample.env_now (Some GatewayScenes.session_plain)
               (Some GatewayScenes.body_forged) Connected Scenes.world_with_owner in
  ∃ j, jobs (snd run) !! gen_id 0 = Some j ∧ job_userId j = "u1".
Proof.
  intros run. eexists. split; [vm_compute; reflexivity|].
  apply (proj2 (proj2 (X19_gateway_submits_for_the_session_user Sample.zod_email
                         Sample.zod_datetime Sample.Date_parse Sample.toISOString
                         Sample.env_now (Some GatewayScenes.session_plain)
                         (Some GatewayScenes.body_forged) Connected
                         Scenes.world_with_owner))
           GatewayScenes.session_plain "u1" (mkUser "u1" "me@x.com" (Some "me"))
           eq_refl eq_refl eq_refl eq_refl (gen_id 0)).
  - vm_compute. reflexivity.
  - vm_compute. reflexivity.
Defined.

Lemma X20_witness :
  let w := snd (Sample.post Sample.env_now Sample.body empty_world) in
  (∀ k u, users w !! k = Some u → user_id u = k)
  ∧ (∀ k1 k2 u1 u2, users w !! k1 = Some u1 → users w !! k2 = Some u2 →
       user_email u1 = user_email u2 → k1 = k2)
  ∧ (∀ k j, jobs w !! k = Some j → is_Some (users w !! job_userId j))
  ∧ (∀ m, (nextId w ≤ m)%nat →
       jobs w !! gen_id m = None ∧ recipients w !! gen_id m = None).
Proof.
  apply (X20_reachable_states_are_well_formed Sample.zod_email Sample.zod_datetime
           Sample.Date_parse Sample.toISOString Sample.orderBy).
  apply (reach_post _ _ _ _ _ empty_world Sample.env_now Sample.body
           (fst (Sample.post Sample.env_now Sample.body empty_world))).
  - apply reach_empty.
  - vm_compute. reflexivity.
Defined.

Lemma X21_witness :
  ∃ b, verifyUserAccess "me@x.com" "u1" Scenes.world_with_owner
       = (Ok b, Scenes.world_with_owner)
       ∧ (b = true ↔ Text.emailRegex_test "me@x.com" = true
                      ∧ ∃ u, users Scenes.world_with_owner !! "u1" = Some u
                             ∧ user_email u = "me@x.com").
Proof.
  apply (X21_verifyUserAccess_by_stored_address "me@x.com" "u1" Scenes.world_with_owner).
  - exact world_with_owner_keys.
  - exact emails_unique_with_owner.
Defined.

Lemma X22_witness :
  let task := mkTask (gen_id 1) "a@x.com" "Hello" "<p>Hello</p>" (gen_id 0) "u1" 1000 in
  let w1 := snd (Sample.post Sample.env_now Sample.body Scenes.world_with_owner) in
  let w2 := snd (worker OnTheHour.env task w1) in
  mkQueued task (Z.max 0 (Sample.instant + Z.of_nat 0 * 5 * 1000 - Sample.instant)) 3 5000
    ∈ queue w1
  ∧ fst (worker OnTheHour.env task w1) = Ok "<m1@x.com>"
  ∧ ∃ rows,
      get_sent Sample.toISOString Sample.orderBy (JString "me@x.com") w2
      = (Ok (mkResponse 200 (SentRows rows)), w2)
      ∧ (gen_id 1, "a@x.com", "Hello", "<p>Hello</p>",
         Some (Sample.toISOString OnTheHour.now), sent, None) ∈ rows.
Proof.
  apply (X22_submitted_delivered_listed Sample.zod_email Sample.zod_datetime
           Sample.Date_parse Sample.toISOString Sample.orderBy
           (λ _ _ rows, reflexivity rows) Sample.env_now Sample.body Sample.data
           Sample.instant Scenes.world_with_owner "me@x.com"
           (mkUser "u1" "me@x.com" (Some "me")) 0 "a@x.com" OnTheHour.env "<m1@x.com>").
  - vm_compute. reflexivity.
  - simpl. discriminate.
  - simpl. discriminate.
  - vm_compute. reflexivity.
  - exact store_ok_with_owner.
  - exact emails_unique_with_owner.
  - vm_compute. reflexivity.
  - reflexivity.
  - reflexivity.
  - reflexivity.
  - reflexivity.
  - reflexivity.
  - vm_compute. reflexivity.
  - intros userId. etrans; [apply matching_rows_length|]. vm_compute. lia.
Defined.

(** ** An address with capitals passed along with a submission *)

Section PassedWithCapitals.

Variable zod_email : string → bool.
Variable zod_datetime : string → bool.
Variable Date_parse : string → option Z.
Variable toISOString : Z → string.
Variable orderBy : (EmailRecipient → option Z) → bool
                   → list (EmailRecipient * EmailJob) → list (EmailRecipient * EmailJob).
Hypothesis orderBy_perm : ∀ col desc rows, orderBy col desc rows ≡ₚ rows.

Local Abbreviation parse := (scheduleEmailSchema_parse zod_email zod_datetime Date_parse toISOString).
Local Abbreviation post := (post_schedule zod_email zod_datetime Date_parse toISOString).

(** X23.  The submission handler stores the address it is passed as it
    is, the listings look up the sanitised address.  So when a valid
    submission comes for a user the store does not know, with an address
    that sanitising changes and that no stored user has in either form,
    the user is created with the address as passed and owns the new job
    and its rows, yet the scheduled listing for that address creates a
    second user, with the sanitised address, and answers with an empty
    array. *)
Theorem X23_address_passed_with_capitals (env : SubmitEnv) (body : ScheduleBody)
    (data : ScheduleData) (t0 : Z) (w : World) (e : string) :
  parse body = inr data →
  d_userId data ≠ "default-user" → d_userId data ≠ "" →
  Date_parse (d_startTime data) = Some t0 →
  store_ok w →
  users w !! d_userId data = None → d_userEmail data = Some e →
  sanitizeEmail e ≠ e →
  Text.emailRegex_test (sanitizeEmail e) = true →
  (∀ k u, users w !! k = Some u → user_email u ≠ e ∧ user_email u ≠ sanitizeEmail e) →
  (∀ m, (nextId w ≤ m)%nat → users w !! gen_id m = None ∧ d_userId data ≠ gen_id m) →
  let n := nextId w in
  let N := length (d_recipients data) in
  let u := mkUser (d_userId data) e (Some (Text.before_at e)) in
  let u2 := mkUser (gen_id (S n + N)) (sanitizeEmail e)
              (Some (Text.before_at (sanitizeEmail e))) in
  let w1 := snd (post env body w) in
  let listed := get_scheduled toISOString orderBy (JString e) w1 in
  users w1 = <[d_userId data := u]> (users w)
  ∧ (∃ job, jobs w1 !! gen_id n = Some job ∧ job_userId job = d_userId data)
  ∧ (∀ i a, d_recipients data !! i = Some a →
       ∃ r, recipients w1 !! gen_id (S n + i) = Some r
            ∧ rcp_email r = a ∧ emailJobId r = gen_id n
            ∧ (rcp_status r = pending ∨ rcp_status r = scheduled))
  ∧ fst listed = Ok (mkResponse 200 (ScheduledRows []))
  ∧ users (snd listed) = <[gen_id (S n + N) := u2]> (<[d_userId data := u]> (users w)).
Proof.
  intros Hp Hs1 Hs2 Hd (Hk & Hfk & Hfr) Hnone Hue Hdiff Hre Hnew Hgen n N u u2 w1 listed.
  pose proof (sanitized_nonempty e Hre) as Hne.
  assert (Hf : find_by_email (users w) e = None).
  { apply find_by_email_None_intro. intros k x Hkx. by apply (Hnew k x). }
  assert (Eres : resolve_user data w
                 = (Ok (inr u),
                    log_write (UserCreated u) (set_users (insert (d_userId data) u) w))).
  { pose proof (resolve_user_cases data w) as H. rewrite Hnone, Hue in H.
    destruct e as [|a e']; [done|]. by rewrite Hf in H. }
  destruct (post_schedule_effect zod_email zod_datetime Date_parse toISOString
              env body data t0 w _ u Hp Hs1 Hs2 Hd Eres Hfr)
    as (o & w1' & Epost & Eus & Ejobs & En & Hrows & _).
  simpl in Ejobs, En, Hrows, Eus. fold n N in En, Ejobs, Hrows.
  assert (Ew1 : w1 = w1') by (unfold w1; by rewrite Epost).
  clearbody w1. subst w1.
  set (sq := sanitizeEmail e) in *.
  assert (Hf2 : find_by_email (users w1') sq = None).
  { apply find_by_email_None_intro. intros k x. rewrite Eus, lookup_insert.
    case_decide.
    - intros [= <-]. simpl. done.
    - intros Hk'. by apply (Hnew k x). }
  assert (Hfree2 : users w1' !! gen_id (nextId w1') = None).
  { rewrite Eus, En. destruct (Hgen (S n + N)%nat) as [H1 H2]; [unfold n; lia|].
    by rewrite lookup_insert_ne. }
  pose proof (user_for_get_unknown (ScheduledRows []) sq w1' Hre Hf2 Hfree2) as Eu.
  cbv zeta in Eu. rewrite En in Eu. fold u2 in Eu.
  subst listed. unfold get_scheduled, listing. rewrite bool_decide_false by done.
  fold sq. rewrite Hre. simpl. unfold_monad. rewrite Eu.
  rewrite (findMany_user_no_jobs orderBy orderBy_perm); last first.
  { simpl. intros k j. rewrite Ejobs, lookup_insert. case_decide.
    - intros [= <-]. simpl. destruct (Hgen (S n + N)%nat); [unfold n; lia|done].
    - intros Hj E. destruct (Hfk k j Hj) as [x Hx].
      destruct (Hgen (S n + N)%nat) as [H1 _]; [unfold n; lia|].
      assert (users w !! job_userId j = None) as Hx' by (rewrite E; exact H1).
      congruence. }
  simpl. split_and!; try done.
  - eexists. rewrite Ejobs, lookup_insert_eq. split; [reflexivity|done].
  - intros i a Hi. rewrite (Hrows i a Hi). eexists. split; [reflexivity|].
    unfold row_after, data_schedule. simpl. split_and!; try done.
    destruct (_ <? _); auto.
  - by rewrite Eus.
Qed.

End PassedWithCapitals.

Lemma X23_witness :
  let w1 := snd (Sample.post Sample.env_now Capitals.body empty_world) in
  (∃ job, jobs w1 !! gen_id 0 = Some job ∧ job_userId job = "u1")
  ∧ fst (get_scheduled Sample.toISOString Sample.orderBy (JString "Me@X.com") w1)
    = Ok (mkResponse 200 (ScheduledRows [])).
Proof.
  destruct (X23_address_passed_with_capitals Sample.zod_email Sample.zod_datetime
              Sample.Date_parse Sample.toISOString Sample.orderBy
              (λ _ _ rows, reflexivity rows) Sample.env_now Capitals.body
              Capitals.data Sample.instant empty_world "Me@X.com")
    as (_ & Hjob & _ & Hlist & _).
  - vm_compute. reflexivity.
  - simpl. discriminate.
  - simpl. discriminate.
  - vm_compute. reflexivity.
  - exact store_ok_empty.
  - reflexivity.
  - reflexivity.
  - vm_compute. discriminate.
  - vm_compute. reflexivity.
  - intros k u H. simpl in H. rewrite lookup_empty in H. discriminate.
  - intros m Hm. split; [reflexivity|].
    simpl. unfold gen_id. rewrite app_cons. discriminate.
  - split; [exact Hjob|exact Hlist].
Defined.

(** ** The counters of the rate limiter expire *)

Section CounterFrame.

(** A property of the counter store alone. *)
Variable I : World → Prop.
Hypothesis I_redis : ∀ w w', redis w' = redis w → I w → I w'.

Lemma keeps_counters_frame {A} (m : M A) :
  (∀ w, redis (snd (m w)) = redis w) → keeps I m.
Proof. intros H w Hw. by apply (I_redis w). Qed.

Lemma keeps_counters_recipient_update (id : string)
    (data : EmailRecipient → EmailRecipient) :
  keeps I (db_emailRecipient_update id data).
Proof.
  apply keeps_counters_frame. intros w. unfold db_emailRecipient_update.
  by destruct (recipients w !! id).
Qed.

Lemma keeps_counters_queue_add (r : option string) (data : SendEmailJobData) (delay : Z) :
  keeps I (emailQueue_add r data delay).
Proof. apply keeps_counters_frame. intros w. unfold emailQueue_add. by destruct r. Qed.

Lemma keeps_counters_findMany_job (jobId : string) :
  keeps I (db_emailRecipient_findMany_job jobId).
Proof. by apply keeps_counters_frame. Qed.

Lemma keeps_counters_find_email (email : string) : keeps I (db_user_findUnique_email email).
Proof. by apply keeps_counters_frame. Qed.

Lemma keeps_counters_find_id (id : string) : keeps I (db_user_findUnique_id id).
Proof. by apply keeps_counters_frame. Qed.

Lemma keeps_counters_job_update (id : string) (st : JobStatus) :
  keeps I (db_emailJob_update id st).
Proof.
  apply keeps_counters_frame. intros w. unfold db_emailJob_update.
  by destruct (jobs w !! id).
Qed.

Lemma keeps_counters_job_create (subject body : string) (t : option Z) (d h : Z)
    (userId : string) (rcps : list (string * RecipientStatus)) :
  keeps I (db_emailJob_create subject body t d h userId rcps).
Proof.
  apply keeps_counters_frame. intros w. unfold db_emailJob_create.
  destruct t; [|done]. by case_bool_decide.
Qed.

Lemma keeps_counters_user_create (id : option string) (email name : string) :
  keeps I (db_user_create id email name).
Proof.
  apply keeps_counters_frame. intros w. unfold db_user_create.
  case_bool_decide; by destruct id.
Qed.

Lemma keeps_counters_getUserByEmail (email : string) : keeps I (getUserByEmail email).
Proof.
  unfold getUserByEmail. repeat keeps_step; apply keeps_counters_find_email.
Qed.

Lemma keeps_counters_authorize (email password : string) :
  keeps I (authorize email password).
Proof.
  unfold authorize. repeat keeps_step;
    first [apply keeps_counters_find_email | apply keeps_counters_user_create].
Qed.

Lemma keeps_counters_resolve_user (data : ScheduleData) : keeps I (resolve_user data).
Proof.
  unfold resolve_user. repeat keeps_step;
    first [apply keeps_counters_find_email | apply keeps_counters_find_id
          | apply keeps_counters_user_create].
Qed.

Variable zod_email : string → bool.
Variable zod_datetime : string → bool.
Variable Date_parse : string → option Z.
Variable toISOString : Z → string.
Variable orderBy : (EmailRecipient → option Z) → bool
                   → list (EmailRecipient * EmailJob) → list (EmailRecipient * EmailJob).

Lemma keeps_counters_findMany_user (statuses : list RecipientStatus) (userId : string)
    (col : EmailRecipient → option Z) (desc : bool) :
  keeps I (db_emailRecipient_findMany_user orderBy statuses userId col desc).
Proof. by apply keeps_counters_frame. Qed.

Lemma keeps_counters_user_for_get (empty : ResponseBody) (email : string) :
  keeps I (user_for_get empty email).
Proof.
  unfold user_for_get. repeat keeps_step;
    first [apply keeps_counters_getUserByEmail | apply keeps_counters_user_create].
Qed.

Lemma keeps_counters_get_scheduled (userEmail : JSValue) :
  keeps I (get_scheduled toISOString orderBy userEmail).
Proof.
  unfold get_scheduled, listing. repeat keeps_step;
    first [apply keeps_counters_user_for_get | apply keeps_counters_findMany_user].
Qed.

Lemma keeps_counters_get_sent (userEmail : JSValue) :
  keeps I (get_sent toISOString orderBy userEmail).
Proof.
  unfold get_sent, listing. repeat keeps_step;
    first [apply keeps_counters_user_for_get | apply keeps_counters_findMany_user].
Qed.

Lemma keeps_counters_post_schedule (env : SubmitEnv) (body : ScheduleBody) :
  keeps I (post_schedule zod_email zod_datetime Date_parse toISOString env body).
Proof.
  unfold post_schedule. apply keeps_try_catch;
    [|intros e; unfold schedule_catch; destruct e; apply keeps_ret].
  unfold schedule_try. apply keeps_bind.
  { unfold parse_or_throw. repeat keeps_step. }
  intros data.
  destruct (bool_decide (d_userId data = "default-user")); simpl; [apply keeps_ret|].
  destruct (bool_decide (d_userId data = "")); simpl; [apply keeps_ret|].
  apply keeps_bind; [apply keeps_counters_resolve_user|].
  intros [early|user]; [apply keeps_ret|].
  apply keeps_bind; [apply keeps_counters_job_create|].
  intros [emailJob rcps]. unfold schedule_one.
  repeat keeps_step;
    first [apply keeps_counters_recipient_update | apply keeps_counters_queue_add].
Qed.

End CounterFrame.

Lemma counters_expire_redis (w w' : World) :
  redis w' = redis w → counters_expire w → counters_expire w'.
Proof. intros E H. unfold counters_expire. by rewrite E. Qed.

Lemma keeps_expire_checkRateLimit (now : Z) (userId : string) (hourlyLimit : Z) :
  keeps counters_expire (checkRateLimit now userId hourlyLimit).
Proof.
  intros w Hw. unfold checkRateLimit, redis_incr. unfold_monad.
  set (key := rate_limit_key userId (hour_floor now)).
  set (e := default (0, None) (redis_get now key w)).
  assert (He : 0 ≤ e.1 ∧ (e.1 + 1 ≠ 1 → is_Some e.2)).
  { unfold e, redis_get. destruct (redis w !! key) as [e0|] eqn:E0; simpl; [|split; [lia|done]].
    destruct (Hw key e0 E0) as [H1 H2].
    destruct (redis_live now e0); simpl; [split; [lia|done]|split; [lia|done]]. }
  destruct He as [He1 He2].
  assert (Hins : ∀ x, is_Some x.2 → 1 ≤ x.1 →
            counters_expire (set_redis (insert key x) w)).
  { intros x Hx1 Hx2 k y. simpl. rewrite lookup_insert. case_decide.
    - by intros [= <-].
    - apply Hw. }
  case_bool_decide as Hc; simpl.
  - unfold redis_expire, redis_get. simpl. rewrite lookup_insert_eq.
    destruct (redis_live now (e.1 + 1, e.2)) eqn:El; simpl.
    + intros k y. simpl. rewrite insert_insert_eq. rewrite lookup_insert. case_decide.
      * intros [= <-]. simpl. split; [lia|done].
      * apply Hw.
    + apply Hins; simpl; [|lia]. unfold redis_live in El. simpl in El.
      by destruct (e.2).
  - apply Hins; simpl; [by apply He2|lia].
Qed.

Lemma keeps_expire_worker (env : WorkerEnv) (data : SendEmailJobData) :
  keeps counters_expire (worker env data).
Proof.
  unfold worker, worker_body, worker_catch, send_and_mark, completion_check.
  repeat keeps_step;
    first [apply keeps_expire_checkRateLimit
          | apply (keeps_counters_recipient_update _ counters_expire_redis)
          | apply (keeps_counters_findMany_job _ counters_expire_redis)
          | apply (keeps_counters_job_update _ counters_expire_redis)].
Qed.

Section CountersExpire.

Variable zod_email : string → bool.
Variable zod_datetime : string → bool.
Variable Date_parse : string → option Z.
Variable toISOString : Z → string.
Variable orderBy : (EmailRecipient → option Z) → bool
                   → list (EmailRecipient * EmailJob) → list (EmailRecipient * EmailJob).

(** X24.  No counter of the rate limiter is left without an expiry.  In
    every state the service can reach from the empty store, each key of the
    counter store counts at least one call and has a time to live; and
    only the worker touches the counter store: submissions, listings and
    sign-ins leave it as it is. *)
Theorem X24_counters_expire (w : World) :
  reachable zod_email zod_datetime Date_parse toISOString orderBy w →
  (∀ key count ttl, redis w !! key = Some (count, ttl) → 1 ≤ count ∧ is_Some ttl)
  ∧ (∀ env body,
       redis (snd (post_schedule zod_email zod_datetime Date_parse toISOString env body w))
       = redis w)
  ∧ (∀ q, redis (snd (get_scheduled toISOString orderBy q w)) = redis w
          ∧ redis (snd (get_sent toISOString orderBy q w)) = redis w)
  ∧ (∀ email password, redis (snd (authorize email password w)) = redis w).
Proof.
  intros Hreach.
  assert (Hsame : ∀ R w1 w2, redis w2 = redis w1 → redis w1 = R → redis w2 = R)
    by (intros; congruence).
  split_and!.
  - assert (counters_expire w) as Hw; [|intros key count ttl; apply (Hw key (count, ttl))].
    induction Hreach as [|w env body o w' _ IH E|w q o w' _ IH E|w q o w' _ IH E
                         |w email password o w' _ IH E|w env data o w' _ IH E].
    + intros key e H. simpl in H. by rewrite lookup_empty in H.
    + pose proof (keeps_counters_post_schedule _ counters_expire_redis zod_email
                    zod_datetime Date_parse toISOString env body w IH) as H.
      by rewrite E in H.
    + pose proof (keeps_counters_get_scheduled _ counters_expire_redis toISOString orderBy
                    q w IH) as H.
      by rewrite E in H.
    + pose proof (keeps_counters_get_sent _ counters_expire_redis toISOString orderBy
                    q w IH) as H.
      by rewrite E in H.
    + pose proof (keeps_counters_authorize _ counters_expire_redis email password w IH)
        as H.
      by rewrite E in H.
    + pose proof (keeps_expire_worker env data w IH) as H. by rewrite E in H.
  - intros env body.
    apply (keeps_counters_post_schedule (λ w', redis w' = redis w) (Hsame (redis w))
             zod_email zod_datetime Date_parse toISOString env body w eq_refl).
  - intros q. split.
    + apply (keeps_counters_get_scheduled (λ w', redis w' = redis w) (Hsame (redis w))
               toISOString orderBy q w eq_refl).
    + apply (keeps_counters_get_sent (λ w', redis w' = redis w) (Hsame (redis w))
               toISOString orderBy q w eq_refl).
  - intros email password.
    apply (keeps_counters_authorize (λ w', redis w' = redis w) (Hsame (redis w))
             email password w eq_refl).
Qed.

End CountersExpire.

Lemma X24_witness :
  let w := snd (worker OnTheHour.env OnTheHour.task_a empty_world) in
  (∀ key count ttl, redis w !! key = Some (count, ttl) → 1 ≤ count ∧ is_Some ttl)
  ∧ (∀ env body, redis (snd (Sample.post env body w)) = redis w)
  ∧ (∀ q, redis (snd (get_scheduled Sample.toISOString Sample.orderBy q w)) = redis w
          ∧ redis (snd (get_sent Sample.toISOString Sample.orderBy q w)) = redis w)
  ∧ (∀ email password, redis (snd (authorize email password w)) = redis w).
Proof.
  apply (X24_counters_expire Sample.zod_email Sample.zod_datetime Sample.Date_parse
           Sample.toISOString Sample.orderBy).
  apply (reach_worker _ _ _ _ _ empty_world OnTheHour.env OnTheHour.task_a
           (fst (worker OnTheHour.env OnTheHour.task_a empty_world))).
  - apply reach_empty.
  - vm_compute. reflexivity.
Defined.
